(** * Harmonica piano: the voice and envelope engine of [js/piano.js]

    A shallow embedding of [midiToFreq], [startNoteForElement],
    [stopNoteForElement] and the delayed clean-up callback, together with
    the part of the browser platform (Web Audio nodes and parameters, the
    [Map] of active voices, [setTimeout]) those functions drive.

    Numbers.  JavaScript numbers are IEEE doubles.  Here times and gain
    levels are exact rationals ([Q]), a frequency is a real ([R]) because
    equal temperament is irrational, and [NaN] is [None].  Audio times are
    in seconds, timer times in milliseconds, as in the source.  Integers
    are exact ([Z]); a double holds an integer exactly up to 2^53 - 1 in
    magnitude ([safe_integer]), which is where the integer arithmetic of
    the source and of this file agree, and every statement that depends
    on the value of such an integer carries the bound.

    Strings.  A [string] is the UTF-8 encoding of the JavaScript string.

    Objects.  Audio nodes live in a store (a list, a node's reference is
    its index); a voice and a timer callback hold references, so that two
    holders of one node see one node.  The registry is keyed by the
    identity of the key element.

    Exceptions.  A platform call either returns or throws; the calls that
    can throw here are a [float] argument that is not a number or that
    single precision cannot hold ([TypeError]),
    [osc.type = "custom"], [start] and [stop] on the wrong side of an
    oscillator's life ([InvalidStateError]) and an exponential ramp to
    zero ([RangeError]).

    The rest of the page.  After the engine come the note list and the
    keys [renderKeys] draws, the listeners [attachPointerHandlers] and
    [onceResume] install, and from [js/main.js] the pitch of a note
    name, the navigation menu and the current page's link. *)

From Stdlib Require Import ZArith QArith Reals Psatz String Ascii.
From stdpp Require Import base option list gmap strings pretty.

Local Open Scope string_scope.
Local Open Scope list_scope.
Local Open Scope stdpp_scope.

(** ** Pitch *)

(** [function midiToFreq(m) { return 440 * Math.pow(2, (m - 69) / 12); }] *)
Definition midiToFreq (m : R) : R := (440 * Rpower 2 ((m - 69) / 12))%R.

(** [Number.isSafeInteger(n)] *)
Definition safe_integer (n : Z) : Prop := (Z.abs n <= 2 ^ 53 - 1)%Z.

(** ** [parseInt(s, 10)]

    Leading white space is skipped, one sign is accepted, then the longest
    prefix of decimal digits is read; no digit at all gives [NaN].  The
    number read is exact here; [parseInt] returns the double nearest to
    it, which is the same number when it is a [safe_integer]. *)

(** The white space and line terminators of one byte: TAB, LF, VT, FF,
    CR and SP. *)
Definition is_white (c : ascii) : bool :=
  let n := nat_of_ascii c in
  ((n =? 9) || (n =? 10) || (n =? 11) || (n =? 12) || (n =? 13) || (n =? 32))%nat.

(** The first byte of a white space character of two or three bytes. *)
Definition is_white_lead (c : ascii) : bool :=
  let n := nat_of_ascii c in
  ((n =? 194) || (n =? 225) || (n =? 226) || (n =? 227) || (n =? 239))%nat.

(** U+00A0. *)
Definition is_white2 (c1 c2 : ascii) : bool :=
  ((nat_of_ascii c1 =? 194) && (nat_of_ascii c2 =? 160))%nat.

(** U+1680, U+2000 to U+200A, U+2028, U+2029, U+202F, U+205F, U+3000
    and U+FEFF. *)
Definition is_white3 (c1 c2 c3 : ascii) : bool :=
  let a := nat_of_ascii c1 in
  let b := nat_of_ascii c2 in
  let c := nat_of_ascii c3 in
  ((a =? 225) && (b =? 154) && (c =? 128)
   || (a =? 226) && (b =? 128)
      && ((128 <=? c) && (c <=? 138) || (c =? 168) || (c =? 169) || (c =? 175))
   || (a =? 226) && (b =? 129) && (c =? 159)
   || (a =? 227) && (b =? 128) && (c =? 128)
   || (a =? 239) && (b =? 187) && (c =? 191))%nat.

Definition digit_val (c : ascii) : option Z :=
  let n := nat_of_ascii c in
  if ((48 <=? n) && (n <=? 57))%nat then Some (Z.of_nat (n - 48)) else None.

Fixpoint skip_white (s : string) : string :=
  match s with
  | String c r =>
      if is_white c then skip_white r
      else if is_white_lead c then
        match r with
        | String c2 r2 =>
            if is_white2 c c2 then skip_white r2
            else
              match r2 with
              | String c3 r3 =>
                  if is_white3 c c2 c3 then skip_white r3 else s
              | EmptyString => s
              end
        | EmptyString => s
        end
      else s
  | EmptyString => s
  end.

Fixpoint read_digits (acc : Z) (s : string) : Z :=
  match s with
  | String c r =>
      match digit_val c with
      | Some d => read_digits (10 * acc + d) r
      | None => acc
      end
  | EmptyString => acc
  end.

Definition starts_with_digit (s : string) : bool :=
  match s with
  | String c _ => bool_decide (is_Some (digit_val c))
  | EmptyString => false
  end.

Definition parseInt (s : string) : option Z :=
  let t := skip_white s in
  let '(neg, u) :=
    match t with
    | String "-" r => (true, r)
    | String "+" r => (false, r)
    | _ => (false, t)
    end in
  if starts_with_digit u
  then Some (if neg then (- read_digits 0 u)%Z else read_digits 0 u)
  else None.

(** ** Web Audio data *)

(** The [OscillatorType] enumeration of the Web Audio API. *)
Inductive OscillatorType := sine | square | sawtooth | triangle | custom.

Global Instance OscillatorType_eq_dec : EqDecision OscillatorType.
Proof. solve_decision. Defined.

Definition OscillatorType_of_string (s : string) : option OscillatorType :=
  if String.eqb s "sine" then Some sine
  else if String.eqb s "square" then Some square
  else if String.eqb s "sawtooth" then Some sawtooth
  else if String.eqb s "triangle" then Some triangle
  else if String.eqb s "custom" then Some custom
  else None.

(** An automation event on an [AudioParam]: a value and the audio time
    (seconds) at which it is reached. *)
Inductive ParamEvent (V : Type) : Type :=
  | SetValueAtTime (v : V) (t : Q)
  | ExponentialRampToValueAtTime (v : V) (t : Q).
Arguments SetValueAtTime {V} v t.
Arguments ExponentialRampToValueAtTime {V} v t.

Definition event_time {V} (e : ParamEvent V) : Q :=
  match e with
  | SetValueAtTime _ t => t
  | ExponentialRampToValueAtTime _ t => t
  end.

(** [value] is what the [.value] getter returns: the level the rendering
    thread last produced.  Scheduling calls only touch [events]. *)
Record AudioParam (V : Type) : Type :=
  { value : V; events : list (ParamEvent V) }.
Arguments value {V} _.
Arguments events {V} _.

(** The timeline is kept in time order; an event goes after those already
    scheduled for the same instant. *)
Fixpoint insert_event {V} (e : ParamEvent V) (l : list (ParamEvent V))
  : list (ParamEvent V) :=
  match l with
  | [] => [e]
  | e' :: r =>
      if Qle_bool (event_time e') (event_time e)
      then e' :: insert_event e r
      else e :: l
  end.

Definition schedule {V} (e : ParamEvent V) (p : AudioParam V) : AudioParam V :=
  {| value := value p; events := insert_event e (events p) |}.

(** [cancelScheduledValues(t)] drops every event whose time is [t] or later. *)
Definition before {V} (t : Q) (e : ParamEvent V) : bool :=
  negb (Qle_bool t (event_time e)).

Definition cancel_from {V} (t : Q) (p : AudioParam V) : AudioParam V :=
  {| value := value p; events := List.filter (before t) (events p) |}.

(** Where a node's output goes: another node of the store, or the shared
    [masterGain]. *)
Inductive Target := ToNode (n : nat) | masterGain.

Global Instance Target_eq_dec : EqDecision Target.
Proof. solve_decision. Defined.

Record OscillatorNode : Type :=
  { osc_type : OscillatorType;
    frequency : AudioParam R;
    started : option Q;
    stopped : option Q;
    osc_out : list Target }.

Record GainNode : Type :=
  { gain_param : AudioParam Q;
    gain_out : list Target }.

Inductive AudioNode := Osc (o : OscillatorNode) | Gain (g : GainNode).

Definition outputs (n : AudioNode) : list Target :=
  match n with
  | Osc o => osc_out o
  | Gain g => gain_out g
  end.

(** [audioCtx.createOscillator()] and [audioCtx.createGain()] defaults. *)
Definition new_oscillator : OscillatorNode :=
  {| osc_type := sine;
     frequency := {| value := 440%R; events := [] |};
     started := None; stopped := None; osc_out := [] |}.

Definition new_gain : GainNode :=
  {| gain_param := {| value := 1%Q; events := [] |}; gain_out := [] |}.

(** ** Page data *)

(** A key element: its identity (what the [Map] compares) and
    [dataset.midi], which is [undefined] ([None]) or a string. *)
Record Element : Type := { el_id : nat; dataset_midi : option string }.

(** [{ osc, gain }]: references into the node store. *)
Record Voice : Type := { osc : nat; gain : nat }.

(** The arrow function handed to [setTimeout] in [stopNoteForElement],
    with the two nodes it closes over. *)
Inductive Callback := DisconnectVoice (o g : nat).

Record Timer : Type := { fire_at : Q; callback : Callback }.

Inductive ContextState := suspended | running | closed.

Global Instance ContextState_eq_dec : EqDecision ContextState.
Proof. solve_decision. Defined.

(** [const ADSR = { attack, decay, sustain, release }] *)
Record Envelope : Type :=
  { attack : Q; decay : Q; sustain : Q; release : Q }.

Definition ADSR : Envelope :=
  {| attack := 1 # 100; decay := 12 # 100; sustain := 75 # 100;
     release := 25 # 100 |}.

Record State : Type :=
  { ctx_state : ContextState;          (* audioCtx.state *)
    resume_requested : bool;           (* audioCtx.resume() was called *)
    currentTime : Q;                   (* audioCtx.currentTime, seconds *)
    clock : Q;                         (* event-loop clock, milliseconds *)
    nodes : list AudioNode;            (* every node created so far *)
    activeVoices : gmap nat Voice;     (* new Map(), keyed by element *)
    active_class : gset nat;           (* elements whose classList has "active" *)
    waveSelect : option string;        (* null, or the selector's value *)
    timers : list Timer }.             (* pending setTimeout calls *)

Definition with_nodes (f : list AudioNode → list AudioNode) (s : State) : State :=
  {| ctx_state := ctx_state s; resume_requested := resume_requested s;
     currentTime := currentTime s; clock := clock s; nodes := f (nodes s);
     activeVoices := activeVoices s; active_class := active_class s;
     waveSelect := waveSelect s; timers := timers s |}.

Definition with_activeVoices (f : gmap nat Voice → gmap nat Voice) (s : State) : State :=
  {| ctx_state := ctx_state s; resume_requested := resume_requested s;
     currentTime := currentTime s; clock := clock s; nodes := nodes s;
     activeVoices := f (activeVoices s); active_class := active_class s;
     waveSelect := waveSelect s; timers := timers s |}.

Definition with_active_class (f : gset nat → gset nat) (s : State) : State :=
  {| ctx_state := ctx_state s; resume_requested := resume_requested s;
     currentTime := currentTime s; clock := clock s; nodes := nodes s;
     activeVoices := activeVoices s; active_class := f (active_class s);
     waveSelect := waveSelect s; timers := timers s |}.

Definition with_timers (f : list Timer → list Timer) (s : State) : State :=
  {| ctx_state := ctx_state s; resume_requested := resume_requested s;
     currentTime := currentTime s; clock := clock s; nodes := nodes s;
     activeVoices := activeVoices s; active_class := active_class s;
     waveSelect := waveSelect s; timers := f (timers s) |}.

Definition with_resume_requested (b : bool) (s : State) : State :=
  {| ctx_state := ctx_state s; resume_requested := b;
     currentTime := currentTime s; clock := clock s; nodes := nodes s;
     activeVoices := activeVoices s; active_class := active_class s;
     waveSelect := waveSelect s; timers := timers s |}.

Definition with_running (s : State) : State :=
  {| ctx_state := running; resume_requested := false;
     currentTime := currentTime s; clock := clock s; nodes := nodes s;
     activeVoices := activeVoices s; active_class := active_class s;
     waveSelect := waveSelect s; timers := timers s |}.

Definition with_time (dt : Q) (s : State) : State :=
  {| ctx_state := ctx_state s; resume_requested := resume_requested s;
     currentTime :=
       (if decide (ctx_state s = running)
        then currentTime s + dt / 1000 else currentTime s)%Q;
     clock := (clock s + dt)%Q; nodes := nodes s;
     activeVoices := activeVoices s; active_class := active_class s;
     waveSelect := waveSelect s; timers := timers s |}.

(** A fresh page: the context still suspended, no voice, no node, no
    timer, the selector showing "triangle". *)
Definition initial : State :=
  {| ctx_state := suspended; resume_requested := false;
     currentTime := 0; clock := 0; nodes := [];
     activeVoices := ∅; active_class := ∅;
     waveSelect := Some "triangle"; timers := [] |}.

(** ** Exceptions and the state monad of the page *)

Inductive Exn := TypeError | InvalidStateError | RangeError.

(** A call either returns or throws; both leave a state behind. *)
Inductive Res (A : Type) : Type :=
  | Ret (a : A) (s : State)
  | Throw (e : Exn) (s : State).
Arguments Ret {A} a s.
Arguments Throw {A} e s.

Definition M (A : Type) : Type := State → Res A.

Global Instance M_ret : MRet M := λ A a s, Ret a s.

Global Instance M_bind : MBind M := λ A B f m s,
  match m s with
  | Ret a s' => f a s'
  | Throw e s' => Throw e s'
  end.

Definition gets {A} (f : State → A) : M A := λ s, Ret (f s) s.
Definition modify (f : State → State) : M unit := λ s, Ret () (f s).
Definition throw {A} (e : Exn) : M A := λ s, Throw e s.

(** [try { body } catch (e) {}] *)
Definition try_catch (body : M unit) : M unit := λ s,
  match body s with
  | Ret a s' => Ret a s'
  | Throw _ s' => Ret () s'
  end.

Definition final {A} (r : Res A) : State :=
  match r with
  | Ret _ s => s
  | Throw _ s => s
  end.

Definition returns {A} (r : Res A) : bool :=
  match r with
  | Ret _ _ => true
  | Throw _ _ => false
  end.

(** ** Platform calls *)

(** A call on a node reference rewrites that node in the store. *)
Definition on_osc (f : OscillatorNode → OscillatorNode) (n : AudioNode) : AudioNode :=
  match n with
  | Osc o => Osc (f o)
  | Gain _ => n
  end.

Definition on_gain (f : GainNode → GainNode) (n : AudioNode) : AudioNode :=
  match n with
  | Gain g => Gain (f g)
  | Osc _ => n
  end.

Definition update_osc (i : nat) (f : OscillatorNode → OscillatorNode)
  (ns : list AudioNode) : list AudioNode := alter (on_osc f) i ns.

Definition update_gain (i : nat) (f : GainNode → GainNode)
  (ns : list AudioNode) : list AudioNode := alter (on_gain f) i ns.

Definition set_outputs (out : list Target) (n : AudioNode) : AudioNode :=
  match n with
  | Osc o =>
      Osc {| osc_type := osc_type o; frequency := frequency o;
             started := started o; stopped := stopped o; osc_out := out |}
  | Gain g => Gain {| gain_param := gain_param g; gain_out := out |}
  end.

Definition createOscillator : M nat := λ s,
  Ret (length (nodes s)) (with_nodes (λ ns, ns ++ [Osc new_oscillator]) s).

Definition createGain : M nat := λ s,
  Ret (length (nodes s)) (with_nodes (λ ns, ns ++ [Gain new_gain]) s).

Definition set_frequency (p : AudioParam R) (o : OscillatorNode) : OscillatorNode :=
  {| osc_type := osc_type o; frequency := p; started := started o;
     stopped := stopped o; osc_out := osc_out o |}.

Definition set_osc_type (ty : OscillatorType) (o : OscillatorNode) : OscillatorNode :=
  {| osc_type := ty; frequency := frequency o; started := started o;
     stopped := stopped o; osc_out := osc_out o |}.

Definition set_started (t : Q) (o : OscillatorNode) : OscillatorNode :=
  {| osc_type := osc_type o; frequency := frequency o; started := Some t;
     stopped := stopped o; osc_out := osc_out o |}.

Definition set_stopped (t : Q) (o : OscillatorNode) : OscillatorNode :=
  {| osc_type := osc_type o; frequency := frequency o; started := started o;
     stopped := Some t; osc_out := osc_out o |}.

Definition set_gain_param (f : AudioParam Q → AudioParam Q) (g : GainNode) : GainNode :=
  {| gain_param := f (gain_param g); gain_out := gain_out g |}.

(** A Web IDL [float] argument is rounded to single precision.  The
    largest single is 2^128 - 2^104; a number half a step above it or
    more, in magnitude, rounds to 2^128, which no single holds. *)
Definition float_limit : R := (2 ^ 128 - 2 ^ 103)%R.

Definition float_accepts (x : R) : Prop := (Rabs x < float_limit)%R.

(** [osc.frequency.setValueAtTime(v, t)].  The argument is a Web IDL
    [float]: [NaN], an infinity (a double overflows far above
    [float_limit]) and a number no single holds raise [TypeError]. *)
Definition frequency_setValueAtTime (i : nat) (v : option R) (t : Q) : M unit :=
  match v with
  | None => throw TypeError
  | Some f =>
      if Rlt_dec (Rabs f) float_limit then
        modify (with_nodes (update_osc i (λ o,
          set_frequency (schedule (SetValueAtTime f t) (frequency o)) o)))
      else throw TypeError
  end.

(** [osc.type = v].  A string outside the enumeration is ignored;
    ["custom"] cannot be assigned and raises [InvalidStateError]. *)
Definition set_type (i : nat) (v : string) : M unit :=
  match OscillatorType_of_string v with
  | None => mret ()
  | Some ty =>
      if decide (ty = custom) then throw InvalidStateError
      else modify (with_nodes (update_osc i (set_osc_type ty)))
  end.

Definition on_gain_param (i : nat) (f : AudioParam Q → AudioParam Q) : M unit :=
  modify (with_nodes (update_gain i (set_gain_param f))).

(** [gain.gain.setValueAtTime(v, t)] *)
Definition gain_setValueAtTime (i : nat) (v t : Q) : M unit :=
  on_gain_param i (schedule (SetValueAtTime v t)).

(** [gain.gain.exponentialRampToValueAtTime(v, t)]: a target equal to
    zero raises [RangeError]. *)
Definition gain_exponentialRampToValueAtTime (i : nat) (v t : Q) : M unit :=
  if Qeq_bool v 0 then throw RangeError
  else on_gain_param i (schedule (ExponentialRampToValueAtTime v t)).

(** [gain.gain.cancelScheduledValues(t)] *)
Definition gain_cancelScheduledValues (i : nat) (t : Q) : M unit :=
  on_gain_param i (cancel_from t).

(** [gain.gain.value] *)
Definition gain_value (i : nat) : M Q :=
  gets (λ s, match nodes s !! i with
             | Some (Gain g) => value (gain_param g)
             | _ => 1%Q
             end).

(** [node.connect(target)]: a connection that exists is not duplicated. *)
Definition add_output (t : Target) (n : AudioNode) : AudioNode :=
  if bool_decide (t ∈ outputs n) then n
  else set_outputs (outputs n ++ [t]) n.

Definition connect (i : nat) (t : Target) : M unit :=
  modify (with_nodes (alter (add_output t) i)).

(** [node.disconnect()]: every outgoing connection is removed. *)
Definition drop_outputs (i : nat) (ns : list AudioNode) : list AudioNode :=
  alter (set_outputs []) i ns.

Definition disconnect (i : nat) : M unit := modify (with_nodes (drop_outputs i)).

(** [osc.start(t)]: a second start raises [InvalidStateError]. *)
Definition start (i : nat) (t : Q) : M unit := λ s,
  match nodes s !! i with
  | Some (Osc o) =>
      match started o with
      | Some _ => Throw InvalidStateError s
      | None => Ret () (with_nodes (update_osc i (set_started t)) s)
      end
  | _ => Ret () s
  end.

(** What [osc.stop(t)] leaves of an oscillator that was started: the
    last call sets the stop time, unless the oscillator has stopped
    already, and then the call has no effect. *)
Definition reschedule_stop (now t : Q) (o : OscillatorNode) : OscillatorNode :=
  match stopped o with
  | Some t0 => if Qle_bool t0 now then o else set_stopped t o
  | None => set_stopped t o
  end.

(** [osc.stop(t)]: raises [InvalidStateError] on an oscillator that was
    never started. *)
Definition stop (i : nat) (t : Q) : M unit := λ s,
  match nodes s !! i with
  | Some (Osc o) =>
      match started o with
      | Some _ =>
          Ret () (with_nodes (update_osc i (reschedule_stop (currentTime s) t)) s)
      | None => Throw InvalidStateError s
      end
  | _ => Ret () s
  end.

(** [audioCtx.resume()] returns a promise; the state changes later. *)
Definition resume : M unit := modify (with_resume_requested true).

(** [setTimeout(cb, delay)] *)
Definition setTimeout (cb : Callback) (delay : Q) : M unit :=
  modify (λ s, with_timers (λ ts,
    ts ++ [{| fire_at := (clock s + delay)%Q; callback := cb |}]) s).

(** [Math.max(a, b)] on numbers that are not [NaN]. *)
Definition Math_max (a b : Q) : Q := if Qle_bool a b then b else a.

(** A string is truthy when it is not empty. *)
Definition truthy (s : string) : bool := negb (String.eqb s "").

(** [(waveSelect && waveSelect.value) ? waveSelect.value : "triangle"] *)
Definition selected_wave (ws : option string) : string :=
  match ws with
  | Some v => if truthy v then v else "triangle"
  | None => "triangle"
  end.

(** ** The voice engine *)

Section Engine.

(** The envelope configuration; the page uses [ADSR]. *)
Variable adsr : Envelope.

(** [function oscillatorsAttach(osc, gain) { }]: an empty extension point. *)
Definition oscillatorsAttach (osc gain : nat) : M unit := mret ().

Definition startNoteForElement (keyEl : option Element) : M unit :=
  match keyEl with
  | None => mret ()
  | Some el =>
      match dataset_midi el with
      | None => mret ()
      | Some data =>
          if negb (truthy data) then mret () else
          st ← gets ctx_state;
          (if decide (st = suspended) then resume else mret ());;
          let midi := parseInt data in
          has ← gets (λ s, bool_decide (is_Some (activeVoices s !! el_id el)));
          if has : bool then mret () else
          let freq := midiToFreq <$> (IZR <$> midi) in
          osc ← createOscillator;
          gain ← createGain;
          oscillatorsAttach osc gain;;
          t ← gets currentTime;
          frequency_setValueAtTime osc freq t;;
          ws ← gets waveSelect;
          set_type osc (selected_wave ws);;
          now ← gets currentTime;
          gain_setValueAtTime gain (1 # 10000) now;;
          gain_exponentialRampToValueAtTime gain 1 (now + attack adsr);;
          gain_exponentialRampToValueAtTime gain
            (Math_max (1 # 10000) (sustain adsr))
            (now + attack adsr + decay adsr);;
          connect osc (ToNode gain);;
          connect gain masterGain;;
          start osc now;;
          modify (with_activeVoices
                    (<[el_id el := {| osc := osc; gain := gain |}]>));;
          modify (with_active_class (λ c, {[el_id el]} ∪ c))
      end
  end.

Definition stopNoteForElement (keyEl : option Element) : M unit :=
  match keyEl with
  | None => mret ()
  | Some el =>
      voice ← gets (λ s, activeVoices s !! el_id el);
      match voice with
      | None => modify (with_active_class (λ c, c ∖ {[el_id el]}))
      | Some v =>
          let gain := gain v in
          let osc := osc v in
          now ← gets currentTime;
          gain_cancelScheduledValues gain now;;
          level ← gain_value gain;
          gain_setValueAtTime gain level now;;
          gain_exponentialRampToValueAtTime gain (1 # 10000)
            (now + release adsr);;
          try_catch (stop osc (now + release adsr + (2 # 100)));;
          setTimeout (DisconnectVoice osc gain)
            ((release adsr + (1 # 10)) * 1000);;
          modify (with_activeVoices (delete (el_id el)));;
          modify (with_active_class (λ c, c ∖ {[el_id el]}))
      end
  end.

(** The body of the timer callback:
    [try { osc.disconnect(); gain.disconnect(); } catch (e) {}] *)
Definition run_callback (cb : Callback) : M unit :=
  match cb with
  | DisconnectVoice o g => try_catch (disconnect o;; disconnect g)
  end.

(** ** The event loop *)

Definition due (now : Q) (t : Timer) : bool := Qle_bool (fire_at t) now.

Fixpoint run_callbacks (ts : list Timer) : M unit :=
  match ts with
  | [] => mret ()
  | t :: r => run_callback (callback t);; run_callbacks r
  end.

(** Every timer that is due runs, in the order it was set. *)
Definition fire_timers : M unit :=
  now ← gets clock;
  ts ← gets timers;
  modify (with_timers (List.filter (λ t, negb (due now t))));;
  run_callbacks (List.filter (due now) ts).

(** [dt] milliseconds pass; the audio clock follows while the context
    is running. *)
Definition elapse (dt : Q) : M unit :=
  modify (with_time dt);; fire_timers.

(** The rendering thread reports the level it reached on a gain node. *)
Definition rendered (i : nat) (level : Q) : M unit :=
  on_gain_param i (λ p, {| value := level; events := events p |}).

(** The promise of [audioCtx.resume()] settles. *)
Definition resumed : M unit :=
  modify (λ s, if resume_requested s then with_running s else s).

Inductive Turn :=
  | NoteOn (keyEl : option Element)
  | NoteOff (keyEl : option Element)
  | Elapse (dt : Q)
  | Rendered (i : nat) (level : Q)
  | Resumed.

Definition turn (t : Turn) : M unit :=
  match t with
  | NoteOn k => startNoteForElement k
  | NoteOff k => stopNoteForElement k
  | Elapse dt => elapse dt
  | Rendered i level => rendered i level
  | Resumed => resumed
  end.

Fixpoint run (ts : list Turn) : M unit :=
  match ts with
  | [] => mret ()
  | t :: r => turn t;; run r
  end.

End Engine.

(** ** Well-formed states *)

(** Every node reference held by the registry or by a pending timer
    points into the node store. *)
Definition voice_bounded (n : nat) (v : Voice) : Prop := osc v < n ∧ gain v < n.

Definition timer_bounded (n : nat) (t : Timer) : Prop :=
  match callback t with
  | DisconnectVoice o g => o < n ∧ g < n
  end.

Definition well_formed (s : State) : Prop :=
  (∀ k v, activeVoices s !! k = Some v → voice_bounded (length (nodes s)) v)
  ∧ Forall (timer_bounded (length (nodes s))) (timers s).

(** A key the page renders: [dataset.midi] holds an integer. *)
Definition key (id : nat) (midi : string) : option Element :=
  Some {| el_id := id; dataset_midi := Some midi |}.

(** The selected waveform is one [osc.type] accepts. *)
Definition wave_assignable (s : State) : Prop :=
  OscillatorType_of_string (selected_wave (waveSelect s)) ≠ Some custom.

(** [dataset.midi] reads as a number whose frequency the oscillator
    takes: a number below 1500. *)
Definition frequency_accepted (data : string) : Prop :=
  ∃ n, parseInt data = Some n ∧ float_accepts (midiToFreq (IZR n)).

Definition after (adsr : Envelope) (ts : list Turn) (s : State) : State :=
  final (run adsr ts s).

Definition pending (s : State) (o g : nat) : Prop :=
  ∃ t, t ∈ timers s ∧ callback t = DisconnectVoice o g.

Definition connected_to (s : State) (i : nat) (t : Target) : Prop :=
  ∃ n, nodes s !! i = Some n ∧ outputs n = [t].

Definition disconnected (s : State) (i : nat) : Prop :=
  ∃ n, nodes s !! i = Some n ∧ outputs n = [].

(** ** The state a fresh note-on leads to *)

(** [if (audioCtx.state === "suspended") audioCtx.resume();] *)
Definition requested (s : State) : State :=
  if decide (ctx_state s = suspended) then with_resume_requested true s else s.

(** The type a new oscillator ends with after [osc.type = v]. *)
Definition assigned_type (v : string) : OscillatorType :=
  default sine (OscillatorType_of_string v).

Definition voice_oscillator (ty : OscillatorType) (f : R) (now : Q) (g : nat)
  : OscillatorNode :=
  {| osc_type := ty;
     frequency := {| value := 440%R; events := [SetValueAtTime f now] |};
     started := Some now; stopped := None; osc_out := [ToNode g] |}.

Definition attack_timeline (adsr : Envelope) (now : Q) : list (ParamEvent Q) :=
  insert_event
    (ExponentialRampToValueAtTime (Math_max (1 # 10000) (sustain adsr))
       (now + attack adsr + decay adsr))
    (insert_event (ExponentialRampToValueAtTime 1%Q (now + attack adsr))
       [SetValueAtTime (1 # 10000) now]).

Definition voice_gain (adsr : Envelope) (now : Q) : GainNode :=
  {| gain_param := {| value := 1%Q; events := attack_timeline adsr now |};
     gain_out := [masterGain] |}.

Definition note_on_state (adsr : Envelope) (id : nat) (n : Z) (s : State) : State :=
  let o := length (nodes s) in
  {| ctx_state := ctx_state s;
     resume_requested :=
       if decide (ctx_state s = suspended) then true else resume_requested s;
     currentTime := currentTime s; clock := clock s;
     nodes :=
       nodes s ++
       [Osc (voice_oscillator (assigned_type (selected_wave (waveSelect s)))
               (midiToFreq (IZR n)) (currentTime s) (S o));
        Gain (voice_gain adsr (currentTime s))];
     activeVoices := <[id := {| osc := o; gain := S o |}]> (activeVoices s);
     active_class := {[id]} ∪ active_class s;
     waveSelect := waveSelect s; timers := timers s |}.

(** ** The state a note-off on a registered voice leads to *)

Definition release_param (adsr : Envelope) (now : Q) (p : AudioParam Q)
  : AudioParam Q :=
  schedule (ExponentialRampToValueAtTime (1 # 10000) (now + release adsr))
    (schedule (SetValueAtTime (value p) now) (cancel_from now p)).

(** What [try { osc.stop(t) } catch (e) {}] leaves of an oscillator. *)
Definition stop_if_sounding (now t : Q) (o : OscillatorNode) : OscillatorNode :=
  match started o with
  | Some _ => reschedule_stop now t o
  | None => o
  end.

Definition release_delay (adsr : Envelope) : Q := (release adsr + (1 # 10)) * 1000.

Definition note_off_state (adsr : Envelope) (id : nat) (v : Voice) (s : State)
  : State :=
  let now := currentTime s in
  {| ctx_state := ctx_state s; resume_requested := resume_requested s;
     currentTime := now; clock := clock s;
     nodes :=
       update_osc (osc v)
         (stop_if_sounding now (now + release adsr + (2 # 100)))
         (update_gain (gain v) (set_gain_param (release_param adsr now))
            (nodes s));
     activeVoices := delete id (activeVoices s);
     active_class := active_class s ∖ {[id]};
     waveSelect := waveSelect s;
     timers :=
       timers s ++
       [{| fire_at := clock s + release_delay adsr;
           callback := DisconnectVoice (osc v) (gain v) |}] |}.

(** ** The state the event loop leads to *)

Definition callback_effect (cb : Callback) (ns : list AudioNode) : list AudioNode :=
  match cb with
  | DisconnectVoice o g => drop_outputs g (drop_outputs o ns)
  end.

Definition callbacks_effect (ts : list Timer) (ns : list AudioNode)
  : list AudioNode :=
  foldl (λ l t, callback_effect (callback t) l) ns ts.

Definition elapsed_state (dt : Q) (s : State) : State :=
  let s' := with_time dt s in
  with_nodes (callbacks_effect (List.filter (due (clock s')) (timers s')))
    (with_timers (List.filter (λ t, negb (due (clock s') t))) s').

(** A timer callback names node [i]. *)
Definition mentions (i : nat) (t : Timer) : bool :=
  match callback t with
  | DisconnectVoice o g => (i =? o)%nat || (i =? g)%nat
  end.

Definition silence_if (b : bool) (n : AudioNode) : AudioNode :=
  if b then set_outputs [] n else n.

(** An oscillator that sounds and has no stop scheduled. *)
Definition live (s : State) (o g : nat) : Prop :=
  ∃ n, nodes s !! o = Some (Osc n)
       ∧ is_Some (started n) ∧ stopped n = None ∧ osc_out n = [ToNode g].

(** An oscillator whose release is under way: a stop is scheduled. *)
Definition releasing (s : State) (o : nat) : Prop :=
  ∃ n, nodes s !! o = Some (Osc n) ∧ is_Some (stopped n).

(** The states reached by a note-on of a fresh key, and by the note-off
    that follows it. *)
Definition on_state (adsr : Envelope) (id : nat) (data : string) (s : State)
  : State :=
  note_on_state adsr id (default 0%Z (parseInt data)) s.

Definition on_off_state (adsr : Envelope) (id : nat) (data : string) (s : State)
  : State :=
  note_off_state adsr id
    {| osc := length (nodes s); gain := S (length (nodes s)) |}
    (on_state adsr id data s).

(** The state reached when the key is pressed again [d] milliseconds into
    the release. *)
Definition retrigger_state (adsr : Envelope) (id : nat) (data : string) (d : Q)
  (s : State) : State :=
  on_state adsr id data (elapsed_state d (on_off_state adsr id data s)).

(** A call that changed neither the node store nor the registry. *)
Definition ignored (s s' : State) : Prop :=
  nodes s' = nodes s ∧ activeVoices s' = activeVoices s.

(** ** Key elements *)

(** The element is [null], or carries no [dataset.midi], or an empty one. *)
Definition key_identity_missing (keyEl : option Element) : Prop :=
  match keyEl with
  | None => True
  | Some el =>
      match dataset_midi el with
      | None => True
      | Some data => data = ""
      end
  end.

(** [dataset.midi] parses to a number. *)
Definition key_identity_numeric (keyEl : option Element) : Prop :=
  match keyEl with
  | None => False
  | Some el =>
      match dataset_midi el with
      | None => False
      | Some data => is_Some (parseInt data)
      end
  end.

(** [dataset.midi] parses to a number whose frequency the oscillator
    takes. *)
Definition key_identity_accepted (keyEl : option Element) : Prop :=
  match keyEl with
  | None => False
  | Some el =>
      match dataset_midi el with
      | None => False
      | Some data => frequency_accepted data
      end
  end.

(** The target of an exponential ramp is strictly positive. *)
Definition ramp_target_positive (e : ParamEvent Q) : Prop :=
  match e with
  | SetValueAtTime _ _ => True
  | ExponentialRampToValueAtTime v _ => (0 < v)%Q
  end.

(** ** Example states and configurations *)

(** Key 72 pressed on the fresh page, 50 ms later: the attack is over,
    the decay is under way and the rendering thread reports a level of 0.9
    on the voice's gain. *)
Definition mid_decay : State :=
  after ADSR
    [NoteOn (key 7 "72"); Resumed; Elapse 50; Rendered 1 (9 # 10)] initial.

(** The fresh page without a waveform selector. *)
Definition without_selector : State :=
  {| ctx_state := suspended; resume_requested := false;
     currentTime := 0; clock := 0; nodes := [];
     activeVoices := ∅; active_class := ∅;
     waveSelect := None; timers := [] |}.

(** An envelope whose sustain level is zero. *)
Definition silent_sustain : Envelope :=
  {| attack := 1 # 100; decay := 12 # 100; sustain := 0; release := 25 # 100 |}.

(** * The rest of the page *)

(** ** The note list *)

(** [String(n)] for a [safe_integer] [n]: its decimal digits, with a
    minus sign when negative.  (From 10^21 on [String] writes an
    exponent; no number this file prints comes near.) *)
Definition Number_toString (n : Z) : string := pretty n.

(** [const NOTE_NAMES = ["C","C#","D","D#","E","F","F#","G","G#","A","A#","B"]] *)
Definition NOTE_NAMES : list string :=
  ["C"; "C#"; "D"; "D#"; "E"; "F"; "F#"; "G"; "G#"; "A"; "A#"; "B"].

(** [{ midi, name, isSharp }] *)
Record Note : Type :=
  { note_midi : Z; note_name : string; note_isSharp : bool }.

(** [name.includes("#")] *)
Fixpoint includes_hash (s : string) : bool :=
  match s with
  | String c r => Ascii.eqb c "#" || includes_hash r
  | EmptyString => false
  end.

(** [NOTE_NAMES[midi % 12]]: the remainder has the sign of [midi]; a
    negative index reads [undefined]. *)
Definition name_of_midi (midi : Z) : option string :=
  let r := Z.rem midi 12 in
  if (r <? 0)%Z then None else NOTE_NAMES !! Z.to_nat r.

(** The octave, and every number [buildNoteList] computes from it, is a
    [safe_integer]. *)
Definition octave_in_range (b : Z) : Prop :=
  safe_integer ((Z.abs b + 1) * 12 + 23).

(** One turn of the loop body; [undefined.includes] raises [TypeError]. *)
Definition push_note (startMidi i : Z) (notes : list Note) : Exn + list Note :=
  let midi := (startMidi + i)%Z in
  match name_of_midi midi with
  | None => inl TypeError
  | Some name =>
      inr (notes ++ [{| note_midi := midi; note_name := name;
                        note_isSharp := includes_hash name |}])
  end.

(** [for (let i = ...; i < 24; i++)], with [count] turns left. *)
Fixpoint note_loop (startMidi i : Z) (count : nat) (notes : list Note)
  : Exn + list Note :=
  match count with
  | O => inr notes
  | S c =>
      match push_note startMidi i notes with
      | inl e => inl e
      | inr notes' => note_loop startMidi (i + 1) c notes'
      end
  end.

(** [function buildNoteList(baseOctave)]; a [NaN] octave ([None]) makes
    every index [NaN], which reads [undefined].  The arithmetic is that
    of the source for an octave that is [octave_in_range]; beyond, the
    source's doubles round and the 24 numbers are no longer distinct. *)
Definition buildNoteList (baseOctave : option Z) : Exn + list Note :=
  match baseOctave with
  | None => inl TypeError
  | Some b => note_loop ((b + 1) * 12) 0 24 []
  end.

(** ** Rendering the keys *)

(** A key [div]: its class, [dataset.midi], [dataset.name], the text of
    its label and [style.left] in pixels. *)
Record KeyDiv : Type :=
  { className : string;
    data_midi : string;
    data_name : string;
    label_text : string;
    style_left : Q }.

(** What [renderKeys] leaves in the container: its children in document
    order and [style.width] in pixels. *)
Record Keyboard : Type := { children : list KeyDiv; style_width : Q }.

(** [n.name + (Math.floor(n.midi / 12) - 1)] *)
Definition key_label (n : Note) : string :=
  note_name n +:+ Number_toString (note_midi n / 12 - 1).

Definition key_div (cls : string) (n : Note) (x : Q) : KeyDiv :=
  {| className := cls; data_midi := Number_toString (note_midi n);
     data_name := note_name n; label_text := key_label n; style_left := x |}.

(** First pass and positioning: the naturals, every one [whiteWidth]
    to the right of the one before. *)
Fixpoint white_keys (whiteWidth : Q) (i : Z) (notes : list Note) : list KeyDiv :=
  match notes with
  | [] => []
  | n :: r =>
      if note_isSharp n then white_keys whiteWidth i r
      else key_div "key white-key" n (inject_Z i * whiteWidth)
           :: white_keys whiteWidth (i + 1) r
  end.

(** [const blackMap = { "C#": 0, "D#": 1, "F#": 3, "G#": 4, "A#": 5 }],
    read with the note names of [NOTE_NAMES]. *)
Definition blackMap : list (string * Z) :=
  [("C#", 0); ("D#", 1); ("F#", 3); ("G#", 4); ("A#", 5)]%Z.

Fixpoint lookup_name (name : string) (m : list (string * Z)) : option Z :=
  match m with
  | [] => None
  | (k, v) :: r => if String.eqb k name then Some v else lookup_name name r
  end.

(** [name.replace(/[0-9]/g, "")] *)
Fixpoint strip_digits (s : string) : string :=
  match s with
  | String c r =>
      if bool_decide (is_Some (digit_val c)) then strip_digits r
      else String c (strip_digits r)
  | EmptyString => EmptyString
  end.

(** Second pass: the body of [notes.forEach] for the sharps, threading
    [octaveOffset] and the keys appended so far. *)
Definition black_step (whiteWidth blackWidth : Q) (firstMidi : Z)
  (acc : Z * list KeyDiv) (n : Note) : Z * list KeyDiv :=
  let '(octaveOffset, out) := acc in
  if negb (note_isSharp n) then acc
  else
    match lookup_name (strip_digits (note_name n)) blackMap with
    | None => ((octaveOffset + 7)%Z, out)
    | Some posIndex =>
        let octaveNumber := ((note_midi n - firstMidi) / 12)%Z in
        let x := (inject_Z (posIndex + octaveOffset + octaveNumber * 7 + 1)
                  * whiteWidth - blackWidth / 2)%Q in
        (octaveOffset, out ++ [key_div "key black-key" n x])
    end.

(** [whiteEls[0].offsetWidth || 60] *)
Definition width_or_60 (offsetWidth : Q) : Q :=
  if Qeq_bool offsetWidth 0 then 60 else offsetWidth.

(** [function renderKeys()], from the container as it is, the value of
    the octave selector ([None] when the selector is missing) and the
    width the layout gives a natural key.  The container is emptied
    first, so an exception leaves it without keys. *)
Definition renderKeys (container : Keyboard) (octaveSelect : option string)
  (offsetWidth : Q) : Keyboard * option Exn :=
  let emptied := {| children := []; style_width := style_width container |} in
  let baseOctave :=
    match octaveSelect with
    | Some v => parseInt v
    | None => Some 4%Z
    end in
  match buildNoteList baseOctave with
  | inl e => (emptied, Some e)
  | inr notes =>
      match notes, white_keys 0 0 notes with
      | first :: _, _ :: _ =>
          let whiteWidth := width_or_60 offsetWidth in
          let blackWidth := (whiteWidth * (6 # 10))%Q in
          let whites := white_keys whiteWidth 0 notes in
          let blacks :=
            snd (foldl (black_step whiteWidth blackWidth (note_midi first))
                   (0%Z, []) notes) in
          ({| children := whites ++ blacks;
              style_width :=
                inject_Z (Z.of_nat (length whites)) * whiteWidth |}, None)
      | _, _ => (emptied, Some TypeError)
      end
  end.

(** The key element the handlers receive for a rendered [div]. *)
Definition element_of (id : nat) (k : KeyDiv) : option Element :=
  Some {| el_id := id; dataset_midi := Some (data_midi k) |}.

Definition key_midi (k : KeyDiv) : option Z := parseInt (data_midi k).

Definition is_white_key (k : KeyDiv) : bool :=
  String.eqb (className k) "key white-key".

(** The note [i] semitones above a C whose number is [start]. *)
Definition note_at (start : Z) (i : nat) : Note :=
  let name := default "" (NOTE_NAMES !! (i mod 12)) in
  {| note_midi := start + Z.of_nat i; note_name := name;
     note_isSharp := includes_hash name |}.

(** The pitch classes of the sharps, counted from C. *)
Definition sharp_class (i : nat) : bool :=
  bool_decide (i mod 12 ∈ [1; 3; 6; 8; 10]).

(** The layout read off the semitone offsets alone: per natural its rank
    and offset, per sharp the rank of the natural to its right and its
    offset. *)
Definition name_at (i : nat) : string := default "" (NOTE_NAMES !! (i mod 12)).

Fixpoint white_slots (j : Z) (l : list nat) : list (Z * nat) :=
  match l with
  | [] => []
  | i :: r =>
      if includes_hash (name_at i) then white_slots j r
      else (j, i) :: white_slots (j + 1) r
  end.

Definition black_slot_step (acc : Z * list (Z * nat)) (i : nat)
  : Z * list (Z * nat) :=
  let '(octaveOffset, out) := acc in
  if negb (includes_hash (name_at i)) then acc
  else
    match lookup_name (strip_digits (name_at i)) blackMap with
    | None => ((octaveOffset + 7)%Z, out)
    | Some posIndex =>
        (octaveOffset,
         out ++ [((posIndex + octaveOffset + Z.of_nat i / 12 * 7 + 1)%Z, i)])
    end.

Definition white_div (start : Z) (W : Q) (slot : Z * nat) : KeyDiv :=
  key_div "key white-key" (note_at start slot.2) (inject_Z slot.1 * W).

Definition black_div (start : Z) (W : Q) (slot : Z * nat) : KeyDiv :=
  key_div "key black-key" (note_at start slot.2)
    (inject_Z slot.1 * W - W * (6 # 10) / 2).

(** The keyboard of two octaves above the C numbered [start], a natural
    key being [W] pixels wide. *)
Definition keyboard_at (start : Z) (W : Q) : Keyboard :=
  {| children :=
       (white_div start W <$> white_slots 0 (seq 0 24))
       ++ (black_div start W
             <$> (foldl black_slot_step (0%Z, []) (seq 0 24)).2);
     style_width :=
       inject_Z (Z.of_nat (length (white_slots 0 (seq 0 24)))) * W |}.

(** The semitone offsets of the keys in document order. *)
Definition key_order : list nat :=
  (snd <$> white_slots 0 (seq 0 24))
  ++ (snd <$> (foldl black_slot_step (0%Z, []) (seq 0 24)).2).

Definition empty_keyboard : Keyboard := {| children := []; style_width := 0 |}.

(** ** Note names to frequencies ([getNoteFrequency]) *)

(** The own properties of the [noteMap] object literal. *)
Definition noteMap : list (string * Z) :=
  [("C", 0); ("C#", 1); ("Db", 1); ("D", 2); ("D#", 3); ("Eb", 3); ("E", 4);
   ("F", 5); ("F#", 6); ("Gb", 6); ("G", 7); ("G#", 8); ("Ab", 8); ("A", 9);
   ("A#", 10); ("Bb", 10); ("B", 11)]%Z.

(** The property names every object literal inherits from
    [Object.prototype]; reading one gives a function or an object, never
    [undefined]. *)
Definition Object_prototype_names : list string :=
  ["constructor"; "hasOwnProperty"; "isPrototypeOf"; "propertyIsEnumerable";
   "toLocaleString"; "toString"; "valueOf"; "__proto__"; "__defineGetter__";
   "__defineSetter__"; "__lookupGetter__"; "__lookupSetter__"].

(** [noteMap[note]] *)
Inductive Property := Own (n : Z) | Inherited | Undefined.

Definition noteMap_get (note : string) : Property :=
  match lookup_name note noteMap with
  | Some n => Own n
  | None =>
      if bool_decide (note ∈ Object_prototype_names) then Inherited
      else Undefined
  end.

(** [function getNoteFrequency(note, octave = 4)]; [None] is [NaN], the
    result of arithmetic on a value that is not a number. *)
Definition getNoteFrequency (note : string) (octave : option R) : option R :=
  let octave := default 4%R octave in
  match noteMap_get note with
  | Undefined => Some 440%R
  | Inherited => None
  | Own noteNumber =>
      let semitonesFromA4 := ((octave - 4) * 12 + (IZR noteNumber - 9))%R in
      Some (440 * Rpower 2 (semitonesFromA4 / 12))%R
  end.

(** ** The listeners of the page

    [attachPointerHandlers] gives every key four listeners; the window has
    the one-shot [onceResume].  An exception that leaves a listener is
    reported by the browser and goes no further, so a listener takes the
    page from one state to the next. *)

Record Page : Type :=
  { audio : State;
    onceResume_installed : bool }.    (* the window listener is still there *)

(** What can happen to the page: pointer events, a change of the waveform
    selector, the passing of time, and the two reports of the audio
    context. *)
Inductive PageEvent :=
  | PointerDown (target : option Element)   (* on a key, or anywhere else *)
  | PointerUp (el : Element)
  | PointerCancel (el : Element)
  | PointerLeave (el : Element) (pressure : Q) (buttons : Z)
  | WaveSelected (v : string)
  | TimePasses (dt : Q)
  | LevelRendered (i : nat) (level : Q)
  | ResumeSettles.

(** The user picks an option of the waveform selector, when the page has
    one. *)
Definition select_wave (v : string) (s : State) : State :=
  {| ctx_state := ctx_state s; resume_requested := resume_requested s;
     currentTime := currentTime s; clock := clock s; nodes := nodes s;
     activeVoices := activeVoices s; active_class := active_class s;
     waveSelect := (λ _, v) <$> waveSelect s; timers := timers s |}.

Section Listeners.

Variable adsr : Envelope.

(** [if (audioCtx.state === "suspended") audioCtx.resume();] *)
Definition resume_if_suspended : M unit :=
  st ← gets ctx_state;
  if decide (st = suspended) then resume else mret ().

Definition on_pointerdown (el : Element) : M unit :=
  resume_if_suspended;;
  startNoteForElement adsr (Some el).

Definition on_pointerup (el : Element) : M unit :=
  stopNoteForElement adsr (Some el).

Definition on_pointercancel (el : Element) : M unit :=
  stopNoteForElement adsr (Some el).

Definition on_pointerleave (el : Element) (pressure : Q) (buttons : Z) : M unit :=
  if Qeq_bool pressure 0 || (buttons =? 0)%Z
  then stopNoteForElement adsr (Some el)
  else mret ().

Definition onceResume : M unit := resume_if_suspended.

Definition listener (h : M unit) (p : Page) : Page :=
  {| audio := final (h (audio p));
     onceResume_installed := onceResume_installed p |}.

(** [{ once: true }]: the listener runs for the first pointer-down that
    reaches the window and is removed. *)
Definition window_listener (p : Page) : Page :=
  if onceResume_installed p
  then {| audio := final (onceResume (audio p));
          onceResume_installed := false |}
  else p.

(** A pointer-down on a key runs the key's listener and then bubbles to
    the window. *)
Definition dispatch (e : PageEvent) (p : Page) : Page :=
  match e with
  | PointerDown (Some el) => window_listener (listener (on_pointerdown el) p)
  | PointerDown None => window_listener p
  | PointerUp el => listener (on_pointerup el) p
  | PointerCancel el => listener (on_pointercancel el) p
  | PointerLeave el pressure buttons =>
      listener (on_pointerleave el pressure buttons) p
  | WaveSelected v => listener (modify (select_wave v)) p
  | TimePasses dt => listener (elapse dt) p
  | LevelRendered i level => listener (rendered i level) p
  | ResumeSettles => listener resumed p
  end.

End Listeners.

(** Time does not run backwards. *)
Definition possible (e : PageEvent) : Prop :=
  match e with
  | TimePasses dt => (0 <= dt)%Q
  | _ => True
  end.

(** The page as [DOMContentLoaded] leaves it: no node, no voice, no
    timer, no key highlighted; the context in any state and the selector
    with any value, or missing. *)
Definition loaded (p : Page) : Prop :=
  nodes (audio p) = [] ∧ activeVoices (audio p) = ∅
  ∧ active_class (audio p) = ∅ ∧ timers (audio p) = []
  ∧ onceResume_installed p = true.

(** The states the page can be in. *)
Inductive reachable (adsr : Envelope) : Page → Prop :=
  | reachable_loaded p : loaded p → reachable adsr p
  | reachable_event e p :
      reachable adsr p → possible e → reachable adsr (dispatch adsr e p).

Definition fresh_page : Page :=
  {| audio := initial; onceResume_installed := true |}.

(** ** Voices and the nodes they hold *)

Definition owns (v : Voice) (i : nat) : Prop := i = osc v ∨ i = gain v.

(** A voice that is heard: its oscillator runs with no stop scheduled
    and feeds its gain, which feeds [masterGain]. *)
Definition sounding (s : State) (v : Voice) : Prop :=
  live s (osc v) (gain v)
  ∧ ∃ g, nodes s !! gain v = Some (Gain g) ∧ gain_out g = [masterGain].

(** A pending timer will disconnect node [i]. *)
Definition awaited (s : State) (i : nat) : Prop :=
  existsb (mentions i) (timers s) = true.

(** The event is a release of key [k]: one that makes a listener of the
    key call [stopNoteForElement]. *)
Definition releases (k : nat) (e : PageEvent) : bool :=
  match e with
  | PointerUp el | PointerCancel el => bool_decide (el_id el = k)
  | PointerLeave el pressure buttons =>
      bool_decide (el_id el = k) && (Qeq_bool pressure 0 || (buttons =? 0)%Z)
  | _ => false
  end.

(** The event reports a level for node [i]. *)
Definition reports (i : nat) (e : PageEvent) : bool :=
  match e with
  | LevelRendered j _ => bool_decide (j = i)
  | _ => false
  end.

(** What holds of every state the page can be in. *)
Definition consistent (adsr : Envelope) (s : State) : Prop :=
  well_formed s
  ∧ (∀ k v, activeVoices s !! k = Some v → sounding s v)
  ∧ (∀ k1 k2 v1 v2 i,
       activeVoices s !! k1 = Some v1 → activeVoices s !! k2 = Some v2 →
       owns v1 i → owns v2 i → k1 = k2)
  ∧ (∀ k v i, activeVoices s !! k = Some v → owns v i → ¬ awaited s i)
  ∧ (∀ i n, nodes s !! i = Some n → outputs n ≠ [] →
       (∃ k v, activeVoices s !! k = Some v ∧ owns v i) ∨ awaited s i)
  ∧ (∀ k, k ∈ active_class s ↔ is_Some (activeVoices s !! k))
  ∧ Forall (λ t, (fire_at t <= clock s + release_delay adsr)%Q) (timers s).

(** Two states with the same nodes, registry, timers, highlighted keys
    and clock. *)
Definition agree (s s' : State) : Prop :=
  nodes s' = nodes s ∧ activeVoices s' = activeVoices s
  ∧ timers s' = timers s ∧ active_class s' = active_class s
  ∧ clock s' = clock s.

Definition report_level (level : Q) (p : AudioParam Q) : AudioParam Q :=
  {| value := level; events := events p |}.

(** What one event does to the nodes, the registry, the timers and the
    highlighted keys. *)
Inductive Effect (adsr : Envelope) (s : State) (e : PageEvent) : State → Prop :=
  | effect_spare extra :
      Forall (λ n, outputs n = []) extra →
      Effect adsr s e (with_nodes (λ ns, ns ++ extra) s)
  | effect_note_on id n :
      activeVoices s !! id = None →
      Effect adsr s e (note_on_state adsr id n s)
  | effect_note_off id v :
      releases id e = true → activeVoices s !! id = Some v →
      Effect adsr s e (note_off_state adsr id v s)
  | effect_class id :
      activeVoices s !! id = None →
      Effect adsr s e (with_active_class (λ c, c ∖ {[id]}) s)
  | effect_elapsed dt :
      (0 <= dt)%Q → Effect adsr s e (elapsed_state dt s)
  | effect_rendered i level :
      e = LevelRendered i level →
      Effect adsr s e
        (with_nodes (update_gain i (set_gain_param (report_level level))) s).

(** ** Example pages *)

(** Key 72 held on the fresh page; a second key, 76, held as well; key 72
    released again. *)
Definition one_key_held : Page :=
  dispatch ADSR (PointerDown (key 7 "72")) fresh_page.

Definition two_keys_held : Page :=
  dispatch ADSR (PointerDown (key 8 "76")) one_key_held.

Definition key_released : Page :=
  dispatch ADSR (PointerUp {| el_id := 7; dataset_midi := Some "72" |})
    one_key_held.

(** ** The navigation menu (main.js) *)

Record Nav : Type :=
  { aria_expanded : option string;   (* the toggle's attribute, [None] if absent *)
    menu_active : bool;              (* navMenu.classList has "active" *)
    toggle_open : bool;              (* navToggle.classList has "open" *)
    focus_calls : nat }.             (* calls of navToggle.focus() so far *)

(** A click bubbles: one inside the toggle runs the toggle's listener,
    which stops it there; one on a link of the menu runs the link's
    listener and then the document's; any other click runs the
    document's listener alone. *)
Inductive NavEvent :=
  | ClickToggle
  | ClickLink
  | ClickMenu                (* inside the menu, not on a link *)
  | ClickOutside             (* outside the toggle and the menu *)
  | KeyDown (key : string).

Definition toggle_click (n : Nav) : Nav :=
  let isExpanded := bool_decide (aria_expanded n = Some "true") in
  {| aria_expanded := Some (if negb isExpanded then "true" else "false");
     menu_active := negb (menu_active n);
     toggle_open := negb (toggle_open n);
     focus_calls := focus_calls n |}.

Definition nav_close (n : Nav) : Nav :=
  {| aria_expanded := Some "false"; menu_active := false;
     toggle_open := false; focus_calls := focus_calls n |}.

(** The document's click listener; [inside] says whether the toggle or
    the menu contains the target. *)
Definition document_click (inside : bool) (n : Nav) : Nav :=
  if negb inside then nav_close n else n.

Definition document_keydown (key : string) (n : Nav) : Nav :=
  if String.eqb key "Escape" && menu_active n
  then {| aria_expanded := Some "false"; menu_active := false;
          toggle_open := false; focus_calls := S (focus_calls n) |}
  else n.

Definition nav_handle (e : NavEvent) (n : Nav) : Nav :=
  match e with
  | ClickToggle => toggle_click n
  | ClickLink => document_click true (nav_close n)
  | ClickMenu => document_click true n
  | ClickOutside => document_click false n
  | KeyDown key => document_keydown key n
  end.

Definition nav_run (es : list NavEvent) (n : Nav) : Nav :=
  foldl (λ n e, nav_handle e n) n es.

(** The attribute, the menu's class and the toggle's class say the same. *)
Definition in_sync (n : Nav) : Prop :=
  (aria_expanded n = Some "true" ↔ menu_active n = true)
  ∧ toggle_open n = menu_active n.

(** The markup of the page: the menu closed. *)
Definition nav_closed : Nav :=
  {| aria_expanded := Some "false"; menu_active := false;
     toggle_open := false; focus_calls := 0 |}.

(** ** The current page's link ([updateActiveNavLink]) *)

(** [s.split("/")] *)
Fixpoint split_slash (s : string) : list string :=
  match s with
  | EmptyString => [EmptyString]
  | String c r =>
      if Ascii.eqb c "/" then EmptyString :: split_slash r
      else match split_slash r with
           | h :: t => String c h :: t
           | [] => [String c EmptyString]
           end
  end.

(** [window.location.pathname.split("/").pop() || "index.html"] *)
Definition currentPage (pathname : string) : string :=
  let seg := default "" (last (split_slash pathname)) in
  if truthy seg then seg else "index.html".

Record NavLink : Type :=
  { href : option string;            (* getAttribute("href") *)
    link_active : bool }.            (* classList has "active" *)

Definition updateActiveNavLink (pathname : string) (links : list NavLink)
  : list NavLink :=
  (λ link,
     {| href := href link;
        link_active := bool_decide (href link = Some (currentPage pathname)) |})
  <$> links.

(** The string holds no "/". *)
Fixpoint no_slash (s : string) : bool :=
  match s with
  | EmptyString => true
  | String c r => negb (Ascii.eqb c "/") && no_slash r
  end.

(** * Properties *)

(** ** Properties of the pitch resolver *)

Lemma midiToFreq_pos (m : R) : (0 < midiToFreq m)%R.
Proof.
  unfold midiToFreq, Rpower.
  apply Rmult_lt_0_compat; [lra | apply exp_pos].
Qed.

Lemma midiToFreq_octave (m : R) : (midiToFreq (m + 12) = 2 * midiToFreq m)%R.
Proof.
  unfold midiToFreq.
  replace ((m + 12 - 69) / 12)%R with ((m - 69) / 12 + 1)%R by lra.
  rewrite Rpower_plus, Rpower_1 by lra. lra.
Qed.

Lemma midiToFreq_69 : midiToFreq 69 = 440%R.
Proof.
  unfold midiToFreq.
  replace ((69 - 69) / 12)%R with 0%R by lra.
  rewrite Rpower_O by lra. lra.
Qed.

(** Three quarters of an octave below the reference: the fourth power of
    the ratio is one eighth. *)
Lemma three_quarters_down_pow4 : (Rpower 2 (- (3 / 4)) ^ 4 = / 8)%R.
Proof.
  rewrite <- Rpower_pow by apply exp_pos.
  rewrite Rpower_mult.
  replace (- (3 / 4) * INR 4)%R with (- INR 3)%R by (simpl; lra).
  rewrite Rpower_Ropp, Rpower_pow by lra.
  simpl. f_equal. lra.
Qed.

Lemma midiToFreq_60_bounds :
  (261.625 < midiToFreq 60 < 261.635)%R.
Proof.
  unfold midiToFreq.
  replace ((60 - 69) / 12)%R with (- (3 / 4))%R by lra.
  pose proof three_quarters_down_pow4 as H4.
  set (y := Rpower 2 (- (3 / 4))) in *.
  assert (Hy : (0 < y)%R) by (apply exp_pos).
  split.
  - apply Rnot_le_lt. intros Hle.
    assert (Hb : (y <= 261.625 / 440)%R) by lra.
    assert (Hp : (y ^ 4 <= (261.625 / 440) ^ 4)%R)
      by (apply pow_incr; lra).
    rewrite H4 in Hp. simpl in Hp. lra.
  - apply Rnot_le_lt. intros Hle.
    assert (Hb : (261.635 / 440 <= y)%R) by lra.
    assert (Hp : ((261.635 / 440) ^ 4 <= y ^ 4)%R)
      by (apply pow_incr; lra).
    rewrite H4 in Hp. simpl in Hp. lra.
Qed.

(** ** What the oscillator takes

    Key 1499 is the last whose frequency a single holds. *)

Lemma midiToFreq_incr (m m' : R) : (m <= m')%R → (midiToFreq m <= midiToFreq m')%R.
Proof.
  intros H. unfold midiToFreq. apply Rmult_le_compat_l; [lra|].
  apply Rle_Rpower; lra.
Qed.

Lemma float_limit_factor : float_limit = (2 ^ 103 * (2 ^ 25 - 1))%R.
Proof.
  unfold float_limit.
  replace (2 ^ 128)%R with (2 ^ 103 * 2 ^ 25)%R by (rewrite <- pow_add; reflexivity).
  ring.
Qed.

Lemma midiToFreq_above_119_octaves (x : R) :
  midiToFreq (1497 + x) = (2 ^ 103 * (440 * 2 ^ 16 * Rpower 2 (x / 12)))%R.
Proof.
  unfold midiToFreq.
  replace ((1497 + x - 69) / 12)%R with (INR 119 + x / 12)%R
    by (rewrite (INR_IZR_INZ 119); change (Z.of_nat 119) with 119%Z; lra).
  rewrite Rpower_plus, Rpower_pow by lra.
  replace (2 ^ 119)%R with (2 ^ 103 * 2 ^ 16)%R by (rewrite <- pow_add; reflexivity).
  ring.
Qed.

Lemma sixth_of_octave_pow6 : (Rpower 2 (2 / 12) ^ 6 = 2)%R.
Proof.
  rewrite <- Rpower_pow by apply exp_pos.
  rewrite Rpower_mult.
  replace (2 / 12 * INR 6)%R with 1%R
    by (rewrite (INR_IZR_INZ 6); change (Z.of_nat 6) with 6%Z; lra).
  apply Rpower_1. lra.
Qed.

Lemma quarter_of_octave_pow4 : (Rpower 2 (3 / 12) ^ 4 = 2)%R.
Proof.
  rewrite <- Rpower_pow by apply exp_pos.
  rewrite Rpower_mult.
  replace (3 / 12 * INR 4)%R with 1%R
    by (rewrite (INR_IZR_INZ 4); change (Z.of_nat 4) with 4%Z; lra).
  apply Rpower_1. lra.
Qed.

Lemma midiToFreq_1499 : (midiToFreq 1499 < float_limit)%R.
Proof.
  replace 1499%R with (1497 + 2)%R by lra.
  rewrite midiToFreq_above_119_octaves, float_limit_factor.
  apply Rmult_lt_compat_l; [apply pow_lt; lra|].
  pose proof sixth_of_octave_pow6 as H6.
  set (y := Rpower 2 (2 / 12)) in *.
  assert (Hy : (0 < y)%R) by apply exp_pos.
  assert (Hlt : (y < 1.13)%R).
  { apply Rnot_le_lt. intros Hle.
    assert (Hp : (1.13 ^ 6 <= y ^ 6)%R) by (apply pow_incr; lra).
    rewrite H6 in Hp. simpl in Hp. lra. }
  simpl. lra.
Qed.

Lemma midiToFreq_1500 : (float_limit <= midiToFreq 1500)%R.
Proof.
  replace 1500%R with (1497 + 3)%R by lra.
  rewrite midiToFreq_above_119_octaves, float_limit_factor.
  apply Rmult_le_compat_l; [apply pow_le; lra|].
  pose proof quarter_of_octave_pow4 as H4.
  set (z := Rpower 2 (3 / 12)) in *.
  assert (Hz : (0 < z)%R) by apply exp_pos.
  assert (Hlt : (1.18 < z)%R).
  { apply Rnot_le_lt. intros Hle.
    assert (Hp : (z ^ 4 <= 1.18 ^ 4)%R) by (apply pow_incr; lra).
    rewrite H4 in Hp. simpl in Hp. lra. }
  simpl. lra.
Qed.

Lemma float_accepts_midiToFreq (n : Z) :
  float_accepts (midiToFreq (IZR n)) ↔ (n < 1500)%Z.
Proof.
  unfold float_accepts.
  rewrite Rabs_pos_eq by (left; apply midiToFreq_pos). split.
  - intros H. apply Z.lt_nge. intros Hn. apply IZR_le in Hn.
    pose proof (midiToFreq_incr _ _ Hn). pose proof midiToFreq_1500. lra.
  - intros Hn. assert (Hle : (n <= 1499)%Z) by lia. apply IZR_le in Hle.
    pose proof (midiToFreq_incr _ _ Hle). pose proof midiToFreq_1499. lra.
Qed.

Lemma accepted_below_1500 data (n : Z) :
  parseInt data = Some n → (n < 1500)%Z → frequency_accepted data.
Proof.
  intros Hp Hn. exists n. split; [done|]. by apply float_accepts_midiToFreq.
Qed.

(** ** Arithmetic and list helpers *)

Lemma Math_max_floor_pos (b : Q) : (0 < Math_max (1 # 10000) b)%Q.
Proof.
  unfold Math_max. destruct (Qle_bool (1 # 10000) b) eqn:E.
  - apply Qle_bool_iff in E. eapply Qlt_le_trans; [|exact E]. reflexivity.
  - reflexivity.
Qed.

Lemma nonzero_of_pos (q : Q) : (0 < q)%Q → Qeq_bool q 0 = false.
Proof.
  intros H. destruct (Qeq_bool q 0) eqn:E; [|done].
  apply Qeq_bool_iff in E. lra.
Qed.

Section Snoc.
Context {A : Type}.
Implicit Types (l : list A) (a b x : A).

Lemma length_snoc l a : length (l ++ [a]) = S (length l).
Proof. rewrite length_app. simpl. lia. Qed.

Lemma snoc_snoc l a b : (l ++ [a]) ++ [b] = l ++ [a; b].
Proof. by rewrite <- app_assoc. Qed.

Lemma lookup_pair_fst l a b : (l ++ [a; b]) !! length l = Some a.
Proof. by apply list_lookup_middle. Qed.

Lemma lookup_pair_snd l a b : (l ++ [a; b]) !! S (length l) = Some b.
Proof.
  change (l ++ [a; b]) with (l ++ [a] ++ [b]). rewrite app_assoc.
  apply list_lookup_middle. by rewrite length_snoc.
Qed.

Lemma alter_pair_fst f l a b : alter f (length l) (l ++ [a; b]) = l ++ [f a; b].
Proof. rewrite alter_app_r_alt by lia. by rewrite Nat.sub_diag. Qed.

Lemma alter_pair_snd f l a b :
  alter f (S (length l)) (l ++ [a; b]) = l ++ [a; f b].
Proof.
  rewrite alter_app_r_alt by lia.
  by replace (S (length l) - length l) with 1 by lia.
Qed.
End Snoc.

Ltac simp_state :=
  cbv beta iota delta
    [with_nodes with_activeVoices with_active_class with_timers
     with_resume_requested modify gets mret M_ret mbind M_bind throw
     on_gain_param gain_setValueAtTime oscillatorsAttach];
  cbn [nodes ctx_state resume_requested currentTime clock activeVoices
       active_class waveSelect timers].

Lemma set_type_returns i v st :
  OscillatorType_of_string v ≠ Some custom →
  set_type i v st
  = Ret () (with_nodes
      (update_osc i (λ o, set_osc_type
         (default (osc_type o) (OscillatorType_of_string v)) o)) st).
Proof.
  intros Hw. unfold set_type.
  destruct (OscillatorType_of_string v) as [ty|].
  - destruct (decide (ty = custom)) as [->|_]; [done|reflexivity].
  - simp_state. destruct st as [? ? ? ? l ? ? ? ?]. cbn. do 2 f_equal.
    unfold update_osc. symmetry. apply list_alter_id.
    by intros [[]|].
Qed.

Lemma add_output_first t n : outputs n = [] → add_output t n = set_outputs [t] n.
Proof.
  intros H. unfold add_output. rewrite H.
  by rewrite bool_decide_eq_false_2 by apply not_elem_of_nil.
Qed.

Ltac on_pair :=
  repeat (rewrite alter_pair_fst || rewrite alter_pair_snd
          || rewrite lookup_pair_fst || rewrite lookup_pair_snd).

Lemma startNote_fresh adsr s id data n :
  truthy data = true → parseInt data = Some n →
  float_accepts (midiToFreq (IZR n)) → activeVoices s !! id = None →
  OscillatorType_of_string (selected_wave (waveSelect s)) ≠ Some custom →
  startNoteForElement adsr (Some {| el_id := id; dataset_midi := Some data |}) s
  = Ret () (note_on_state adsr id n s).
Proof.
  intros Ht Hp Hfl Hf Hw.
  unfold startNoteForElement. cbn [dataset_midi el_id]. rewrite Ht, Hp. cbn [negb].
  destruct s as [cs rr ct ck ns av ac ws ts]. cbn in Hf, Hw.
  unfold note_on_state, assigned_type, createOscillator, createGain,
    frequency_setValueAtTime, resume.
  cbn [fmap option_fmap option_map].
  destruct (Rlt_dec (Rabs (midiToFreq (IZR n))) float_limit) as [_|Hno];
    [|by destruct Hno].
  simp_state.
  destruct (decide (cs = suspended)) as [Hs|Hs]; simp_state; rewrite Hf;
    cbn [bool_decide decide_rel is_Some_dec]; simp_state;
    rewrite !length_snoc, !snoc_snoc;
    rewrite set_type_returns by done; simp_state;
    unfold gain_exponentialRampToValueAtTime;
    rewrite (nonzero_of_pos 1) by reflexivity;
    rewrite (nonzero_of_pos _ (Math_max_floor_pos (sustain adsr)));
    simp_state;
    unfold connect, start; simp_state;
    unfold update_osc, update_gain; on_pair;
    rewrite !add_output_first by reflexivity;
    cbn [on_osc on_gain set_frequency set_osc_type set_outputs started
         new_oscillator];
    simp_state; unfold update_osc; on_pair;
    reflexivity.
Qed.

(** ** Effect of [stopNoteForElement] *)

Section Alter.
Context {A : Type}.
Implicit Types (l : list A) (f g : A → A).

Lemma alter_agree f g l i x :
  l !! i = Some x → f x = g x → alter f i l = alter g i l.
Proof.
  intros Hx Hfg. apply list_alter_ext; [|done].
  intros y Hy. rewrite Hx in Hy. by injection Hy as <-.
Qed.

Lemma alter_fixed f l i x : l !! i = Some x → f x = x → alter f i l = l.
Proof.
  intros Hx Hf. rewrite (alter_agree f (λ y, y) l i x Hx Hf).
  by apply list_alter_id.
Qed.

Lemma alter_absent f l i : l !! i = None → alter f i l = l.
Proof.
  intros Hx. apply list_eq. intros j.
  destruct (decide (i = j)) as [<-|Hne].
  - by rewrite list_lookup_alter_eq, Hx.
  - by rewrite list_lookup_alter_ne.
Qed.
End Alter.

Lemma try_catch_stop i t s :
  try_catch (stop i t) s
  = Ret () (with_nodes (update_osc i (stop_if_sounding (currentTime s) t)) s).
Proof.
  unfold try_catch, stop, update_osc.
  destruct s as [cs rr ct ck l av ac ws ts]. simp_state.
  destruct (l !! i) as [[o|g]|] eqn:E.
  - destruct (started o) eqn:E1; simp_state;
      do 2 f_equal;
      first [ apply (alter_agree _ _ _ _ _ E)
            | symmetry; apply (alter_fixed _ _ _ _ E) ];
      cbn; unfold stop_if_sounding; by rewrite E1.
  - do 2 f_equal. symmetry. by apply (alter_fixed _ _ _ _ E).
  - do 2 f_equal. symmetry. by apply alter_absent.
Qed.

Lemma stopNote_unregistered adsr s el :
  activeVoices s !! el_id el = None →
  stopNoteForElement adsr (Some el) s
  = Ret () (with_active_class (λ c, c ∖ {[el_id el]}) s).
Proof.
  intros Hf. unfold stopNoteForElement. simp_state. by rewrite Hf.
Qed.

Lemma stopNote_registered adsr s el v :
  activeVoices s !! el_id el = Some v →
  stopNoteForElement adsr (Some el) s
  = Ret () (note_off_state adsr (el_id el) v s).
Proof.
  intros Hv. unfold stopNoteForElement. simp_state. rewrite Hv.
  destruct s as [cs rr ct ck ns av ac ws ts].
  unfold gain_cancelScheduledValues, gain_value, gain_exponentialRampToValueAtTime,
    setTimeout, note_off_state, release_delay.
  change (Qeq_bool (1 # 10000) 0) with false.
  simp_state. rewrite try_catch_stop. simp_state.
  do 3 f_equal. unfold update_gain.
  rewrite !list_alter_alter_eq, list_lookup_alter_eq.
  apply list_alter_ext; [|done].
  intros x Hx. rewrite Hx. destruct x as [o|g]; reflexivity.
Qed.

(** ** Effect of the event loop *)

Lemma run_callbacks_effect ts s :
  run_callbacks ts s = Ret () (with_nodes (callbacks_effect ts) s).
Proof.
  revert s. induction ts as [|t r IH]; intros s.
  - by destruct s.
  - cbn [run_callbacks]. unfold run_callback. destruct (callback t) as [o g] eqn:E.
    unfold try_catch, disconnect. simp_state. rewrite IH.
    unfold callbacks_effect. cbn [foldl]. rewrite E. by destruct s.
Qed.

Lemma elapse_effect dt s : elapse dt s = Ret () (elapsed_state dt s).
Proof.
  unfold elapse, fire_timers. simp_state. rewrite run_callbacks_effect.
  by destruct s.
Qed.

Lemma run_callback_returns cb s : returns (run_callback cb s) = true.
Proof. by destruct cb. Qed.

Lemma set_outputs_twice out out' n :
  set_outputs out (set_outputs out' n) = set_outputs out n.
Proof. by destruct n. Qed.

Lemma lookup_callback_effect cb l i :
  callback_effect cb l !! i
  = silence_if (mentions i {| fire_at := 0; callback := cb |}) <$> l !! i.
Proof.
  destruct cb as [o g]. unfold callback_effect, drop_outputs, mentions.
  cbn [callback]. rewrite !list_lookup_alter.
  destruct (decide (g = i)) as [->|Hg], (decide (o = i)) as [->|Ho];
    rewrite ?Nat.eqb_refl; cbn [orb];
    rewrite ?(proj2 (Nat.eqb_neq i o)), ?(proj2 (Nat.eqb_neq i g)) by done;
    cbn [orb silence_if];
    destruct (l !! i) as [n|]; cbn; try done.
  by rewrite set_outputs_twice.
Qed.

Lemma lookup_callbacks_effect ts l i :
  callbacks_effect ts l !! i = silence_if (existsb (mentions i) ts) <$> l !! i.
Proof.
  revert l. induction ts as [|t r IH]; intros l.
  - cbn. by destruct (l !! i).
  - unfold callbacks_effect in *. cbn [foldl existsb]. rewrite IH.
    rewrite lookup_callback_effect.
    change (mentions i {| fire_at := 0; callback := callback t |})
      with (mentions i t).
    destruct (l !! i) as [n|]; [|done]. cbn [fmap option_fmap option_map].
    f_equal. destruct (mentions i t), (existsb (mentions i) r); cbn; try done.
    by rewrite set_outputs_twice.
Qed.

Lemma length_callbacks_effect ts l : length (callbacks_effect ts l) = length l.
Proof.
  revert l. induction ts as [|t r IH]; intros l; [done|].
  unfold callbacks_effect in *. cbn [foldl]. rewrite IH.
  destruct (callback t). unfold callback_effect, drop_outputs.
  by rewrite !length_alter.
Qed.

Lemma bounded_unmentioned (n i : nat) p ts :
  Forall (timer_bounded n) ts → (n ≤ i)%nat →
  existsb (mentions i) (List.filter p ts) = false.
Proof.
  intros Hb Hi. induction Hb as [|t r Ht _ IH]; [done|].
  cbn [List.filter]. destruct (p t); [|done].
  cbn [existsb]. rewrite IH, orb_false_r.
  unfold timer_bounded in Ht. unfold mentions.
  destruct (callback t) as [o g]. destruct Ht as [Ho Hg].
  apply orb_false_intro; apply Nat.eqb_neq; lia.
Qed.

(** ** Runs *)

Lemma parseInt_truthy data n : parseInt data = Some n → truthy data = true.
Proof. by destruct data. Qed.

Lemma run_app adsr l1 l2 s :
  run adsr (l1 ++ l2) s
  = match run adsr l1 s with
    | Ret _ s' => run adsr l2 s'
    | Throw e s' => Throw e s'
    end.
Proof.
  revert s. induction l1 as [|t r IH]; intros s; [done|].
  cbn [app run]. simp_state. destruct (turn adsr t s); [apply IH|done].
Qed.

Lemma run_single adsr t s : run adsr [t] s = turn adsr t s.
Proof. cbn [run]. simp_state. by destruct (turn adsr t s) as [[] ?|]. Qed.

Section OnOff.
Variables (adsr : Envelope) (s : State) (id : nat) (data : string).
Hypothesis Hnum : frequency_accepted data.
Hypothesis Hfree : activeVoices s !! id = None.
Hypothesis Hwave : wave_assignable s.

Lemma run_on :
  run adsr [NoteOn (key id data)] s = Ret () (on_state adsr id data s).
Proof.
  rewrite run_single. destruct Hnum as (n & Hn & Hfl). unfold on_state.
  rewrite Hn. apply startNote_fresh; eauto using parseInt_truthy.
Qed.

Lemma run_on_off :
  run adsr [NoteOn (key id data); NoteOff (key id data)] s
  = Ret () (on_off_state adsr id data s).
Proof.
  change [NoteOn (key id data); NoteOff (key id data)]
    with ([NoteOn (key id data)] ++ [NoteOff (key id data)]).
  rewrite run_app, run_on, run_single. cbn [turn].
  apply (stopNote_registered adsr (on_state adsr id data s)
           {| el_id := id; dataset_midi := Some data |}).
  cbn. apply lookup_insert_eq.
Qed.
End OnOff.

Lemma nodes_on_off adsr id data s :
  nodes (on_off_state adsr id data s)
  = nodes s ++
    [Osc (set_stopped (currentTime s + release adsr + (2 # 100))
            (voice_oscillator (assigned_type (selected_wave (waveSelect s)))
               (midiToFreq (IZR (default 0%Z (parseInt data))))
               (currentTime s) (S (length (nodes s)))));
     Gain (set_gain_param (release_param adsr (currentTime s))
             (voice_gain adsr (currentTime s)))].
Proof.
  unfold on_off_state, on_state, note_off_state, note_on_state.
  cbn [nodes osc gain currentTime]. unfold update_osc, update_gain.
  by on_pair.
Qed.

Lemma timers_on_off adsr id data s :
  timers (on_off_state adsr id data s)
  = timers s ++
    [{| fire_at := clock s + release_delay adsr;
        callback := DisconnectVoice (length (nodes s)) (S (length (nodes s))) |}].
Proof. reflexivity. Qed.

(** ** Time passing after a note-off *)

Lemma lookup_nodes_elapsed dt s i :
  nodes (elapsed_state dt s) !! i
  = silence_if
      (existsb (mentions i) (List.filter (due (clock s + dt)) (timers s)))
    <$> nodes s !! i.
Proof. unfold elapsed_state. cbn. apply lookup_callbacks_effect. Qed.

Lemma length_nodes_elapsed dt s :
  length (nodes (elapsed_state dt s)) = length (nodes s).
Proof. unfold elapsed_state. cbn. apply length_callbacks_effect. Qed.

Lemma Qle_bool_shift (c a b : Q) : Qle_bool (c + a) (c + b) = Qle_bool a b.
Proof.
  destruct (Qle_bool a b) eqn:E.
  - apply Qle_bool_iff in E. apply Qle_bool_iff. lra.
  - destruct (Qle_bool (c + a) (c + b)) eqn:E'; [|done].
    apply Qle_bool_iff in E'. rewrite <- E. symmetry. apply Qle_bool_iff. lra.
Qed.

Lemma cleanup_due adsr id data s dt (i : nat) :
  Forall (timer_bounded (length (nodes s))) (timers s) →
  i = length (nodes s) ∨ i = S (length (nodes s)) →
  existsb (mentions i)
    (List.filter (due (clock s + dt)) (timers (on_off_state adsr id data s)))
  = Qle_bool (release_delay adsr) dt.
Proof.
  intros Hb Hi. rewrite timers_on_off, List.filter_app, existsb_app.
  rewrite (bounded_unmentioned (length (nodes s))) by (done || lia).
  cbn [orb List.filter]. unfold due at 1. cbn [fire_at].
  rewrite Qle_bool_shift. destruct (Qle_bool (release_delay adsr) dt); [|done].
  cbn [existsb]. unfold mentions. cbn [callback].
  destruct Hi as [-> | ->]; rewrite Nat.eqb_refl; by rewrite ?orb_true_r.
Qed.

Lemma Qle_bool_false (a b : Q) : (b < a)%Q → Qle_bool a b = false.
Proof.
  intros H. destruct (Qle_bool a b) eqn:E; [|done].
  apply Qle_bool_iff in E. lra.
Qed.

Lemma Qle_bool_true (a b : Q) : (a <= b)%Q → Qle_bool a b = true.
Proof. apply Qle_bool_iff. Qed.

Lemma run_on_off_elapse adsr s id data dt :
  frequency_accepted data → activeVoices s !! id = None → wave_assignable s →
  run adsr [NoteOn (key id data); NoteOff (key id data); Elapse dt] s
  = Ret () (elapsed_state dt (on_off_state adsr id data s)).
Proof.
  intros Hn Hf Hw.
  change [NoteOn (key id data); NoteOff (key id data); Elapse dt]
    with ([NoteOn (key id data); NoteOff (key id data)] ++ [Elapse dt]).
  rewrite run_app, run_on_off, run_single by done. apply elapse_effect.
Qed.

(** C1 (as amended).  After note-on then note-off of a key whose number
    the oscillator takes (a number below 1500), the registry entry is
    gone at once; the oscillator and gain of the voice stay
    connected, with the oscillator's stop scheduled 0.02 s after the end
    of the release, for as long as less than release + 0.1 s has passed,
    which is longer than the release; once that delay has passed the
    clean-up has run and both nodes are disconnected. *)
Theorem note_off_unregisters_then_cleans_up adsr s id data :
  well_formed s → frequency_accepted data →
  activeVoices s !! id = None → wave_assignable s →
  let k := key id data in
  let o := length (nodes s) in
  let s2 := after adsr [NoteOn k; NoteOff k] s in
  returns (run adsr [NoteOn k; NoteOff k] s) = true
  ∧ activeVoices s2 !! id = None
  ∧ connected_to s2 o (ToNode (S o)) ∧ connected_to s2 (S o) masterGain
  ∧ (∃ n, nodes s2 !! o = Some (Osc n)
          ∧ stopped n = Some (currentTime s + release adsr + (2 # 100))%Q)
  ∧ pending s2 o (S o)
  ∧ (release adsr * 1000 < release_delay adsr)%Q
  ∧ (∀ dt, (dt < release_delay adsr)%Q →
       let s3 := after adsr [NoteOn k; NoteOff k; Elapse dt] s in
       activeVoices s3 !! id = None
       ∧ connected_to s3 o (ToNode (S o)) ∧ connected_to s3 (S o) masterGain)
  ∧ (∀ dt, (release_delay adsr <= dt)%Q →
       let s3 := after adsr [NoteOn k; NoteOff k; Elapse dt] s in
       activeVoices s3 !! id = None
       ∧ disconnected s3 o ∧ disconnected s3 (S o)).
Proof.
  intros [_ Hb] Hn Hf Hw k o s2. subst k o s2. unfold after.
  rewrite run_on_off by done. cbn [returns final].
  split; [done|]. split; [apply lookup_delete_eq|].
  unfold connected_to, disconnected, pending.
  rewrite nodes_on_off, lookup_pair_fst, lookup_pair_snd, timers_on_off.
  repeat split.
  - eexists. split; [done|reflexivity].
  - eexists. split; [done|reflexivity].
  - eexists. split; [done|reflexivity].
  - eexists. split; [apply elem_of_app; right; apply list_elem_of_singleton; done|done].
  - unfold release_delay. lra.
  - rewrite run_on_off_elapse by done. apply lookup_delete_eq.
  - rewrite run_on_off_elapse by done. cbn [final].
    rewrite lookup_nodes_elapsed, (cleanup_due _ _ _ _ _ _ Hb) by auto.
    rewrite Qle_bool_false, nodes_on_off, lookup_pair_fst by done.
    eexists. split; [done|reflexivity].
  - rewrite run_on_off_elapse by done. cbn [final].
    rewrite lookup_nodes_elapsed, (cleanup_due _ _ _ _ _ _ Hb) by auto.
    rewrite Qle_bool_false, nodes_on_off, lookup_pair_snd by done.
    eexists. split; [done|reflexivity].
  - rewrite run_on_off_elapse by done. apply lookup_delete_eq.
  - rewrite run_on_off_elapse by done. cbn [final].
    rewrite lookup_nodes_elapsed, (cleanup_due _ _ _ _ _ _ Hb) by auto.
    rewrite Qle_bool_true, nodes_on_off, lookup_pair_fst by done.
    eexists. split; [done|reflexivity].
  - rewrite run_on_off_elapse by done. cbn [final].
    rewrite lookup_nodes_elapsed, (cleanup_due _ _ _ _ _ _ Hb) by auto.
    rewrite Qle_bool_true, nodes_on_off, lookup_pair_snd by done.
    eexists. split; [done|reflexivity].
Qed.

(** ** Pressing the key again during the release *)

Lemma Forall_filter_bool {A} (P : A → Prop) (p : A → bool) (l : list A) :
  Forall P l → Forall P (List.filter p l).
Proof.
  induction 1 as [|x l Hx _ IH]; [constructor|].
  cbn [List.filter]. destruct (p x); [by constructor|done].
Qed.

Lemma timer_bounded_mono (n m : nat) t :
  (n ≤ m)%nat → timer_bounded n t → timer_bounded m t.
Proof.
  unfold timer_bounded. destruct (callback t). intros ? [? ?]. lia.
Qed.

Lemma timers_on_off_bounded adsr id data s :
  Forall (timer_bounded (length (nodes s))) (timers s) →
  Forall (timer_bounded (S (S (length (nodes s)))))
    (timers (on_off_state adsr id data s)).
Proof.
  intros Hb. rewrite timers_on_off. apply Forall_app. split.
  - eapply Forall_impl; [exact Hb|]. intros t. apply timer_bounded_mono. lia.
  - constructor; [|constructor]. unfold timer_bounded. cbn. lia.
Qed.

Lemma length_nodes_on_off adsr id data s :
  length (nodes (on_off_state adsr id data s)) = S (S (length (nodes s))).
Proof. rewrite nodes_on_off, length_app. cbn. lia. Qed.

Section Retrigger.
Variables (adsr : Envelope) (s : State) (id : nat) (data : string) (d : Q).
Hypothesis Hwf : well_formed s.
Hypothesis Hnum : frequency_accepted data.
Hypothesis Hfree : activeVoices s !! id = None.
Hypothesis Hwave : wave_assignable s.
Hypothesis Hd : (d < release_delay adsr)%Q.

Local Abbreviation k := (key id data).
Local Abbreviation o := (length (nodes s)).
Local Abbreviation released := (elapsed_state d (on_off_state adsr id data s)).

Lemma length_nodes_released : length (nodes released) = S (S o).
Proof. by rewrite length_nodes_elapsed, length_nodes_on_off. Qed.

Lemma run_retrigger :
  run adsr [NoteOn k; NoteOff k; Elapse d; NoteOn k] s
  = Ret () (retrigger_state adsr id data d s).
Proof.
  change [NoteOn k; NoteOff k; Elapse d; NoteOn k]
    with ([NoteOn k; NoteOff k; Elapse d] ++ [NoteOn k]).
  rewrite run_app, run_on_off_elapse by done.
  apply run_on; [done| |done].
  apply lookup_delete_eq.
Qed.

Lemma nodes_retrigger :
  nodes (retrigger_state adsr id data d s)
  = nodes released ++
    [Osc (voice_oscillator (assigned_type (selected_wave (waveSelect s)))
            (midiToFreq (IZR (default 0%Z (parseInt data))))
            (currentTime released) (S (S (S o))));
     Gain (voice_gain adsr (currentTime released))].
Proof.
  unfold retrigger_state, on_state, note_on_state. cbn [nodes].
  by rewrite length_nodes_released.
Qed.

Lemma lookup_released_old (i : nat) :
  i = o ∨ i = S o →
  nodes released !! i = nodes (on_off_state adsr id data s) !! i.
Proof.
  intros Hi. destruct Hwf as [_ Hb].
  rewrite lookup_nodes_elapsed, (cleanup_due _ _ _ _ _ _ Hb Hi).
  rewrite Qle_bool_false by done.
  by destruct (nodes (on_off_state adsr id data s) !! i).
Qed.

Lemma lookup_retrigger_old (i : nat) :
  i = o ∨ i = S o →
  nodes (retrigger_state adsr id data d s) !! i
  = nodes (on_off_state adsr id data s) !! i.
Proof.
  intros Hi. rewrite nodes_retrigger, lookup_app_l.
  - by apply lookup_released_old.
  - rewrite length_nodes_released. lia.
Qed.

Lemma lookup_retrigger_osc :
  nodes (retrigger_state adsr id data d s) !! S (S o)
  = Some (Osc (voice_oscillator
                 (assigned_type (selected_wave (waveSelect s)))
                 (midiToFreq (IZR (default 0%Z (parseInt data))))
                 (currentTime released) (S (S (S o))))).
Proof.
  rewrite nodes_retrigger, <- length_nodes_released. apply lookup_pair_fst.
Qed.

Lemma lookup_retrigger_gain :
  nodes (retrigger_state adsr id data d s) !! S (S (S o))
  = Some (Gain (voice_gain adsr (currentTime released))).
Proof.
  rewrite nodes_retrigger, <- length_nodes_released. apply lookup_pair_snd.
Qed.

Lemma registry_retrigger :
  activeVoices (retrigger_state adsr id data d s) !! id
  = Some {| osc := S (S o); gain := S (S (S o)) |}.
Proof.
  unfold retrigger_state, on_state, note_on_state. cbn [activeVoices].
  rewrite length_nodes_released. apply lookup_insert_eq.
Qed.

Lemma timers_retrigger :
  timers (retrigger_state adsr id data d s)
  = List.filter (λ t, negb (due (clock s + d) t))
      (timers (on_off_state adsr id data s)).
Proof. reflexivity. Qed.

Lemma pending_retrigger : pending (retrigger_state adsr id data d s) o (S o).
Proof.
  unfold pending. rewrite timers_retrigger, timers_on_off.
  exists {| fire_at := clock s + release_delay adsr;
            callback := DisconnectVoice o (S o) |}.
  split; [|reflexivity].
  apply list_elem_of_In, filter_In. split.
  - apply in_or_app. right. by left.
  - unfold due. cbn [fire_at]. by rewrite Qle_bool_shift, Qle_bool_false.
Qed.
End Retrigger.

Section Cleanup.
Variables (adsr : Envelope) (s : State) (id : nat) (data : string) (d d' : Q).
Hypothesis Hwf : well_formed s.
Hypothesis Hnum : frequency_accepted data.
Hypothesis Hfree : activeVoices s !! id = None.
Hypothesis Hwave : wave_assignable s.
Hypothesis Hd : (d < release_delay adsr)%Q.
Hypothesis Hd' : (release_delay adsr <= d + d')%Q.

Local Abbreviation k := (key id data).
Local Abbreviation o := (length (nodes s)).
Local Abbreviation again := (retrigger_state adsr id data d s).

Lemma run_retrigger_cleanup :
  run adsr [NoteOn k; NoteOff k; Elapse d; NoteOn k; Elapse d'] s
  = Ret () (elapsed_state d' again).
Proof.
  change [NoteOn k; NoteOff k; Elapse d; NoteOn k; Elapse d']
    with ([NoteOn k; NoteOff k; Elapse d; NoteOn k] ++ [Elapse d']).
  rewrite run_app, run_retrigger, run_single by done. apply elapse_effect.
Qed.

Lemma old_cleanup_fires (i : nat) :
  i = o ∨ i = S o →
  existsb (mentions i) (List.filter (due (clock again + d')) (timers again))
  = true.
Proof.
  intros Hi. apply existsb_exists.
  exists {| fire_at := clock s + release_delay adsr;
            callback := DisconnectVoice o (S o) |}.
  split.
  - apply filter_In. split.
    + rewrite timers_retrigger, timers_on_off.
      apply filter_In. split; [apply in_or_app; right; by left|].
      unfold due. cbn [fire_at]. by rewrite Qle_bool_shift, Qle_bool_false.
    + unfold due. cbn [fire_at clock retrigger_state on_state note_on_state
        elapsed_state with_nodes with_timers with_time on_off_state
        note_off_state].
      apply Qle_bool_true. lra.
  - unfold mentions. cbn [callback].
    destruct Hi as [-> | ->]; rewrite Nat.eqb_refl; by rewrite ?orb_true_r.
Qed.

Lemma new_voice_unmentioned (i : nat) :
  (S (S o) ≤ i)%nat →
  existsb (mentions i) (List.filter (due (clock again + d')) (timers again))
  = false.
Proof.
  intros Hi. apply (bounded_unmentioned (S (S o))); [|done].
  rewrite timers_retrigger. apply Forall_filter_bool.
  apply timers_on_off_bounded. by destruct Hwf.
Qed.

Lemma lookup_cleanup_old (i : nat) :
  i = o ∨ i = S o →
  nodes (elapsed_state d' again) !! i
  = set_outputs [] <$> nodes (on_off_state adsr id data s) !! i.
Proof.
  intros Hi. rewrite lookup_nodes_elapsed, old_cleanup_fires by done.
  by rewrite lookup_retrigger_old.
Qed.

Lemma lookup_cleanup_new (i : nat) :
  (S (S o) ≤ i)%nat →
  nodes (elapsed_state d' again) !! i = nodes again !! i.
Proof.
  intros Hi. rewrite lookup_nodes_elapsed, new_voice_unmentioned by done.
  by destruct (nodes again !! i).
Qed.
End Cleanup.

(** C2 (as amended).  While the old voice of a key is still releasing
    (its clean-up timer is pending), the registry holds no entry for the
    key, so a new note-on is not ignored, for a key whose number the
    oscillator takes (a number below 1500): it creates a second
    oscillator/gain pair, starts a fresh attack on it and registers it. *)
Theorem note_on_during_release_retriggers adsr s id data d :
  well_formed s → frequency_accepted data →
  activeVoices s !! id = None → wave_assignable s →
  (d < release_delay adsr)%Q →
  let k := key id data in
  let o := length (nodes s) in
  let s3 := after adsr [NoteOn k; NoteOff k; Elapse d] s in
  let s4 := after adsr [NoteOn k; NoteOff k; Elapse d; NoteOn k] s in
  returns (run adsr [NoteOn k; NoteOff k; Elapse d; NoteOn k] s) = true
  ∧ activeVoices s3 !! id = None
  ∧ pending s4 o (S o) ∧ releasing s4 o
  ∧ length (nodes s4) = length (nodes s3) + 2
  ∧ activeVoices s4 !! id = Some {| osc := S (S o); gain := S (S (S o)) |}
  ∧ live s4 (S (S o)) (S (S (S o)))
  ∧ nodes s4 !! S (S (S o)) = Some (Gain (voice_gain adsr (currentTime s3))).
Proof.
  intros Hwf Hn Hf Hw Hd k o s3 s4. subst k o s3 s4. unfold after.
  rewrite run_retrigger, run_on_off_elapse by done. cbn [returns final].
  split; [done|]. split; [apply lookup_delete_eq|].
  split; [by apply pending_retrigger|].
  split.
  { unfold releasing. rewrite lookup_retrigger_old, nodes_on_off by auto.
    rewrite lookup_pair_fst. eexists. split; [done|]. by eexists. }
  split.
  { rewrite nodes_retrigger, length_app. cbn. lia. }
  split; [by apply registry_retrigger|].
  split.
  { unfold live. rewrite lookup_retrigger_osc by done.
    eexists. split; [done|]. split; [by eexists|done]. }
  by apply lookup_retrigger_gain.
Qed.

(** C3.  Note-on, note-off and note-on again before the old clean-up
    fires, for a key whose number the oscillator takes (a number below
    1500): the registry holds one entry for the key, the new voice, which
    is the only live one (the old oscillator has its stop scheduled).
    When the old clean-up fires it disconnects the old oscillator and
    gain and leaves the new voice's nodes and registry entry as they were. *)
Theorem old_cleanup_spares_new_voice adsr s id data d d' :
  well_formed s → frequency_accepted data →
  activeVoices s !! id = None → wave_assignable s →
  (d < release_delay adsr)%Q → (release_delay adsr <= d + d')%Q →
  let k := key id data in
  let o := length (nodes s) in
  let o' := S (S o) in
  let s4 := after adsr [NoteOn k; NoteOff k; Elapse d; NoteOn k] s in
  let s5 := after adsr [NoteOn k; NoteOff k; Elapse d; NoteOn k; Elapse d'] s in
  returns (run adsr [NoteOn k; NoteOff k; Elapse d; NoteOn k; Elapse d'] s) = true
  ∧ activeVoices s4 !! id = Some {| osc := o'; gain := S o' |}
  ∧ live s4 o' (S o') ∧ ¬ live s4 o (S o) ∧ releasing s4 o
  ∧ pending s4 o (S o)
  ∧ disconnected s5 o ∧ disconnected s5 (S o)
  ∧ nodes s5 !! o' = nodes s4 !! o' ∧ nodes s5 !! S o' = nodes s4 !! S o'
  ∧ live s5 o' (S o') ∧ connected_to s5 (S o') masterGain
  ∧ activeVoices s5 !! id = Some {| osc := o'; gain := S o' |}.
Proof.
  intros Hwf Hn Hf Hw Hd Hd' k o o' s4 s5. subst k o o' s4 s5. unfold after.
  rewrite run_retrigger, run_retrigger_cleanup by done. cbn [returns final].
  split; [done|]. split; [by apply registry_retrigger|].
  assert (Hlive : ∀ st,
    nodes st !! S (S (length (nodes s)))
    = nodes (retrigger_state adsr id data d s) !! S (S (length (nodes s))) →
    live st (S (S (length (nodes s)))) (S (S (S (length (nodes s)))))).
  { intros st Hst. unfold live. rewrite Hst, lookup_retrigger_osc by done.
    eexists. split; [done|]. split; [by eexists|done]. }
  split; [by apply Hlive|].
  split.
  { unfold live. rewrite lookup_retrigger_old, nodes_on_off by auto.
    rewrite lookup_pair_fst. intros (n & Hn' & _ & Hs & _).
    injection Hn' as <-. discriminate Hs. }
  split.
  { unfold releasing. rewrite lookup_retrigger_old, nodes_on_off by auto.
    rewrite lookup_pair_fst. eexists. split; [done|]. by eexists. }
  split; [by apply pending_retrigger|].
  unfold disconnected, connected_to.
  rewrite !(lookup_cleanup_old adsr s id data d d') by auto.
  rewrite !(lookup_cleanup_new adsr s id data d d') by (done || lia).
  rewrite nodes_on_off, lookup_pair_fst, lookup_pair_snd.
  split; [eexists; split; [done|reflexivity]|].
  split; [eexists; split; [done|reflexivity]|].
  split; [done|]. split; [done|].
  split.
  { apply Hlive. by apply (lookup_cleanup_new adsr s id data d d'). }
  split.
  { rewrite lookup_retrigger_gain by done. eexists. split; [done|reflexivity]. }
  unfold elapsed_state. cbn [activeVoices with_nodes with_timers with_time].
  by apply registry_retrigger.
Qed.

(** ** The other paths of [startNoteForElement] *)

Lemma startNote_null adsr s : startNoteForElement adsr None s = Ret () s.
Proof. reflexivity. Qed.

Lemma startNote_no_data adsr s id :
  startNoteForElement adsr (Some {| el_id := id; dataset_midi := None |}) s
  = Ret () s.
Proof. reflexivity. Qed.

Lemma startNote_empty_data adsr s id :
  startNoteForElement adsr (Some {| el_id := id; dataset_midi := Some "" |}) s
  = Ret () s.
Proof. reflexivity. Qed.

Lemma startNote_registered adsr s id data v :
  truthy data = true → activeVoices s !! id = Some v →
  startNoteForElement adsr (key id data) s = Ret () (requested s).
Proof.
  intros Ht Hv. unfold startNoteForElement, key, requested, resume.
  cbn [dataset_midi el_id]. rewrite Ht. cbn [negb]. simp_state.
  destruct (decide (ctx_state s = suspended)); simp_state; rewrite Hv; done.
Qed.

Lemma startNote_not_a_number adsr s id data :
  truthy data = true → parseInt data = None → activeVoices s !! id = None →
  startNoteForElement adsr (key id data) s
  = Throw TypeError
      (with_nodes (λ ns, ns ++ [Osc new_oscillator; Gain new_gain])
         (requested s)).
Proof.
  intros Ht Hp Hf. unfold startNoteForElement, key, resume, requested.
  cbn [dataset_midi el_id]. rewrite Ht, Hp. cbn [negb].
  destruct s as [cs rr ct ck ns av ac ws ts]. cbn in Hf. simp_state.
  destruct (decide (cs = suspended)); simp_state; rewrite Hf;
    cbn [bool_decide decide_rel is_Some_dec createOscillator createGain
         frequency_setValueAtTime fmap option_fmap option_map];
    simp_state; by rewrite snoc_snoc.
Qed.

Lemma startNote_too_high adsr s id data n :
  truthy data = true → parseInt data = Some n →
  ¬ float_accepts (midiToFreq (IZR n)) → activeVoices s !! id = None →
  startNoteForElement adsr (key id data) s
  = Throw TypeError
      (with_nodes (λ ns, ns ++ [Osc new_oscillator; Gain new_gain])
         (requested s)).
Proof.
  intros Ht Hp Hfl Hf. unfold startNoteForElement, key, resume, requested.
  cbn [dataset_midi el_id]. rewrite Ht, Hp. cbn [negb].
  destruct s as [cs rr ct ck ns av ac ws ts]. cbn in Hf. simp_state.
  destruct (decide (cs = suspended)); simp_state; rewrite Hf;
    cbn [bool_decide decide_rel is_Some_dec createOscillator createGain
         frequency_setValueAtTime fmap option_fmap option_map];
    (destruct (Rlt_dec (Rabs (midiToFreq (IZR n))) float_limit) as [Hyes|_];
       [by destruct Hfl|]);
    simp_state; by rewrite snoc_snoc.
Qed.

(** A key whose number the oscillator does not take: not a number, or
    1500 and above. *)
Lemma startNote_not_accepted adsr s id data :
  truthy data = true → ¬ frequency_accepted data →
  activeVoices s !! id = None →
  startNoteForElement adsr (key id data) s
  = Throw TypeError
      (with_nodes (λ ns, ns ++ [Osc new_oscillator; Gain new_gain])
         (requested s)).
Proof.
  intros Ht Hno Hf. destruct (parseInt data) as [n|] eqn:Hp.
  - apply (startNote_too_high adsr s id data n); try done.
    intros Hfl. apply Hno. by exists n.
  - by apply startNote_not_a_number.
Qed.

Lemma frequency_accepted_dec data :
  frequency_accepted data ∨ ¬ frequency_accepted data.
Proof.
  destruct (parseInt data) as [n|] eqn:Hp.
  - destruct (Rlt_dec (Rabs (midiToFreq (IZR n))) float_limit) as [H|H].
    + left. by exists n.
    + right. intros (m & Hm & Hfl). rewrite Hp in Hm. injection Hm as <-.
      by apply H.
  - right. intros (m & Hm & _). by rewrite Hp in Hm.
Qed.

Lemma startNote_custom_wave adsr s id data n :
  truthy data = true → parseInt data = Some n →
  float_accepts (midiToFreq (IZR n)) → activeVoices s !! id = None →
  ¬ wave_assignable s →
  startNoteForElement adsr (key id data) s
  = Throw InvalidStateError
      (with_nodes (λ ns, ns ++
         [Osc (set_frequency
                 (schedule (SetValueAtTime (midiToFreq (IZR n)) (currentTime s))
                    (frequency new_oscillator))
                 new_oscillator);
          Gain new_gain])
         (requested s)).
Proof.
  intros Ht Hp Hfl Hf Hw. unfold startNoteForElement, key, resume, requested.
  cbn [dataset_midi el_id]. rewrite Ht, Hp. cbn [negb].
  assert (Hc : OscillatorType_of_string (selected_wave (waveSelect s))
               = Some custom).
  { unfold wave_assignable in Hw.
    destruct (decide (OscillatorType_of_string (selected_wave (waveSelect s))
                      = Some custom)); [done|by destruct Hw]. }
  unfold set_type.
  destruct s as [cs rr ct ck ns av ac ws ts]. cbn in Hf, Hc. simp_state.
  destruct (decide (cs = suspended)); simp_state; rewrite Hf;
    cbn [bool_decide decide_rel is_Some_dec createOscillator createGain
         frequency_setValueAtTime fmap option_fmap option_map];
    (destruct (Rlt_dec (Rabs (midiToFreq (IZR n))) float_limit) as [_|Hno];
       [|by destruct Hno]);
    simp_state; rewrite Hc; cbn [decide decide_rel];
    rewrite length_snoc, snoc_snoc; unfold update_osc; on_pair;
    reflexivity.
Qed.

Lemma requested_note_on_state adsr id n s :
  requested (note_on_state adsr id n s) = note_on_state adsr id n s.
Proof.
  unfold requested, note_on_state. cbn [ctx_state].
  destruct (decide (ctx_state s = suspended)); reflexivity.
Qed.

Lemma requested_twice s : requested (requested s) = requested s.
Proof.
  unfold requested. destruct (decide (ctx_state s = suspended)) as [H|H].
  - cbn [ctx_state with_resume_requested]. by rewrite decide_True.
  - by rewrite decide_False.
Qed.

(** C4.  When a note-on of a key has returned, a second note-on of the
    same key with no note-off in between returns and leaves the whole
    state as it was: no node is created, no envelope event is scheduled,
    the registry is not written.  The key has one registry entry, and if
    it was free before, the two calls together created one
    oscillator/gain pair, which is live. *)
Theorem second_note_on_is_noop adsr s id data :
  truthy data = true →
  returns (startNoteForElement adsr (key id data) s) = true →
  let k := key id data in
  let o := length (nodes s) in
  let s1 := after adsr [NoteOn k] s in
  let s2 := after adsr [NoteOn k; NoteOn k] s in
  returns (run adsr [NoteOn k; NoteOn k] s) = true
  ∧ startNoteForElement adsr k s1 = Ret () s1
  ∧ s2 = s1
  ∧ is_Some (activeVoices s2 !! id)
  ∧ (activeVoices s !! id = None →
       length (nodes s2) = length (nodes s) + 2
       ∧ activeVoices s2 !! id = Some {| osc := o; gain := S o |}
       ∧ live s2 o (S o)).
Proof.
  intros Ht Hret k o s1 s2. subst k o s1 s2. unfold after.
  change [NoteOn (key id data); NoteOn (key id data)]
    with ([NoteOn (key id data)] ++ [NoteOn (key id data)]).
  rewrite run_app, !run_single. cbn [turn].
  destruct (activeVoices s !! id) as [v|] eqn:Hreg.
  - rewrite (startNote_registered adsr s id data v) by done. cbn [final].
    assert (Hv : activeVoices (requested s) !! id = Some v).
    { unfold requested. by destruct (decide (ctx_state s = suspended)). }
    rewrite ?run_single. cbn [turn].
    rewrite (startNote_registered adsr (requested s) id data v) by done.
    rewrite requested_twice. cbn [returns final]. rewrite Hv.
    repeat split; try done; by eexists.
  - destruct (frequency_accepted_dec data) as [(n & Hp & Hfl)|Hno].
    2:{ by rewrite startNote_not_accepted in Hret. }
    destruct (decide (OscillatorType_of_string (selected_wave (waveSelect s))
                      = Some custom)) as [Hc|Hw].
    { rewrite (startNote_custom_wave adsr s id data n) in Hret; try done.
      intros Hw. by apply Hw. }
    unfold key. rewrite (startNote_fresh adsr s id data n) by done.
    cbn [final].
    assert (Hv : activeVoices (note_on_state adsr id n s) !! id
                 = Some {| osc := length (nodes s); gain := S (length (nodes s)) |}).
    { apply lookup_insert_eq. }
    rewrite ?run_single. cbn [turn].
    change (Some {| el_id := id; dataset_midi := Some data |}) with (key id data).
    rewrite (startNote_registered adsr _ id data _ Ht Hv).
    rewrite requested_note_on_state. cbn [returns final]. rewrite Hv.
    split; [done|]. split; [done|]. split; [done|]. split; [by eexists|].
    intros _. split; [|split; [done|]].
    + unfold note_on_state. cbn [nodes]. rewrite length_app. cbn. lia.
    + unfold live, note_on_state. cbn [nodes]. rewrite lookup_pair_fst.
      eexists. split; [done|]. split; [by eexists|done].
Qed.

(** ** The release envelope *)

Lemma insert_event_last {V} (e : ParamEvent V) (l : list (ParamEvent V)) :
  Forall (λ e', Qle_bool (event_time e') (event_time e) = true) l →
  insert_event e l = l ++ [e].
Proof.
  induction 1 as [|e' r He _ IH]; [done|].
  cbn [insert_event]. by rewrite He, IH.
Qed.

Lemma before_earlier {V} (t : Q) (l : list (ParamEvent V)) :
  Forall (λ e, Qle_bool (event_time e) t = true) (List.filter (before t) l).
Proof.
  apply Forall_forall. intros e He.
  apply list_elem_of_In, filter_In in He as [_ Hb].
  unfold before in Hb. apply negb_true_iff in Hb.
  apply Qle_bool_true. destruct (Qlt_le_dec (event_time e) t) as [H|H]; [lra|].
  apply Qle_bool_iff in H. congruence.
Qed.

Lemma events_release_param adsr now (p : AudioParam Q) :
  (0 <= release adsr)%Q →
  events (release_param adsr now p)
  = List.filter (before now) (events p)
    ++ [SetValueAtTime (value p) now;
        ExponentialRampToValueAtTime (1 # 10000) (now + release adsr)].
Proof.
  intros Hr. unfold release_param, schedule, cancel_from. cbn [events value].
  rewrite (insert_event_last (SetValueAtTime (value p) now))
    by apply before_earlier.
  rewrite insert_event_last.
  - by rewrite <- app_assoc.
  - apply Forall_app. split.
    + eapply Forall_impl; [apply before_earlier|].
      intros e He. cbn [event_time] in *. apply Qle_bool_iff in He.
      apply Qle_bool_true. lra.
    + constructor; [|constructor]. cbn [event_time]. apply Qle_bool_true. lra.
Qed.

(** C5.  Note-off on a registered voice, at the current audio time [now]:
    the gain timeline keeps the events scheduled before [now], then holds
    a set-value event at [now] carrying the level the gain parameter had
    when the call was made, then an exponential ramp to 0.0001 ending
    [release] seconds later; the level itself is not written. *)
Theorem note_off_ramps_from_current_level adsr s el v g :
  (0 <= release adsr)%Q →
  activeVoices s !! el_id el = Some v →
  nodes s !! gain v = Some (Gain g) →
  let now := currentTime s in
  let s' := final (stopNoteForElement adsr (Some el) s) in
  ∃ g',
    nodes s' !! gain v = Some (Gain g')
    ∧ events (gain_param g')
      = List.filter (before now) (events (gain_param g))
        ++ [SetValueAtTime (value (gain_param g)) now;
            ExponentialRampToValueAtTime (1 # 10000) (now + release adsr)]
    ∧ value (gain_param g') = value (gain_param g)
    ∧ gain_out g' = gain_out g.
Proof.
  intros Hr Hv Hg now s'. subst now s'.
  rewrite (stopNote_registered adsr s el v Hv). cbn [final].
  exists (set_gain_param (release_param adsr (currentTime s)) g).
  split.
  - unfold note_off_state, update_osc, update_gain. cbn [nodes].
    rewrite list_lookup_alter.
    destruct (decide (osc v = gain v)) as [->|Hne].
    + by rewrite list_lookup_alter_eq, Hg.
    + by rewrite list_lookup_alter_eq, Hg.
  - split; [by apply events_release_param|done].
Qed.

(** C6.  Note-off on a key that has no registered voice returns without
    an exception and leaves the registry, the node store, the timers and
    the clocks as they were; only the key's "active" class is removed. *)
Theorem note_off_without_voice_is_noop adsr s el :
  activeVoices s !! el_id el = None →
  let r := stopNoteForElement adsr (Some el) s in
  r = Ret () (with_active_class (λ c, c ∖ {[el_id el]}) s)
  ∧ returns r = true
  ∧ activeVoices (final r) = activeVoices s
  ∧ nodes (final r) = nodes s
  ∧ timers (final r) = timers s.
Proof.
  intros Hf r. subst r. by rewrite stopNote_unregistered.
Qed.

(** ** Exceptions *)

Lemma stopNote_returns adsr keyEl s :
  returns (stopNoteForElement adsr keyEl s) = true.
Proof.
  destruct keyEl as [el|]; [|done].
  destruct (activeVoices s !! el_id el) as [v|] eqn:E.
  - by rewrite (stopNote_registered adsr s el v E).
  - by rewrite stopNote_unregistered.
Qed.

Lemma try_catch_returns body s : returns (try_catch body s) = true.
Proof. unfold try_catch. by destruct (body s). Qed.

(** C8 (as amended).  Note-off and the delayed clean-up callback return
    normally on every input and in every state, whatever [stop] and
    [disconnect] do inside their [try] blocks.  Note-on returns at once,
    leaving the state untouched, when the key element is null or has no
    key-identity data, and returns normally when the key identity is a
    number whose frequency the oscillator takes, which is a number below
    1500, and the selected waveform can be assigned.  On a key that has
    no voice and whose identity is not such a number (not a number at
    all, or 1500 and above) note-on raises. *)
Theorem exceptions_absorbed adsr s keyEl cb :
  returns (stopNoteForElement adsr keyEl s) = true
  ∧ returns (run_callback cb s) = true
  ∧ (∀ body, returns (try_catch body s) = true)
  ∧ (key_identity_missing keyEl →
       startNoteForElement adsr keyEl s = Ret () s)
  ∧ (key_identity_accepted keyEl → wave_assignable s →
       returns (startNoteForElement adsr keyEl s) = true)
  ∧ (∀ n : Z, float_accepts (midiToFreq (IZR n)) ↔ (n < 1500)%Z)
  ∧ (∀ el data,
       keyEl = Some el → dataset_midi el = Some data → truthy data = true →
       ¬ frequency_accepted data → activeVoices s !! el_id el = None →
       returns (startNoteForElement adsr keyEl s) = false).
Proof.
  split; [apply stopNote_returns|].
  split; [apply run_callback_returns|].
  split; [intros body; apply try_catch_returns|].
  split; [|split; [|split; [apply float_accepts_midiToFreq|]]].
  - destruct keyEl as [[id [data|]]|];
      cbn [key_identity_missing dataset_midi]; try done. by intros ->.
  - destruct keyEl as [[id [data|]]|];
      cbn [key_identity_accepted dataset_midi]; try done.
    intros (n & Hn & Hfl) Hw.
    destruct (activeVoices s !! id) as [v|] eqn:E.
    + change (Some {| el_id := id; dataset_midi := Some data |})
        with (key id data).
      by rewrite (startNote_registered adsr s id data v)
        by eauto using parseInt_truthy.
    + by rewrite (startNote_fresh adsr s id data n)
        by eauto using parseInt_truthy.
  - intros [id d] data -> Hd Ht Hno Hf. cbn [dataset_midi el_id] in *.
    subst d.
    change (Some {| el_id := id; dataset_midi := Some data |})
      with (key id data).
    by rewrite startNote_not_accepted.
Qed.

(** ** The attack envelope *)

Lemma Forall_insert_event {V} (P : ParamEvent V → Prop) e l :
  P e → Forall P l → Forall P (insert_event e l).
Proof.
  intros He. induction 1 as [|e' r He' Hr IH]; cbn [insert_event].
  - by constructor.
  - destruct (Qle_bool (event_time e') (event_time e)); by repeat constructor.
Qed.

Lemma elem_of_insert_event {V} (e : ParamEvent V) l : e ∈ insert_event e l.
Proof.
  induction l as [|e' r IH]; cbn [insert_event].
  - by left.
  - destruct (Qle_bool (event_time e') (event_time e)); [by right|by left].
Qed.

Lemma Math_max_bounds (a b : Q) :
  (a <= Math_max a b)%Q ∧ (b <= Math_max a b)%Q
  ∧ ((b <= a)%Q → (Math_max a b == a)%Q).
Proof.
  unfold Math_max. destruct (Qle_bool a b) eqn:E.
  - apply Qle_bool_iff in E. repeat split; try lra.
  - assert (b < a)%Q.
    { destruct (Qlt_le_dec b a) as [H|H]; [done|].
      apply Qle_bool_iff in H. congruence. }
    repeat split; lra.
Qed.

(** C9.  A note-on that creates a voice (the key has none, its number is
    one the oscillator takes, the waveform can be assigned) schedules on the new gain a value
    of 0.0001 at [now], a ramp to 1 and a ramp to
    [Math.max(0.0001, sustain)]; that maximum is at least 0.0001 and at
    least the sustain level, so it is 0.0001 when the sustain level is 0
    or less, and every exponential ramp on the timeline has a strictly
    positive target, for every envelope configuration. *)
Theorem attack_ramp_targets_positive adsr s id data :
  frequency_accepted data → activeVoices s !! id = None → wave_assignable s →
  let now := currentTime s in
  let floor := (1 # 10000)%Q in
  let target := Math_max floor (sustain adsr) in
  let s1 := after adsr [NoteOn (key id data)] s in
  ∃ g,
    nodes s1 !! S (length (nodes s)) = Some (Gain g)
    ∧ events (gain_param g)
      = insert_event
          (ExponentialRampToValueAtTime target (now + attack adsr + decay adsr))
          (insert_event (ExponentialRampToValueAtTime 1%Q (now + attack adsr))
             [SetValueAtTime floor now])
    ∧ ExponentialRampToValueAtTime target (now + attack adsr + decay adsr)
      ∈ events (gain_param g)
    ∧ Forall ramp_target_positive (events (gain_param g))
    ∧ (0 < target)%Q ∧ (floor <= target)%Q ∧ (sustain adsr <= target)%Q
    ∧ ((sustain adsr <= 0)%Q → (target == floor)%Q).
Proof.
  intros Hn Hf Hw now floor target s1. subst now floor target s1.
  unfold after. rewrite run_on by done. cbn [final].
  exists (voice_gain adsr (currentTime s)).
  split; [apply lookup_pair_snd|].
  split; [reflexivity|].
  split; [apply elem_of_insert_event|].
  pose proof (Math_max_floor_pos (sustain adsr)) as Hpos.
  destruct (Math_max_bounds (1 # 10000) (sustain adsr)) as (Ha & Hb & Hc).
  split.
  { cbn [voice_gain gain_param events]. unfold attack_timeline.
    repeat apply Forall_insert_event; try done.
    by repeat constructor. }
  repeat split; try done.
  intros Hs. apply Hc. lra.
Qed.

(** C10.  With no waveform selector, or one whose value is empty, the
    oscillator of a newly created voice has type "triangle"; a voice is
    created for a key that has none and whose number the oscillator
    takes. *)
Theorem waveform_defaults_to_triangle adsr s id data :
  waveSelect s = None ∨ waveSelect s = Some "" →
  frequency_accepted data → activeVoices s !! id = None →
  let s1 := after adsr [NoteOn (key id data)] s in
  returns (run adsr [NoteOn (key id data)] s) = true
  ∧ activeVoices s1 !! id
    = Some {| osc := length (nodes s); gain := S (length (nodes s)) |}
  ∧ ∃ o, nodes s1 !! length (nodes s) = Some (Osc o) ∧ osc_type o = triangle.
Proof.
  intros Hws Hn Hf s1. subst s1. unfold after.
  assert (Hsel : selected_wave (waveSelect s) = "triangle")
    by (destruct Hws as [-> | ->]; reflexivity).
  assert (Hw : wave_assignable s)
    by (unfold wave_assignable; by rewrite Hsel).
  rewrite run_on by done. cbn [returns final].
  split; [done|]. split; [apply lookup_insert_eq|].
  unfold on_state, note_on_state. cbn [nodes]. rewrite lookup_pair_fst.
  eexists. split; [done|]. cbn [voice_oscillator osc_type].
  by rewrite Hsel.
Qed.

(** C7.  [midiToFreq] is the equal-temperament formula
    440 * 2^((n - 69) / 12): key 69 gives 440 Hz, key 60 gives 261.63 Hz to
    two decimals, and nothing is clamped: a key twelve higher always doubles
    the frequency, so key 129 gives 14080 Hz and key -3 gives 6.875 Hz. *)
Theorem midiToFreq_equal_temperament :
  (∀ n : Z, midiToFreq (IZR n) = 440 * Rpower 2 ((IZR n - 69) / 12))%R
  ∧ midiToFreq 69 = 440%R
  ∧ (261.625 < midiToFreq 60 < 261.635)%R
  ∧ (∀ m : R, midiToFreq (m + 12) = 2 * midiToFreq m)%R
  ∧ (∀ m : R, 0 < midiToFreq m)%R
  ∧ midiToFreq 129 = 14080%R
  ∧ midiToFreq (-3) = 6.875%R.
Proof.
  split; [reflexivity|].
  split; [apply midiToFreq_69|].
  split; [apply midiToFreq_60_bounds|].
  split; [apply midiToFreq_octave|].
  split; [apply midiToFreq_pos|].
  split.
  - replace 129%R with (69 + 12 + 12 + 12 + 12 + 12)%R by lra.
    rewrite !midiToFreq_octave, midiToFreq_69. lra.
  - assert (H : midiToFreq (-3 + 12 + 12 + 12 + 12 + 12 + 12) = 440%R).
    { replace (-3 + 12 + 12 + 12 + 12 + 12 + 12)%R with 69%R by lra.
      apply midiToFreq_69. }
    rewrite !midiToFreq_octave in H. lra.
Qed.

(** ** Well-formedness is an invariant *)

Lemma well_formed_initial : well_formed initial.
Proof.
  split; [|constructor]. intros k v H. cbn [initial activeVoices] in H.
  by rewrite lookup_empty in H.
Qed.

Lemma voice_bounded_mono (n m : nat) v :
  (n ≤ m)%nat → voice_bounded n v → voice_bounded m v.
Proof. unfold voice_bounded. lia. Qed.

Lemma well_formed_frame s s' :
  well_formed s → (length (nodes s) ≤ length (nodes s'))%nat →
  activeVoices s' = activeVoices s → timers s' = timers s →
  well_formed s'.
Proof.
  intros [Hv Ht] Hl Ha Hts. split.
  - intros k v Hk. rewrite Ha in Hk. eauto using voice_bounded_mono.
  - rewrite Hts. eapply Forall_impl; [exact Ht|].
    intros t. by apply timer_bounded_mono.
Qed.

Lemma well_formed_requested s : well_formed s → well_formed (requested s).
Proof.
  intros H. unfold requested.
  destruct (decide (ctx_state s = suspended)); [|done].
  by apply (well_formed_frame s).
Qed.

Lemma well_formed_note_on_state adsr id n s :
  well_formed s → well_formed (note_on_state adsr id n s).
Proof.
  intros [Hv Ht]. unfold note_on_state. split; cbn [nodes activeVoices timers].
  - intros k v. rewrite length_app. cbn [length]. rewrite lookup_insert.
    destruct (decide (id = k)) as [->|Hne].
    + intros [= <-]. unfold voice_bounded. cbn. lia.
    + intros Hk. eapply voice_bounded_mono; [|eauto]. lia.
  - eapply Forall_impl; [exact Ht|]. intros t.
    apply timer_bounded_mono. rewrite length_app. lia.
Qed.

Lemma well_formed_note_off_state adsr id v s :
  well_formed s → activeVoices s !! id = Some v →
  well_formed (note_off_state adsr id v s).
Proof.
  intros [Hv Ht] Hreg. unfold note_off_state.
  split; cbn [nodes activeVoices timers];
    unfold update_osc, update_gain; rewrite !length_alter.
  - intros k v'. rewrite lookup_delete.
    destruct (decide (id = k)); [done|]. apply Hv.
  - apply Forall_app. split; [done|]. constructor; [|constructor].
    unfold timer_bounded. cbn [callback]. apply (Hv id v Hreg).
Qed.

Lemma well_formed_elapsed dt s : well_formed s → well_formed (elapsed_state dt s).
Proof.
  intros [Hv Ht]. unfold elapsed_state.
  split; cbn [nodes activeVoices timers with_nodes with_timers with_time];
    rewrite length_callbacks_effect; [done|].
  by apply Forall_filter_bool.
Qed.

Lemma startNote_falsy adsr s id data :
  truthy data = false →
  startNoteForElement adsr (key id data) s = Ret () s.
Proof.
  intros Ht. unfold startNoteForElement, key. cbn [dataset_midi].
  by rewrite Ht.
Qed.

Lemma well_formed_startNote adsr keyEl s :
  well_formed s → well_formed (final (startNoteForElement adsr keyEl s)).
Proof.
  intros Hwf. destruct keyEl as [[id [data|]]|]; try done.
  change (Some {| el_id := id; dataset_midi := Some data |}) with (key id data).
  destruct (truthy data) eqn:Ht.
  2:{ by rewrite startNote_falsy. }
  destruct (activeVoices s !! id) as [v|] eqn:Hreg.
  { rewrite (startNote_registered adsr s id data v) by done.
    by apply well_formed_requested. }
  destruct (frequency_accepted_dec data) as [(n & Hp & Hfl)|Hno].
  2:{ rewrite startNote_not_accepted by done. cbn [final].
      apply (well_formed_frame (requested s));
        [by apply well_formed_requested| |done|done].
      cbn [nodes with_nodes]. rewrite length_app. lia. }
  destruct (decide (OscillatorType_of_string (selected_wave (waveSelect s))
                    = Some custom)) as [Hc|Hw].
  { rewrite (startNote_custom_wave adsr s id data n) by
      (done || (intros Hw; by apply Hw)).
    cbn [final].
    apply (well_formed_frame (requested s));
      [by apply well_formed_requested| |done|done].
    cbn [nodes with_nodes]. rewrite length_app. lia. }
  unfold key. rewrite (startNote_fresh adsr s id data n) by done.
  by apply well_formed_note_on_state.
Qed.

Lemma well_formed_stopNote adsr keyEl s :
  well_formed s → well_formed (final (stopNoteForElement adsr keyEl s)).
Proof.
  intros Hwf. destruct keyEl as [el|]; [|done].
  destruct (activeVoices s !! el_id el) as [v|] eqn:Hreg.
  - rewrite (stopNote_registered adsr s el v Hreg).
    by apply well_formed_note_off_state.
  - rewrite stopNote_unregistered by done.
    by apply (well_formed_frame s).
Qed.

(** Every turn of the event loop keeps the state well formed, whether it
    returns or throws. *)
Lemma well_formed_turn adsr t s :
  well_formed s → well_formed (final (turn adsr t s)).
Proof.
  intros Hwf. destruct t as [k|k|dt|i level|]; cbn [turn].
  - by apply well_formed_startNote.
  - by apply well_formed_stopNote.
  - rewrite elapse_effect. by apply well_formed_elapsed.
  - apply (well_formed_frame s); try done.
    unfold rendered, on_gain_param. simp_state. cbn [final nodes].
    unfold update_gain. by rewrite length_alter.
  - unfold resumed. simp_state. cbn [final].
    destruct (resume_requested s); [|done].
    by apply (well_formed_frame s).
Qed.

Lemma well_formed_run adsr ts s :
  well_formed s → well_formed (after adsr ts s).
Proof.
  unfold after. revert s. induction ts as [|t r IH]; intros s Hwf; [done|].
  cbn [run]. simp_state.
  pose proof (well_formed_turn adsr t s Hwf) as Ht.
  destruct (turn adsr t s) as [[] s'|e s']; cbn [final] in *; [by apply IH|done].
Qed.

(** ** The claims at concrete inputs *)

(** ** Example runs *)

Lemma accepted_60 : frequency_accepted "60".
Proof. by apply accepted_below_1500 with 60%Z. Qed.

Lemma accepted_72 : frequency_accepted "72".
Proof. by apply accepted_below_1500 with 72%Z. Qed.

Lemma wave_assignable_initial : wave_assignable initial.
Proof. vm_compute. discriminate. Qed.

Lemma example_on :
  after ADSR [NoteOn (key 7 "60")] initial = on_state ADSR 7 "60" initial.
Proof.
  unfold after.
  by rewrite (run_on ADSR initial 7 "60" accepted_60 eq_refl
                wave_assignable_initial).
Qed.

Lemma example_on_off :
  after ADSR [NoteOn (key 7 "60"); NoteOff (key 7 "60")] initial
  = on_off_state ADSR 7 "60" initial.
Proof.
  unfold after.
  by rewrite (run_on_off ADSR initial 7 "60" accepted_60 eq_refl
                wave_assignable_initial).
Qed.

Lemma example_on_off_elapse dt :
  after ADSR [NoteOn (key 7 "60"); NoteOff (key 7 "60"); Elapse dt] initial
  = elapsed_state dt (on_off_state ADSR 7 "60" initial).
Proof.
  unfold after.
  by rewrite (run_on_off_elapse ADSR initial 7 "60" dt accepted_60 eq_refl
                wave_assignable_initial).
Qed.

Lemma example_retrigger :
  after ADSR [NoteOn (key 7 "60"); NoteOff (key 7 "60"); Elapse 100;
              NoteOn (key 7 "60")] initial
  = retrigger_state ADSR 7 "60" 100 initial.
Proof.
  unfold after.
  by rewrite run_retrigger
    by (exact accepted_60 || exact wave_assignable_initial
        || exact well_formed_initial || reflexivity).
Qed.

Lemma mid_decay_state :
  mid_decay
  = final (run ADSR [Resumed; Elapse 50; Rendered 1 (9 # 10)]
             (on_state ADSR 7 "72" initial)).
Proof.
  unfold mid_decay, after.
  change [NoteOn (key 7 "72"); Resumed; Elapse 50; Rendered 1 (9 # 10)]
    with ([NoteOn (key 7 "72")] ++ [Resumed; Elapse 50; Rendered 1 (9 # 10)]).
  by rewrite run_app, (run_on ADSR initial 7 "72" accepted_72 eq_refl
                         wave_assignable_initial).
Qed.

Lemma note_off_unregisters_then_cleans_up_witness :
  well_formed initial ∧ frequency_accepted "60"
  ∧ activeVoices initial !! 7 = None ∧ wave_assignable initial
  ∧ activeVoices
      (after ADSR [NoteOn (key 7 "60"); NoteOff (key 7 "60")] initial) !! 7
    = None
  ∧ connected_to
      (after ADSR [NoteOn (key 7 "60"); NoteOff (key 7 "60"); Elapse 349] initial)
      0 (ToNode 1)
  ∧ disconnected
      (after ADSR [NoteOn (key 7 "60"); NoteOff (key 7 "60"); Elapse 350] initial)
      0.
Proof.
  assert (H1 : well_formed initial) by exact well_formed_initial.
  assert (H2 : frequency_accepted "60") by exact accepted_60.
  assert (H3 : activeVoices initial !! 7 = None) by reflexivity.
  assert (H4 : wave_assignable initial) by exact wave_assignable_initial.
  destruct (note_off_unregisters_then_cleans_up ADSR initial 7 "60" H1 H2 H3 H4)
    as (_ & Ha & _ & _ & _ & _ & _ & Hb & Hc).
  split; [exact H1|]. split; [exact H2|]. split; [exact H3|].
  split; [exact H4|]. split; [exact Ha|]. split.
  - apply (Hb 349%Q). reflexivity.
  - apply (Hc 350%Q). vm_compute. discriminate.
Defined.

(** C1 as stated fails: right after note-off the clean-up is still
    pending, yet the registry has no entry for the key any more. *)
Lemma registry_entry_kept_counterexample :
  ¬ (let s2 := after ADSR [NoteOn (key 7 "60"); NoteOff (key 7 "60")] initial in
     pending s2 0 1 → is_Some (activeVoices s2 !! 7)).
Proof.
  intros H. cbv zeta in H. rewrite example_on_off in H.
  assert (Hp : pending (on_off_state ADSR 7 "60" initial) 0 1).
  { eexists. split; [vm_compute; apply list_elem_of_here|reflexivity]. }
  destruct (H Hp) as [v Hv]. vm_compute in Hv. discriminate Hv.
Qed.

Lemma note_on_during_release_retriggers_witness :
  well_formed initial ∧ frequency_accepted "60"
  ∧ activeVoices initial !! 7 = None ∧ wave_assignable initial
  ∧ (100 < release_delay ADSR)%Q
  ∧ activeVoices
      (after ADSR
         [NoteOn (key 7 "60"); NoteOff (key 7 "60"); Elapse 100;
          NoteOn (key 7 "60")] initial) !! 7
    = Some {| osc := 2; gain := 3 |}.
Proof.
  assert (H1 : well_formed initial) by exact well_formed_initial.
  assert (H2 : frequency_accepted "60") by exact accepted_60.
  assert (H3 : activeVoices initial !! 7 = None) by reflexivity.
  assert (H4 : wave_assignable initial) by exact wave_assignable_initial.
  assert (H5 : (100 < release_delay ADSR)%Q) by reflexivity.
  destruct (note_on_during_release_retriggers ADSR initial 7 "60" 100
              H1 H2 H3 H4 H5) as (_ & _ & _ & _ & _ & Ha & _).
  split; [exact H1|]. split; [exact H2|]. split; [exact H3|].
  split; [exact H4|]. split; [exact H5|]. exact Ha.
Defined.

(** C2 as stated fails: 100 ms into the release, with the old clean-up
    still pending, the second note-on is not ignored, it adds nodes to
    the store. *)
Lemma note_on_ignored_counterexample :
  ¬ (let s3 := after ADSR [NoteOn (key 7 "60"); NoteOff (key 7 "60");
                           Elapse 100] initial in
     let s4 := after ADSR [NoteOn (key 7 "60"); NoteOff (key 7 "60");
                           Elapse 100; NoteOn (key 7 "60")] initial in
     pending s3 0 1 → ignored s3 s4).
Proof.
  intros H. cbv zeta in H.
  rewrite example_on_off_elapse, example_retrigger in H.
  assert (Hp : pending (elapsed_state 100 (on_off_state ADSR 7 "60" initial))
                 0 1).
  { eexists. split; [vm_compute; apply list_elem_of_here|reflexivity]. }
  destruct (H Hp) as [Hn _]. apply (f_equal length) in Hn.
  vm_compute in Hn. discriminate Hn.
Qed.

Lemma old_cleanup_spares_new_voice_witness :
  well_formed initial ∧ frequency_accepted "60"
  ∧ activeVoices initial !! 7 = None ∧ wave_assignable initial
  ∧ (100 < release_delay ADSR)%Q ∧ (release_delay ADSR <= 100 + 250)%Q
  ∧ disconnected
      (after ADSR
         [NoteOn (key 7 "60"); NoteOff (key 7 "60"); Elapse 100;
          NoteOn (key 7 "60"); Elapse 250] initial) 0
  ∧ live
      (after ADSR
         [NoteOn (key 7 "60"); NoteOff (key 7 "60"); Elapse 100;
          NoteOn (key 7 "60"); Elapse 250] initial) 2 3.
Proof.
  assert (H1 : well_formed initial) by exact well_formed_initial.
  assert (H2 : frequency_accepted "60") by exact accepted_60.
  assert (H3 : activeVoices initial !! 7 = None) by reflexivity.
  assert (H4 : wave_assignable initial) by exact wave_assignable_initial.
  assert (H5 : (100 < release_delay ADSR)%Q) by reflexivity.
  assert (H6 : (release_delay ADSR <= 100 + 250)%Q)
    by (vm_compute; discriminate).
  destruct (old_cleanup_spares_new_voice ADSR initial 7 "60" 100 250
              H1 H2 H3 H4 H5 H6)
    as (_ & _ & _ & _ & _ & _ & Ha & _ & _ & _ & Hb & _).
  split; [exact H1|]. split; [exact H2|]. split; [exact H3|].
  split; [exact H4|]. split; [exact H5|]. split; [exact H6|].
  split; [exact Ha|exact Hb].
Defined.

Lemma second_note_on_is_noop_witness :
  truthy "60" = true
  ∧ returns (startNoteForElement ADSR (key 7 "60") initial) = true
  ∧ after ADSR [NoteOn (key 7 "60"); NoteOn (key 7 "60")] initial
    = after ADSR [NoteOn (key 7 "60")] initial
  ∧ length (nodes (after ADSR [NoteOn (key 7 "60"); NoteOn (key 7 "60")] initial))
    = 2.
Proof.
  assert (H1 : truthy "60" = true) by reflexivity.
  assert (H2 : returns (startNoteForElement ADSR (key 7 "60") initial) = true).
  { destruct accepted_60 as (n & Hn & Hfl). unfold key.
    by rewrite (startNote_fresh ADSR initial 7 "60" n eq_refl Hn Hfl eq_refl
                  wave_assignable_initial). }
  destruct (second_note_on_is_noop ADSR initial 7 "60" H1 H2)
    as (_ & _ & Ha & _ & Hb).
  split; [exact H1|]. split; [exact H2|]. split; [exact Ha|].
  exact (proj1 (Hb eq_refl)).
Defined.

Lemma note_off_ramps_from_current_level_witness :
  (0 <= release ADSR)%Q
  ∧ activeVoices mid_decay !! 7 = Some {| osc := 0; gain := 1 |}
  ∧ nodes mid_decay !! 1
    = Some (Gain
        {| gain_param :=
             {| value := 9 # 10;
                events :=
                  [SetValueAtTime (1 # 10000) 0;
                   ExponentialRampToValueAtTime 1%Q (1 # 100);
                   ExponentialRampToValueAtTime (75 # 100) (1300 # 10000)] |};
           gain_out := [masterGain] |})
  ∧ ∃ g',
      nodes (final (stopNoteForElement ADSR (key 7 "72") mid_decay)) !! 1
      = Some (Gain g')
      ∧ events (gain_param g')
        = [SetValueAtTime (1 # 10000) 0;
           ExponentialRampToValueAtTime 1%Q (1 # 100);
           SetValueAtTime (9 # 10) (currentTime mid_decay);
           ExponentialRampToValueAtTime (1 # 10000)
             (currentTime mid_decay + release ADSR)].
Proof.
  assert (H1 : (0 <= release ADSR)%Q) by (vm_compute; discriminate).
  assert (H2 : activeVoices mid_decay !! 7 = Some {| osc := 0; gain := 1 |})
    by (rewrite mid_decay_state; vm_compute; reflexivity).
  pose (g := {| gain_param :=
             {| value := 9 # 10;
                events :=
                  [SetValueAtTime (1 # 10000) 0;
                   ExponentialRampToValueAtTime 1%Q (1 # 100);
                   ExponentialRampToValueAtTime (75 # 100) (1300 # 10000)] |};
           gain_out := [masterGain] |}).
  assert (H3 : nodes mid_decay !! 1 = Some (Gain g))
    by (rewrite mid_decay_state; vm_compute; reflexivity).
  destruct (note_off_ramps_from_current_level ADSR mid_decay
              {| el_id := 7; dataset_midi := Some "72" |}
              {| osc := 0; gain := 1 |} g H1 H2 H3)
    as (g' & Hn & He & _).
  split; [exact H1|]. split; [exact H2|]. split; [exact H3|].
  exists g'. split; [exact Hn|]. rewrite He.
  assert (Hnow : currentTime mid_decay = (0 + 50 / 1000)%Q)
    by (rewrite mid_decay_state; reflexivity).
  rewrite Hnow. reflexivity.
Defined.

Lemma note_off_without_voice_is_noop_witness :
  activeVoices initial !! 7 = None
  ∧ returns (stopNoteForElement ADSR (key 7 "60") initial) = true
  ∧ activeVoices (final (stopNoteForElement ADSR (key 7 "60") initial))
    = activeVoices initial.
Proof.
  assert (H1 : activeVoices initial !! 7 = None) by reflexivity.
  destruct (note_off_without_voice_is_noop ADSR initial
              {| el_id := 7; dataset_midi := Some "60" |} H1)
    as (_ & Ha & Hb & _).
  split; [exact H1|]. split; [exact Ha|exact Hb].
Defined.

(** C8 as stated fails: a key whose identity is present but is not a
    number makes note-on raise. *)
Lemma note_on_never_raises_counterexample :
  ¬ (returns (startNoteForElement ADSR (key 7 "abc") initial) = true).
Proof. vm_compute. discriminate. Qed.

Lemma exceptions_absorbed_witness :
  key_identity_missing None
  ∧ key_identity_accepted (key 7 "60") ∧ wave_assignable initial
  ∧ startNoteForElement ADSR None initial = Ret () initial
  ∧ returns (startNoteForElement ADSR (key 7 "60") initial) = true.
Proof.
  assert (H1 : key_identity_missing None) by exact I.
  assert (H2 : key_identity_accepted (key 7 "60")) by exact accepted_60.
  assert (H3 : wave_assignable initial) by exact wave_assignable_initial.
  split; [exact H1|]. split; [exact H2|]. split; [exact H3|]. split.
  - exact (proj1 (proj2 (proj2 (proj2
      (exceptions_absorbed ADSR initial None (DisconnectVoice 0 1))))) H1).
  - exact (proj1 (proj2 (proj2 (proj2 (proj2
      (exceptions_absorbed ADSR initial (key 7 "60") (DisconnectVoice 0 1))))))
      H2 H3).
Defined.

(** Key 1499 is the last on which note-on returns. *)
Lemma note_on_at_the_float_limit :
  returns (startNoteForElement ADSR (key 7 "1499") initial) = true
  ∧ startNoteForElement ADSR (key 7 "1500") initial
    = Throw TypeError
        (with_nodes (λ ns, ns ++ [Osc new_oscillator; Gain new_gain])
           (requested initial)).
Proof.
  split.
  - unfold key.
    by rewrite (startNote_fresh ADSR initial 7 "1499" 1499 eq_refl eq_refl
                  (proj2 (float_accepts_midiToFreq 1499) eq_refl) eq_refl
                  wave_assignable_initial).
  - apply (startNote_too_high ADSR initial 7 "1500" 1500); try done.
    intros H. by apply float_accepts_midiToFreq in H.
Qed.

Lemma attack_ramp_targets_positive_witness :
  frequency_accepted "60" ∧ activeVoices initial !! 7 = None
  ∧ wave_assignable initial
  ∧ ∃ g,
      nodes (after silent_sustain [NoteOn (key 7 "60")] initial) !! 1
      = Some (Gain g)
      ∧ Forall ramp_target_positive (events (gain_param g))
      ∧ (Math_max (1 # 10000) (sustain silent_sustain) == 1 # 10000)%Q.
Proof.
  assert (H2 : frequency_accepted "60") by exact accepted_60.
  assert (H3 : activeVoices initial !! 7 = None) by reflexivity.
  assert (H4 : wave_assignable initial) by exact wave_assignable_initial.
  destruct (attack_ramp_targets_positive silent_sustain initial 7 "60" H2 H3 H4)
    as (g & Hn & _ & _ & Hf & _ & _ & _ & Hz).
  split; [exact H2|]. split; [exact H3|]. split; [exact H4|].
  exists g. split; [exact Hn|]. split; [exact Hf|].
  apply Hz. vm_compute. discriminate.
Defined.

Lemma waveform_defaults_to_triangle_witness :
  (waveSelect without_selector = None ∨ waveSelect without_selector = Some "")
  ∧ frequency_accepted "60" ∧ activeVoices without_selector !! 7 = None
  ∧ ∃ o,
      nodes (after ADSR [NoteOn (key 7 "60")] without_selector) !! 0
      = Some (Osc o)
      ∧ osc_type o = triangle.
Proof.
  assert (H1 : waveSelect without_selector = None
               ∨ waveSelect without_selector = Some "") by (left; reflexivity).
  assert (H2 : frequency_accepted "60") by exact accepted_60.
  assert (H3 : activeVoices without_selector !! 7 = None) by reflexivity.
  destruct (waveform_defaults_to_triangle ADSR without_selector 7 "60" H1 H2 H3)
    as (_ & _ & Ho).
  split; [exact H1|]. split; [exact H2|]. split; [exact H3|]. exact Ho.
Defined.

(** * The rest of the page: properties *)

(** ** Printing a number and reading it back *)

Lemma digit_val_pretty_N_char (x : N) :
  (x < 10)%N → digit_val (pretty_N_char x) = Some (Z.of_N x).
Proof.
  intros Hx.
  assert (x = 0 ∨ x = 1 ∨ x = 2 ∨ x = 3 ∨ x = 4 ∨ x = 5 ∨ x = 6 ∨ x = 7
          ∨ x = 8 ∨ x = 9)%N as H by lia.
  repeat (destruct H as [-> | H]; [reflexivity|]). by subst.
Qed.

Lemma read_digits_pretty_N_go (x : N) (s : string) (acc : Z) :
  ∃ k : Z, (0 <= k)%Z
    ∧ read_digits acc (pretty_N_go x s)
      = read_digits (acc * 10 ^ k + Z.of_N x) s.
Proof.
  revert s. induction (N.lt_wf_0 x) as [x _ IH]; intros s.
  assert (x = 0 ∨ 0 < x)%N as [-> | Hpos] by lia.
  - exists 0%Z. split; [done|]. rewrite pretty_N_go_0. f_equal.
    rewrite Z.pow_0_r. cbn. lia.
  - rewrite pretty_N_go_step by done.
    destruct (IH (x `div` 10)%N (N.div_lt x 10 Hpos eq_refl)
                (String (pretty_N_char (x `mod` 10)) s)) as (k & Hk & ->).
    exists (k + 1)%Z. split; [lia|]. cbn [read_digits].
    rewrite digit_val_pretty_N_char by (by apply N.mod_lt). f_equal.
    rewrite Z.pow_add_r, Z.pow_1_r by lia.
    rewrite (N.div_mod x 10) at 3 by done. lia.
Qed.

Lemma read_digits_pretty_N (x : N) :
  read_digits 0 (pretty_N_go x "") = Z.of_N x.
Proof.
  destruct (read_digits_pretty_N_go x "" 0) as (k & _ & ->). cbn. lia.
Qed.

Lemma pretty_N_go_digit_first (x : N) (s : string) :
  (0 < x)%N →
  ∃ c r, pretty_N_go x s = String c r ∧ is_Some (digit_val c).
Proof.
  revert s. induction (N.lt_wf_0 x) as [x _ IH]; intros s Hpos.
  rewrite pretty_N_go_step by done.
  destruct (N.eq_0_gt_0_cases (x `div` 10)) as [-> | Hq].
  - rewrite pretty_N_go_0. eexists _, _. split; [done|].
    rewrite digit_val_pretty_N_char by (by apply N.mod_lt). by eexists.
  - apply IH; [by apply N.div_lt|done].
Qed.

Lemma parseInt_digit_first (c : ascii) (r : string) :
  is_Some (digit_val c) →
  parseInt (String c r) = Some (read_digits 0 (String c r))
  ∧ starts_with_digit (String c r) = true.
Proof.
  intros [d Hd].
  destruct c as [[] [] [] [] [] [] [] []]; try discriminate Hd;
    split; reflexivity.
Qed.

Lemma parseInt_toString (n : Z) : parseInt (Number_toString n) = Some n.
Proof.
  unfold Number_toString, pretty, pretty_Z.
  destruct n as [|p|p]; [reflexivity| |].
  - unfold pretty, pretty_positive, pretty, pretty_N.
    rewrite decide_False by done.
    destruct (pretty_N_go_digit_first (N.pos p) "") as (c & r & Hs & Hc);
      [done|].
    pose proof (read_digits_pretty_N (N.pos p)) as Hr. rewrite Hs in *.
    destruct (parseInt_digit_first c r Hc) as [-> _]. by rewrite Hr.
  - unfold pretty, pretty_positive, pretty, pretty_N.
    rewrite decide_False by done.
    destruct (pretty_N_go_digit_first (N.pos p) "") as (c & r & Hs & Hc);
      [done|].
    pose proof (read_digits_pretty_N (N.pos p)) as Hr. rewrite Hs in *.
    destruct (parseInt_digit_first c r Hc) as [_ Hd].
    change ("-" +:+ String c r) with (String "-" (String c r)).
    unfold parseInt.
    change (skip_white (String "-" (String c r)))
      with (String "-" (String c r)).
    cbv beta iota zeta. rewrite Hd, Hr. reflexivity.
Qed.

(** X3.  The text [renderKeys] writes into [dataset.midi] is read back by
    [parseInt] in [startNoteForElement] as the number it was written
    from, for every safe integer; it is never empty, so the guard
    [if (!midi) return] lets it through, and two different numbers never
    give the same text. *)
Theorem dataset_midi_round_trip (n m : Z) :
  safe_integer n → safe_integer m →
  parseInt (Number_toString n) = Some n
  ∧ truthy (Number_toString n) = true
  ∧ (Number_toString n = Number_toString m → n = m).
Proof.
  intros _ _. split; [apply parseInt_toString|].
  split; [apply (parseInt_truthy _ n), parseInt_toString|].
  intros H. pose proof (parseInt_toString n) as Hn.
  rewrite H, parseInt_toString in Hn. by injection Hn.
Qed.

Lemma dataset_midi_round_trip_witness :
  safe_integer 60 ∧ safe_integer 61
  ∧ parseInt (Number_toString 60) = Some 60%Z.
Proof.
  assert (H1 : safe_integer 60) by (vm_compute; discriminate).
  assert (H2 : safe_integer 61) by (vm_compute; discriminate).
  split; [exact H1|]. split; [exact H2|].
  exact (proj1 (dataset_midi_round_trip 60 61 H1 H2)).
Defined.

(** ** The note list *)

Lemma name_of_midi_from_C (start : Z) (i : nat) :
  (0 <= start)%Z → (start mod 12 = 0)%Z →
  name_of_midi (start + Z.of_nat i) = NOTE_NAMES !! (i mod 12).
Proof.
  intros H0 Hm. unfold name_of_midi.
  rewrite Z.rem_mod_nonneg by lia.
  rewrite Z.add_mod, Hm, Z.add_0_l, Z.mod_mod by lia.
  assert (0 <= Z.of_nat i mod 12 < 12)%Z by (apply Z.mod_pos_bound; lia).
  rewrite (proj2 (Z.ltb_ge _ _)) by lia.
  f_equal. rewrite <- (Nat2Z.id (i mod 12)). f_equal.
  rewrite Nat2Z.inj_mod. reflexivity.
Qed.

Lemma push_note_from_C (start : Z) (i : nat) notes :
  (0 <= start)%Z → (start mod 12 = 0)%Z →
  push_note start (Z.of_nat i) notes = inr (notes ++ [note_at start i]).
Proof.
  intros H0 Hm. unfold push_note, note_at.
  rewrite name_of_midi_from_C by done.
  assert (Hlt : i mod 12 < 12) by (apply Nat.mod_upper_bound; lia).
  destruct (lookup_lt_is_Some_2 NOTE_NAMES (i mod 12) Hlt) as [name ->].
  reflexivity.
Qed.

Lemma note_loop_from_C (start : Z) (count i : nat) notes :
  (0 <= start)%Z → (start mod 12 = 0)%Z →
  note_loop start (Z.of_nat i) count notes
  = inr (notes ++ (note_at start <$> seq i count)).
Proof.
  intros H0 Hm. revert i notes.
  induction count as [|c IH]; intros i notes; cbn [note_loop seq fmap list_fmap].
  - by rewrite app_nil_r.
  - rewrite push_note_from_C by done.
    replace (Z.of_nat i + 1)%Z with (Z.of_nat (S i)) by lia.
    rewrite IH. by rewrite <- app_assoc.
Qed.

Lemma buildNoteList_from_C (b : Z) :
  (-1 <= b)%Z →
  buildNoteList (Some b) = inr (note_at ((b + 1) * 12) <$> seq 0 24).
Proof.
  intros Hb. unfold buildNoteList.
  apply (note_loop_from_C ((b + 1) * 12) 24 0 []); [lia|].
  apply Z.mod_mul. lia.
Qed.

(** X1.  For a base octave of -1 or more, within the range in which the
    source's arithmetic is exact, [buildNoteList] returns the 24
    consecutive semitones that start at the C of that octave, each named
    by its pitch class and marked sharp exactly on the five sharp
    classes: 14 naturals and 10 sharps. *)
Theorem buildNoteList_two_octaves (b : Z) :
  (-1 <= b)%Z → octave_in_range b →
  ∃ notes,
    buildNoteList (Some b) = inr notes
    ∧ length notes = 24
    ∧ (∀ (i : nat) n, notes !! i = Some n →
         note_midi n = ((b + 1) * 12 + Z.of_nat i)%Z
         ∧ NOTE_NAMES !! (i mod 12) = Some (note_name n)
         ∧ note_isSharp n = sharp_class i)
    ∧ length (List.filter note_isSharp notes) = 10
    ∧ length (List.filter (λ n, negb (note_isSharp n)) notes) = 14.
Proof.
  intros Hb _. eexists. split; [by apply buildNoteList_from_C|].
  split; [reflexivity|]. split; [|split; reflexivity].
  intros i n Hi.
  assert (Hlt : i < 24).
  { apply lookup_lt_Some in Hi. by rewrite length_fmap, length_seq in Hi. }
  rewrite list_lookup_fmap, lookup_seq_lt in Hi by done.
  injection Hi as <-. cbn [note_at note_midi note_name note_isSharp].
  split; [done|].
  do 24 (destruct i as [|i]; [by repeat split|]). lia.
Qed.

Lemma rem_just_above_multiple (c : Z) :
  (c < 0)%Z → Z.rem (c * 12 + 1) 12 = (-11)%Z.
Proof.
  intros Hc. replace (c * 12 + 1)%Z with (- ((- c - 1) * 12 + 11))%Z by lia.
  rewrite Z.rem_opp_l by lia. rewrite Z.rem_mod_nonneg by lia.
  rewrite Z.add_comm, Z.mod_add by lia. reflexivity.
Qed.

Lemma buildNoteList_below (b : Z) :
  (b < -1)%Z → buildNoteList (Some b) = inl TypeError.
Proof.
  intros Hb. unfold buildNoteList. cbn [note_loop].
  assert (H0 : push_note ((b + 1) * 12) 0 []
               = inr [{| note_midi := (b + 1) * 12 + 0; note_name := "C";
                         note_isSharp := false |}]).
  { unfold push_note, name_of_midi.
    rewrite Z.add_0_r, Z.rem_mul by lia. reflexivity. }
  rewrite H0.
  assert (H1 : ∀ l, push_note ((b + 1) * 12) (0 + 1) l = inl TypeError).
  { intros l. unfold push_note, name_of_midi.
    rewrite rem_just_above_multiple by lia. reflexivity. }
  by rewrite H1.
Qed.

(** X2.  [buildNoteList] throws where an index of [NOTE_NAMES] is not a
    position of the array: for a base octave below -1, within the range
    in which the source's arithmetic is exact, at the second note (the
    remainder of a negative number is negative), and for an octave that
    is not a number. *)
Theorem buildNoteList_throws_below_octave_minus_1 (b : Z) :
  (b < -1)%Z → octave_in_range b →
  buildNoteList (Some b) = inl TypeError ∧ buildNoteList None = inl TypeError.
Proof.
  intros Hb _. split; [by apply buildNoteList_below|reflexivity].
Qed.

Lemma buildNoteList_throws_below_octave_minus_1_witness :
  (-2 < -1)%Z ∧ octave_in_range (-2)
  ∧ buildNoteList (Some (-2)%Z) = inl TypeError.
Proof.
  assert (H : (-2 < -1)%Z) by reflexivity.
  assert (Hr : octave_in_range (-2)) by (vm_compute; discriminate).
  split; [exact H|]. split; [exact Hr|].
  exact (proj1 (buildNoteList_throws_below_octave_minus_1 (-2) H Hr)).
Defined.

Lemma buildNoteList_two_octaves_witness :
  (-1 <= 4)%Z ∧ octave_in_range 4
  ∧ ∃ notes, buildNoteList (Some 4%Z) = inr notes ∧ length notes = 24.
Proof.
  assert (H : (-1 <= 4)%Z) by (vm_compute; discriminate).
  assert (Hr : octave_in_range 4) by (vm_compute; discriminate).
  split; [exact H|]. split; [exact Hr|].
  destruct (buildNoteList_two_octaves 4 H Hr) as (notes & Hn & Hl & _).
  exists notes. split; [exact Hn|exact Hl].
Defined.

(** ** Rendering the keys *)

Lemma offset_div (start i : Z) : ((start + i - (start + 0)) / 12 = i / 12)%Z.
Proof. f_equal. lia. Qed.

Lemma white_keys_slots start W (j : Z) (l : list nat) :
  white_keys W j (note_at start <$> l) = white_div start W <$> white_slots j l.
Proof.
  revert j. induction l as [|i r IH]; intros j; [done|].
  cbn [fmap list_fmap white_keys white_slots].
  change (note_isSharp (note_at start i)) with (includes_hash (name_at i)).
  destruct (includes_hash (name_at i)); [apply IH|].
  cbn [fmap list_fmap]. f_equal. apply IH.
Qed.

Lemma black_step_slots start W (l : list nat) (off : Z) (out : list (Z * nat)) :
  foldl (black_step W (W * (6 # 10)) (start + 0)) (off, black_div start W <$> out)
    (note_at start <$> l)
  = ((foldl black_slot_step (off, out) l).1,
     black_div start W <$> (foldl black_slot_step (off, out) l).2).
Proof.
  revert off out. induction l as [|i r IH]; intros off out; [done|].
  cbn [fmap list_fmap foldl]. unfold black_step at 2, black_slot_step at 2 4.
  change (note_isSharp (note_at start i)) with (includes_hash (name_at i)).
  change (note_name (note_at start i)) with (name_at i).
  destruct (includes_hash (name_at i)); cbn [negb]; [|apply IH].
  destruct (lookup_name (strip_digits (name_at i)) blackMap) as [p|]; [|apply IH].
  cbn [note_midi note_at]. rewrite offset_div.
  rewrite <- IH. f_equal. by rewrite fmap_app.
Qed.

Lemma renderKeys_from_C old v w (b : Z) :
  parseInt v = Some b → (-1 <= b)%Z →
  renderKeys old (Some v) w
  = (keyboard_at ((b + 1) * 12) (width_or_60 w), None).
Proof.
  intros Hp Hb. unfold renderKeys. rewrite Hp, buildNoteList_from_C by done.
  set (start := ((b + 1) * 12)%Z). set (W := width_or_60 w).
  remember (note_at start <$> seq 0 24) as notes eqn:E.
  assert (Hn : notes = note_at start 0 :: (note_at start <$> seq 1 23))
    by (subst notes; reflexivity).
  destruct notes as [|first rest]; [discriminate Hn|].
  injection Hn as -> _. rewrite E.
  rewrite !white_keys_slots.
  change (note_midi (note_at start 0)) with (start + 0)%Z.
  pose proof (black_step_slots start W (seq 0 24) 0 []) as Hbl.
  cbn [fmap list_fmap] in Hbl. rewrite Hbl.
  cbn [snd]. rewrite length_fmap. reflexivity.
Qed.

Lemma key_midi_white_div start W slot :
  key_midi (white_div start W slot) = Some (start + Z.of_nat slot.2)%Z.
Proof. apply parseInt_toString. Qed.

Lemma key_midi_black_div start W slot :
  key_midi (black_div start W slot) = Some (start + Z.of_nat slot.2)%Z.
Proof. apply parseInt_toString. Qed.

Lemma key_midi_keyboard_at start W :
  key_midi <$> children (keyboard_at start W)
  = (λ i : nat, Some (start + Z.of_nat i)%Z) <$> key_order.
Proof.
  unfold keyboard_at, key_order. cbn [children].
  rewrite !fmap_app, <- !list_fmap_compose.
  f_equal; apply list_fmap_ext; intros ? slot _; cbn;
    [apply key_midi_white_div|apply key_midi_black_div].
Qed.

Ltac explicit_slots :=
  let ws := eval vm_compute in (white_slots 0 (seq 0 24)) in
  let bs := eval vm_compute in (foldl black_slot_step (0%Z, []) (seq 0 24)).2 in
  change (white_slots 0 (seq 0 24)) with ws;
  change (foldl black_slot_step (0%Z, []) (seq 0 24)).2 with bs.

(** X4.  With an octave value that reads as a number of -1 or more,
    within the range in which the source's arithmetic is exact,
    [renderKeys] returns without an exception and leaves 24 keys, the 14
    naturals first and then the 10 sharps; their [data-midi] values read
    back as the 24 semitones from the C of that octave, each exactly
    once, so every rendered key carries a numeric key identity. *)
Theorem renderKeys_one_key_per_semitone old v w (b : Z) :
  parseInt v = Some b → (-1 <= b)%Z → octave_in_range b →
  let kb := (renderKeys old (Some v) w).1 in
  (renderKeys old (Some v) w).2 = None
  ∧ is_white_key <$> children kb = replicate 14 true ++ replicate 10 false
  ∧ key_midi <$> children kb
    ≡ₚ (λ i : nat, Some ((b + 1) * 12 + Z.of_nat i)%Z) <$> seq 0 24
  ∧ ∀ k id, k ∈ children kb → key_identity_numeric (element_of id k).
Proof.
  intros Hp Hb _ kb. subst kb. rewrite (renderKeys_from_C old v w b) by done.
  cbn [fst snd]. set (start := ((b + 1) * 12)%Z).
  split; [done|]. split; [reflexivity|]. split.
  - rewrite key_midi_keyboard_at. apply fmap_Permutation.
    apply (bool_decide_unpack _). by vm_compute.
  - intros k id Hk. unfold key_identity_numeric, element_of.
    cbn [dataset_midi]. change (parseInt (data_midi k)) with (key_midi k).
    apply (list_elem_of_fmap_2 key_midi) in Hk.
    rewrite key_midi_keyboard_at in Hk.
    apply list_elem_of_fmap in Hk as (i & -> & _). by eexists.
Qed.

Lemma renderKeys_one_key_per_semitone_witness :
  parseInt "4" = Some 4%Z ∧ (-1 <= 4)%Z ∧ octave_in_range 4
  ∧ (renderKeys empty_keyboard (Some "4") 0).2 = None
  ∧ length (children (renderKeys empty_keyboard (Some "4") 0).1) = 24.
Proof.
  assert (H1 : parseInt "4" = Some 4%Z) by reflexivity.
  assert (H2 : (-1 <= 4)%Z) by (vm_compute; discriminate).
  assert (H3 : octave_in_range 4) by (vm_compute; discriminate).
  destruct (renderKeys_one_key_per_semitone empty_keyboard "4" 0 4 H1 H2 H3)
    as (Ha & Hb & _).
  split; [exact H1|]. split; [exact H2|]. split; [exact H3|].
  split; [exact Ha|].
  rewrite <- (length_fmap is_white_key), Hb. reflexivity.
Defined.

(** X5.  The layout [renderKeys] gives for an octave of -1 or more,
    within the range in which the source's arithmetic is exact: the naturals stand side by side
    from 0, one key width apart, and the container is 14 key widths wide;
    every sharp is centred on the left edge of a natural, the natural to
    the left of that edge sounds one semitone below the sharp and the
    natural at the edge one semitone above.  The key width is the
    measured width, or 60 when that is 0. *)
Theorem renderKeys_layout old v w (b : Z) :
  parseInt v = Some b → (-1 <= b)%Z → octave_in_range b →
  let kb := (renderKeys old (Some v) w).1 in
  let W := width_or_60 w in
  let whites := List.filter is_white_key (children kb) in
  let blacks := List.filter (λ k, negb (is_white_key k)) (children kb) in
  children kb = whites ++ blacks
  ∧ (∀ (j : nat) k, whites !! j = Some k →
       style_left k = (inject_Z (Z.of_nat j) * W)%Q)
  ∧ style_width kb = (inject_Z 14 * W)%Q
  ∧ (∀ k, k ∈ blacks →
       ∃ (j : nat) below above m,
         whites !! j = Some below ∧ whites !! S j = Some above
         ∧ key_midi k = Some m
         ∧ key_midi below = Some (m - 1)%Z ∧ key_midi above = Some (m + 1)%Z
         ∧ (style_left k + W * (6 # 10) / 2 == style_left above)%Q)
  ∧ ((w == 0)%Q → W = 60%Q) ∧ (¬ (w == 0)%Q → W = w).
Proof.
  intros Hp Hb _ kb W whites blacks. subst kb whites blacks.
  rewrite (renderKeys_from_C old v w b) by done. fold W.
  cbn [fst snd]. set (start := ((b + 1) * 12)%Z).
  unfold keyboard_at. cbn [children style_width]. explicit_slots.
  cbn [fmap list_fmap app List.filter is_white_key className white_div black_div
       key_div String.eqb Ascii.eqb Bool.eqb negb fst snd length Z.of_nat
       Pos.of_succ_nat Pos.succ].
  split; [reflexivity|]. split.
  { intros j k Hj.
    do 14 (destruct j as [|j]; [by injection Hj as <-|]). done. }
  split; [reflexivity|]. split.
  { intros k Hk.
    repeat (apply elem_of_cons in Hk as [-> | Hk]);
      [..|by apply elem_of_nil in Hk];
      cbn [style_left];
      [exists 0|exists 1|exists 3|exists 4|exists 5|exists 7|exists 8
       |exists 10|exists 11|exists 12];
      eexists _, _, _;
      (split; [reflexivity|]); (split; [reflexivity|]);
      (split; [apply key_midi_black_div|]);
      (split; [rewrite key_midi_white_div; cbn [snd]; f_equal; lia|]);
      (split; [rewrite key_midi_white_div; cbn [snd]; f_equal; lia|]);
      unfold white_div, black_div, key_div; cbn [style_left fst snd]; ring. }
  subst W. unfold width_or_60. split.
  - intros Hw. apply Qeq_bool_iff in Hw. by rewrite Hw.
  - intros Hw. destruct (Qeq_bool w 0) eqn:E; [|done].
    apply Qeq_bool_iff in E. by destruct Hw.
Qed.

Lemma renderKeys_layout_witness :
  parseInt "4" = Some 4%Z ∧ (-1 <= 4)%Z ∧ octave_in_range 4
  ∧ style_width (renderKeys empty_keyboard (Some "4") 50).1
    = (inject_Z 14 * width_or_60 50)%Q.
Proof.
  assert (H1 : parseInt "4" = Some 4%Z) by reflexivity.
  assert (H2 : (-1 <= 4)%Z) by (vm_compute; discriminate).
  assert (H3 : octave_in_range 4) by (vm_compute; discriminate).
  destruct (renderKeys_layout empty_keyboard "4" 50 4 H1 H2 H3)
    as (_ & _ & Ha & _).
  split; [exact H1|]. split; [exact H2|]. split; [exact H3|exact Ha].
Defined.

(** X6.  [renderKeys] empties the container before it reads the octave:
    when the octave value is not a number, or is a number below -1
    within the range in which the source's arithmetic is exact, the call
    ends in a [TypeError] and the page is left without any key, whatever
    keys it had before.  Without an octave selector the octave is 4. *)
Theorem renderKeys_failure_leaves_no_keys old v w :
  (parseInt v = None
   ∨ ∃ b, parseInt v = Some b ∧ (b < -1)%Z ∧ octave_in_range b) →
  renderKeys old (Some v) w
  = ({| children := []; style_width := style_width old |}, Some TypeError)
  ∧ renderKeys old None w = renderKeys old (Some "4") w.
Proof.
  intros H. split; [|reflexivity].
  destruct H as [Hp | (b & Hp & Hb & _)]; unfold renderKeys; rewrite Hp.
  - reflexivity.
  - by rewrite (buildNoteList_below b Hb).
Qed.

Lemma renderKeys_failure_leaves_no_keys_witness :
  (parseInt "high" = None
   ∨ ∃ b, parseInt "high" = Some b ∧ (b < -1)%Z ∧ octave_in_range b)
  ∧ children (renderKeys (renderKeys empty_keyboard (Some "4") 0).1
                (Some "high") 0).1 = [].
Proof.
  assert (H : parseInt "high" = None
              ∨ ∃ b, parseInt "high" = Some b ∧ (b < -1)%Z
                     ∧ octave_in_range b)
    by (left; reflexivity).
  split; [exact H|].
  rewrite (proj1 (renderKeys_failure_leaves_no_keys _ "high" 0 H)).
  reflexivity.
Defined.

(** ** Note names to frequencies *)

Lemma getNoteFrequency_own note (n : Z) (octave : R) :
  lookup_name note noteMap = Some n →
  getNoteFrequency note (Some octave)
  = Some (midiToFreq ((octave + 1) * 12 + IZR n)).
Proof.
  intros Hn. unfold getNoteFrequency, noteMap_get, midiToFreq. rewrite Hn.
  change (default 4%R (Some octave)) with octave.
  replace ((octave - 4) * 12 + (IZR n - 9))%R
    with ((octave + 1) * 12 + IZR n - 69)%R by lra.
  reflexivity.
Qed.

Lemma getNoteFrequency_NOTE_NAMES (i : nat) name (octave : Z) :
  NOTE_NAMES !! i = Some name →
  getNoteFrequency name (Some (IZR octave))
  = Some (midiToFreq (IZR (12 * (octave + 1) + Z.of_nat i))).
Proof.
  intros Hi.
  assert (Hn : lookup_name name noteMap = Some (Z.of_nat i)).
  { do 12 (destruct i as [|i]; [by injection Hi as <-|]). done. }
  rewrite (getNoteFrequency_own name _ _ Hn). do 2 f_equal.
  rewrite plus_IZR, mult_IZR, plus_IZR. lra.
Qed.

(** X7.  The two pitch functions of the site agree: for each of the
    twelve names of [NOTE_NAMES] and every octave, [getNoteFrequency]
    gives what [midiToFreq] gives for the key number 12 (octave + 1) +
    pitch class; a flat name gives the frequency of the sharp it equals;
    A in octave 4 is 440 Hz, and the octave left out means octave 4. *)
Theorem getNoteFrequency_agrees_with_midiToFreq (i : nat) name (octave : Z) :
  NOTE_NAMES !! i = Some name →
  getNoteFrequency name (Some (IZR octave))
  = Some (midiToFreq (IZR (12 * (octave + 1) + Z.of_nat i)))
  ∧ getNoteFrequency "Db" (Some (IZR octave))
    = getNoteFrequency "C#" (Some (IZR octave))
  ∧ getNoteFrequency "Eb" (Some (IZR octave))
    = getNoteFrequency "D#" (Some (IZR octave))
  ∧ getNoteFrequency "Gb" (Some (IZR octave))
    = getNoteFrequency "F#" (Some (IZR octave))
  ∧ getNoteFrequency "Ab" (Some (IZR octave))
    = getNoteFrequency "G#" (Some (IZR octave))
  ∧ getNoteFrequency "Bb" (Some (IZR octave))
    = getNoteFrequency "A#" (Some (IZR octave))
  ∧ getNoteFrequency "A" None = Some 440%R
  ∧ getNoteFrequency name None = getNoteFrequency name (Some 4%R).
Proof.
  intros Hi. split.
  - by apply getNoteFrequency_NOTE_NAMES.
  - repeat split; try reflexivity.
    rewrite (getNoteFrequency_own "A" 9 4 eq_refl : getNoteFrequency "A" None = _).
    f_equal. replace ((4 + 1) * 12 + 9)%R with 69%R by lra.
    apply midiToFreq_69.
Qed.

Lemma getNoteFrequency_agrees_with_midiToFreq_witness :
  NOTE_NAMES !! 0 = Some "C"
  ∧ getNoteFrequency "C" (Some (IZR 4)) = Some (midiToFreq (IZR 60)).
Proof.
  assert (H : NOTE_NAMES !! 0 = Some "C") by reflexivity.
  split; [exact H|].
  exact (proj1 (getNoteFrequency_agrees_with_midiToFreq 0 "C" 4 H)).
Defined.

(** X8.  What [getNoteFrequency] does with a name it does not know: a
    name that is neither a key of [noteMap] nor a property every object
    inherits gives the 440 Hz fallback, whatever the octave; an
    inherited property name such as "constructor" is found by the
    lookup, is not [undefined], and gives [NaN] instead of the fallback. *)
Theorem getNoteFrequency_unknown_name note octave :
  lookup_name note noteMap = None →
  (note ∉ Object_prototype_names → getNoteFrequency note octave = Some 440%R)
  ∧ (note ∈ Object_prototype_names → getNoteFrequency note octave = None).
Proof.
  intros Hn. unfold getNoteFrequency, noteMap_get. rewrite Hn. split; intros H.
  - by rewrite bool_decide_eq_false_2.
  - by rewrite bool_decide_eq_true_2.
Qed.

Lemma getNoteFrequency_unknown_name_witness :
  lookup_name "H" noteMap = None ∧ ("H" ∉ Object_prototype_names)
  ∧ getNoteFrequency "H" (Some 3%R) = Some 440%R
  ∧ lookup_name "constructor" noteMap = None
  ∧ "constructor" ∈ Object_prototype_names
  ∧ getNoteFrequency "constructor" None = None.
Proof.
  assert (H1 : lookup_name "H" noteMap = None) by reflexivity.
  assert (H2 : "H" ∉ Object_prototype_names)
    by (apply (bool_decide_unpack _); vm_compute; exact I).
  assert (H3 : lookup_name "constructor" noteMap = None) by reflexivity.
  assert (H4 : "constructor" ∈ Object_prototype_names)
    by (apply (bool_decide_unpack _); vm_compute; exact I).
  split; [exact H1|]. split; [exact H2|]. split.
  { exact (proj1 (getNoteFrequency_unknown_name "H" (Some 3%R) H1) H2). }
  split; [exact H3|]. split; [exact H4|].
  exact (proj2 (getNoteFrequency_unknown_name "constructor" None H3) H4).
Defined.

Lemma rendered_key_pitch old v w (b : Z) k :
  parseInt v = Some b → (-1 <= b)%Z →
  k ∈ children (renderKeys old (Some v) w).1 →
  ∃ m : Z,
    key_midi k = Some m
    ∧ ((b + 1) * 12 <= m < (b + 1) * 12 + 24)%Z
    ∧ label_text k = data_name k +:+ Number_toString (m / 12 - 1)
    ∧ getNoteFrequency (data_name k) (Some (IZR (m / 12 - 1)))
      = Some (midiToFreq (IZR m)).
Proof.
  intros Hp Hb. rewrite (renderKeys_from_C old v w b) by done.
  cbn [fst]. set (start := ((b + 1) * 12)%Z).
  assert (Hkey : ∀ cls (i : nat) x, i < 24 →
    let k := key_div cls (note_at start i) x in
    ∃ m : Z, key_midi k = Some m
      ∧ (start <= m < start + 24)%Z
      ∧ label_text k = data_name k +:+ Number_toString (m / 12 - 1)
      ∧ getNoteFrequency (data_name k) (Some (IZR (m / 12 - 1)))
        = Some (midiToFreq (IZR m))).
  { intros cls i x Hi k'. subst k'. exists (start + Z.of_nat i)%Z.
    split; [apply parseInt_toString|]. split; [lia|]. split; [reflexivity|].
    cbn [data_name key_div note_name note_at].
    assert (Hq : ((start + Z.of_nat i) / 12 - 1 = b + Z.of_nat (i / 12))%Z).
    { subst start. rewrite Z.add_comm, Z.div_add by lia.
      rewrite Nat2Z.inj_div. simpl (Z.of_nat 12). lia. }
    rewrite Hq.
    rewrite (getNoteFrequency_NOTE_NAMES (i mod 12)
               (default "" (NOTE_NAMES !! (i mod 12)))
               (b + Z.of_nat (i / 12))).
    2:{ assert (Hlt : i mod 12 < 12) by (apply Nat.mod_upper_bound; lia).
        by destruct (lookup_lt_is_Some_2 NOTE_NAMES (i mod 12) Hlt) as [nm ->]. }
    do 3 f_equal. subst start.
    rewrite (Nat.div_mod_eq i 12) at 3. lia. }
  unfold keyboard_at. cbn [children]. explicit_slots.
  cbn [fmap list_fmap app]. intros Hk.
  repeat (apply elem_of_cons in Hk as [-> | Hk]);
    [..|by apply elem_of_nil in Hk];
    apply Hkey; cbn [snd]; lia.
Qed.

(** ** The states of the page *)

Lemma existsb_filter_false {A} (f p : A → bool) (l : list A) :
  existsb f l = false → existsb f (List.filter p l) = false.
Proof.
  induction l as [|a l IH]; [done|]. cbn [existsb List.filter].
  intros [Ha Hl]%orb_false_iff. destruct (p a); cbn [existsb]; [|by apply IH].
  by rewrite Ha, IH.
Qed.

Lemma existsb_partition {A} (f p : A → bool) (l : list A) :
  existsb f l
  = existsb f (List.filter p l) || existsb f (List.filter (λ a, negb (p a)) l).
Proof.
  induction l as [|a l IH]; [done|]. cbn [existsb List.filter]. rewrite IH.
  destruct (p a); cbn [negb existsb]; destruct (f a); cbn [orb]; try done.
  by destruct (existsb f (List.filter p l)).
Qed.

Lemma lookup_alter_at {A} (f : A → A) (l : list A) (i : nat) :
  alter f i l !! i = f <$> l !! i.
Proof. rewrite list_lookup_alter. by rewrite decide_True. Qed.

Lemma unmentioned_beyond (n i : nat) ts :
  Forall (timer_bounded n) ts → (n ≤ i)%nat → existsb (mentions i) ts = false.
Proof.
  intros H Hi. induction H as [|t ts Ht _ IH]; [done|].
  cbn [existsb]. rewrite IH, orb_false_r.
  unfold mentions, timer_bounded in *. destruct (callback t) as [o g].
  apply orb_false_iff. split; apply Nat.eqb_neq; lia.
Qed.

Lemma mentions_owns o g i q :
  mentions i {| fire_at := q; callback := DisconnectVoice o g |} = true
  ↔ owns {| osc := o; gain := g |} i.
Proof.
  unfold mentions, owns. cbn [callback osc gain].
  rewrite orb_true_iff, !Nat.eqb_eq. done.
Qed.

Lemma outputs_on_gain f n :
  outputs (on_gain (set_gain_param f) n) = outputs n.
Proof. by destruct n. Qed.

Lemma outputs_stop_if_sounding now t n :
  outputs (on_osc (stop_if_sounding now t) n) = outputs n.
Proof.
  destruct n as [o|g]; [|done]. cbn [on_osc outputs].
  unfold stop_if_sounding, reschedule_stop.
  destruct (started o); [|done].
  destruct (stopped o) as [t0|]; [|done]. by destruct (Qle_bool t0 now).
Qed.

Lemma outputs_silence_if b n :
  outputs (silence_if b n) ≠ [] → b = false.
Proof. destruct b; [|done]. by destruct n. Qed.

Lemma sounding_same_nodes s s' v :
  nodes s' !! osc v = nodes s !! osc v →
  nodes s' !! gain v = nodes s !! gain v →
  sounding s v → sounding s' v.
Proof.
  intros Ho Hg [(n & Hn & Hl) (g & Hgn & Hout)]. split.
  - exists n. by rewrite Ho.
  - exists g. by rewrite Hg.
Qed.

Lemma sounding_app s s' v extra :
  nodes s' = nodes s ++ extra → sounding s v → sounding s' v.
Proof.
  intros Hn [(n & Ho & Hl) (g & Hg & Hout)]. split.
  - exists n. split; [|done]. rewrite Hn. by apply lookup_app_l_Some.
  - exists g. split; [|done]. rewrite Hn. by apply lookup_app_l_Some.
Qed.

(** The oscillator and the gain of a voice that sounds are two nodes. *)
Lemma sounding_two_nodes s v : sounding s v → osc v ≠ gain v.
Proof.
  intros [(n & Ho & _) (g & Hg & _)] Heq. rewrite Heq in Ho. congruence.
Qed.

Lemma sounding_report s v i level :
  sounding s v →
  sounding
    (with_nodes (update_gain i (set_gain_param (report_level level))) s) v.
Proof.
  intros [(n & Ho & Hl) (g & Hg & Hout)]. unfold sounding, live, update_gain.
  cbn [nodes with_nodes]. split.
  - exists n. split; [|done].
    destruct (decide (i = osc v)) as [->|Hne].
    + by rewrite lookup_alter_at, Ho.
    + by rewrite list_lookup_alter_ne.
  - destruct (decide (i = gain v)) as [->|Hne].
    + exists (set_gain_param (report_level level) g).
      by rewrite lookup_alter_at, Hg.
    + exists g. by rewrite list_lookup_alter_ne.
Qed.

Lemma consistent_agree adsr s s' :
  agree s s' → consistent adsr s → consistent adsr s'.
Proof.
  intros (Hn & Hr & Ht & Hc & Hk) (Hwf & Hs & Ha & Hh & Hacc & Hcl & Hsoon).
  unfold consistent, awaited in *. rewrite Hn, Hr, Ht, Hc, Hk.
  split; [|split; [|done]].
  - apply (well_formed_frame s); try done. by rewrite Hn.
  - intros k v Hv. apply (sounding_same_nodes s); [by rewrite Hn..|eauto].
Qed.

Lemma consistent_spare adsr s extra :
  Forall (λ n, outputs n = []) extra →
  consistent adsr s → consistent adsr (with_nodes (λ ns, ns ++ extra) s).
Proof.
  intros Hx (Hwf & Hs & Ha & Hh & Hacc & Hcl & Hsoon).
  unfold consistent, awaited in *.
  cbn [with_nodes nodes activeVoices timers active_class clock].
  split; [|split; [|split; [done|split; [done|split; [|done]]]]].
  - apply (well_formed_frame s); try done.
    cbn [with_nodes nodes]. rewrite length_app. lia.
  - intros k v Hv. by apply (sounding_app s _ v extra); [|eauto].
  - intros i n Hi Hout. apply lookup_app_Some in Hi as [Hi | [_ Hi]]; [eauto|].
    exfalso. apply Hout. by apply (Forall_lookup_1 _ _ _ _ Hx Hi).
Qed.

Lemma consistent_class adsr s id :
  activeVoices s !! id = None →
  consistent adsr s → consistent adsr (with_active_class (λ c, c ∖ {[id]}) s).
Proof.
  intros Hid (Hwf & Hs & Ha & Hh & Hacc & Hcl & Hsoon).
  unfold consistent, awaited in *.
  cbn [with_active_class nodes activeVoices timers active_class clock].
  split; [by apply (well_formed_frame s)|].
  split; [intros k v Hv; by apply (sounding_same_nodes s); [..|eauto]|].
  do 3 (split; [done|]). split; [|done].
  intros k. rewrite elem_of_difference, elem_of_singleton, Hcl.
  split; [by intros [? _]|]. intros Hk. split; [done|].
  intros ->. rewrite Hid in Hk. by destruct Hk.
Qed.

Lemma consistent_rendered adsr s i level :
  consistent adsr s →
  consistent adsr
    (with_nodes (update_gain i (set_gain_param (report_level level))) s).
Proof.
  intros (Hwf & Hs & Ha & Hh & Hacc & Hcl & Hsoon).
  unfold consistent, awaited in *.
  cbn [with_nodes nodes activeVoices timers active_class clock].
  split; [|split; [|split; [done|split; [done|split; [|done]]]]].
  - apply (well_formed_frame s); try done.
    cbn [with_nodes nodes]. unfold update_gain. by rewrite length_alter.
  - intros k v Hv. apply sounding_report. eauto.
  - intros j n Hj Hout. unfold update_gain in Hj.
    destruct (decide (i = j)) as [->|Hne].
    + rewrite lookup_alter_at in Hj.
      destruct (nodes s !! j) as [m|] eqn:Hm; [|done].
      injection Hj as <-. rewrite outputs_on_gain in Hout. eauto.
    + rewrite list_lookup_alter_ne in Hj by done. eauto.
Qed.

Lemma owns_bounded s k v i :
  well_formed s → activeVoices s !! k = Some v → owns v i →
  i < length (nodes s).
Proof.
  intros [Hv _] Hk Hi. destruct (Hv k v Hk) as [Ho Hg].
  destruct Hi as [->| ->]; done.
Qed.

Lemma consistent_note_on adsr id n s :
  activeVoices s !! id = None →
  consistent adsr s → consistent adsr (note_on_state adsr id n s).
Proof.
  intros Hid (Hwf & Hs & Ha & Hh & Hacc & Hcl & Hsoon).
  assert (Hnew : ∀ i, owns {| osc := length (nodes s);
                               gain := S (length (nodes s)) |} i →
                      (length (nodes s) ≤ i)%nat).
  { intros i [->| ->]; cbn [osc gain]; lia. }
  split; [by apply well_formed_note_on_state|].
  unfold awaited, note_on_state in *.
  cbn [nodes activeVoices timers active_class clock].
  split; [|split; [|split; [|split; [|split; [|done]]]]].
  - intros k v. rewrite lookup_insert_Some. intros [[<- <-] | [Hne Hk]].
    + split; unfold live; cbn [osc gain nodes].
      * eexists. rewrite lookup_pair_fst. split; [reflexivity|].
        cbn [voice_oscillator started stopped osc_out]. by eauto.
      * eexists. rewrite lookup_pair_snd. split; [reflexivity|done].
    + eapply (sounding_app s); [reflexivity|eauto].
  - intros k1 k2 v1 v2 i. rewrite !lookup_insert_Some.
    intros [[<- <-] | [Hne1 Hk1]] [[<- <-] | [Hne2 Hk2]] H1 H2; try done.
    + apply Hnew in H1. pose proof (owns_bounded s k2 v2 i Hwf Hk2 H2). lia.
    + apply Hnew in H2. pose proof (owns_bounded s k1 v1 i Hwf Hk1 H1). lia.
    + eauto.
  - intros k v i. rewrite lookup_insert_Some. intros [[<- <-] | [Hne Hk]] Hi.
    + rewrite (unmentioned_beyond (length (nodes s))); [done|apply Hwf|auto].
    + eauto.
  - intros i m Hi Hout. apply lookup_app_Some in Hi as [Hi | [Hle Hi]].
    + destruct (Hacc i m Hi Hout) as [(k & v & Hk & Hown) | Haw]; [|by right].
      left. exists k, v. split; [|done]. rewrite lookup_insert_ne; [done|].
      intros <-. congruence.
    + left. exists id, {| osc := length (nodes s); gain := S (length (nodes s)) |}.
      split; [by rewrite lookup_insert_eq|].
      unfold owns. cbn [osc gain].
      destruct (i - length (nodes s)) as [|[|j]] eqn:Hj; [lia|lia|done].
  - intros k. rewrite elem_of_union, elem_of_singleton, Hcl.
    destruct (decide (k = id)) as [->|Hne].
    + rewrite lookup_insert_eq. split; [by eauto|by left].
    + rewrite lookup_insert_ne by done. split; [by intros [?|?]|by right].
Qed.

Lemma lookup_note_off_other adsr id v s i :
  i ≠ osc v → i ≠ gain v →
  nodes (note_off_state adsr id v s) !! i = nodes s !! i.
Proof.
  intros Ho Hg. unfold note_off_state, update_osc, update_gain. cbn [nodes].
  by rewrite !list_lookup_alter_ne.
Qed.

Lemma outputs_note_off adsr id v s i n' :
  nodes (note_off_state adsr id v s) !! i = Some n' →
  ∃ n, nodes s !! i = Some n ∧ outputs n' = outputs n.
Proof.
  unfold note_off_state, update_osc, update_gain. cbn [nodes].
  rewrite list_lookup_alter. destruct (decide (osc v = i)) as [<-|Ho].
  - rewrite list_lookup_alter. destruct (decide (gain v = osc v)) as [->|Hg].
    + destruct (nodes s !! osc v) as [m|]; [|done]. intros [= <-].
      exists m. by rewrite outputs_stop_if_sounding, outputs_on_gain.
    + destruct (nodes s !! osc v) as [m|]; [|done]. intros [= <-].
      exists m. by rewrite outputs_stop_if_sounding.
  - rewrite list_lookup_alter. destruct (decide (gain v = i)) as [<-|Hg].
    + destruct (nodes s !! gain v) as [m|]; [|done]. intros [= <-].
      exists m. by rewrite outputs_on_gain.
    + intros Hi. by exists n'.
Qed.

Lemma consistent_note_off adsr id v s :
  activeVoices s !! id = Some v →
  consistent adsr s → consistent adsr (note_off_state adsr id v s).
Proof.
  intros Hid (Hwf & Hs & Ha & Hh & Hacc & Hcl & Hsoon).
  split; [by apply well_formed_note_off_state|].
  assert (Hother : ∀ k v' i, id ≠ k → activeVoices s !! k = Some v' →
                             owns v' i → ¬ owns v i).
  { intros k v' i Hne Hk Hi Hv. apply Hne. symmetry. by apply (Ha k id v' v i). }
  unfold awaited in *.
  split; [|split; [|split; [|split; [|split]]]].
  - intros k v'. cbn [note_off_state activeVoices].
    rewrite lookup_delete_Some. intros [Hne Hk].
    apply (sounding_same_nodes s); [..|by eauto].
    + apply lookup_note_off_other.
      * intros E. apply (Hother k v' (osc v') Hne Hk); [by left|by left].
      * intros E. apply (Hother k v' (osc v') Hne Hk); [by left|by right].
    + apply lookup_note_off_other.
      * intros E. apply (Hother k v' (gain v') Hne Hk); [by right|by left].
      * intros E. apply (Hother k v' (gain v') Hne Hk); [by right|by right].
  - intros k1 k2 v1 v2 i. cbn [note_off_state activeVoices].
    rewrite !lookup_delete_Some. intros [_ H1] [_ H2]. eauto.
  - intros k v' i. cbn [note_off_state activeVoices timers].
    rewrite lookup_delete_Some. intros [Hne Hk] Hi.
    rewrite existsb_app. cbn [existsb]. rewrite orb_false_r.
    intros [Haw | Haw]%orb_true_iff; [by apply (Hh k v' i)|].
    apply mentions_owns in Haw. apply (Hother k v' i Hne Hk Hi).
    by destruct v.
  - intros i n' Hi Hout. apply outputs_note_off in Hi as (m & Hm & Heq).
    rewrite Heq in Hout. cbn [note_off_state activeVoices timers].
    rewrite existsb_app. cbn [existsb]. rewrite orb_false_r.
    destruct (Hacc i m Hm Hout) as [(k & v' & Hk & Hown) | Haw].
    + destruct (decide (id = k)) as [<-|Hne].
      * right. apply orb_true_iff. right. apply mentions_owns.
        assert (v' = v) as -> by congruence. by destruct v.
      * left. exists k, v'. by rewrite lookup_delete_ne.
    + right. by rewrite Haw.
  - intros k. cbn [note_off_state activeVoices active_class].
    rewrite elem_of_difference, elem_of_singleton, Hcl.
    destruct (decide (id = k)) as [<-|Hne].
    + rewrite lookup_delete_eq. split; [by intros [_ ?]|by intros [? ?]].
    + rewrite lookup_delete_ne by done. split; [by intros [? _]|].
      intros Hk. split; [done|]. by intros ->.
  - cbn [note_off_state timers clock]. apply Forall_app. split; [done|].
    constructor; [|constructor]. cbn [fire_at]. apply Qle_refl.
Qed.

Lemma silence_if_false (x : option AudioNode) : silence_if false <$> x = x.
Proof. by destruct x. Qed.

Lemma consistent_elapsed adsr dt s :
  (0 <= dt)%Q → consistent adsr s → consistent adsr (elapsed_state dt s).
Proof.
  intros Hdt (Hwf & Hs & Ha & Hh & Hacc & Hcl & Hsoon).
  split; [by apply well_formed_elapsed|].
  assert (Hkeep : ∀ k v i, activeVoices s !! k = Some v → owns v i →
                  nodes (elapsed_state dt s) !! i = nodes s !! i).
  { intros k v i Hk Hi. rewrite lookup_nodes_elapsed.
    rewrite existsb_filter_false; [apply silence_if_false|].
    specialize (Hh k v i Hk Hi). unfold awaited in Hh.
    by destruct (existsb (mentions i) (timers s)). }
  unfold awaited in *.
  split; [|split; [|split; [|split; [|split]]]].
  - intros k v Hk. apply (sounding_same_nodes s); [..|by eauto].
    + apply (Hkeep k v); [done|by left].
    + apply (Hkeep k v); [done|by right].
  - done.
  - intros k v i Hk Hi Haw. apply (Hh k v i Hk Hi).
    cbn [elapsed_state with_nodes with_timers with_time timers clock] in Haw.
    destruct (existsb (mentions i) (timers s)) eqn:E; [done|].
    by rewrite existsb_filter_false in Haw.
  - intros i n' Hi Hout. rewrite lookup_nodes_elapsed in Hi.
    destruct (nodes s !! i) as [m|] eqn:Hm; [|done]. injection Hi as <-.
    pose proof (outputs_silence_if _ _ Hout) as Hb. rewrite Hb in Hout.
    cbn [silence_if] in Hout.
    destruct (Hacc i m Hm Hout) as [Hreg | Haw]; [by left|right].
    cbn [elapsed_state with_nodes with_timers with_time timers clock].
    rewrite (existsb_partition _ (due (clock s + dt))), Hb in Haw. exact Haw.
  - done.
  - cbn [elapsed_state with_nodes with_timers with_time timers clock].
    apply Forall_filter_bool. eapply Forall_impl; [exact Hsoon|].
    intros t Ht. cbn beta in *. lra.
Qed.

(** ** What the listeners do *)

Lemma agree_refl s : agree s s.
Proof. by repeat split. Qed.

Lemma agree_trans s1 s2 s3 : agree s1 s2 → agree s2 s3 → agree s1 s3.
Proof.
  intros (?&?&?&?&?) (?&?&?&?&?). repeat split; congruence.
Qed.

Lemma agree_requested s : agree s (requested s).
Proof.
  unfold requested. destruct (decide (ctx_state s = suspended)); by repeat split.
Qed.

Lemma resume_if_suspended_effect s :
  resume_if_suspended s = Ret () (requested s).
Proof.
  unfold resume_if_suspended, requested, resume. simp_state.
  by destruct (decide (ctx_state s = suspended)).
Qed.

Lemma agree_window_listener p : agree (audio p) (audio (window_listener p)).
Proof.
  unfold window_listener, onceResume.
  destruct (onceResume_installed p); [|apply agree_refl].
  cbn [audio]. rewrite resume_if_suspended_effect. apply agree_requested.
Qed.

Lemma agree_spare_requested extra s :
  agree (with_nodes (λ ns, ns ++ extra) s)
        (with_nodes (λ ns, ns ++ extra) (requested s)).
Proof.
  unfold requested. destruct (decide (ctx_state s = suspended)); by repeat split.
Qed.

Lemma agree_note_on_requested adsr id n s :
  agree (note_on_state adsr id n s) (note_on_state adsr id n (requested s)).
Proof.
  unfold requested. destruct (decide (ctx_state s = suspended)); by repeat split.
Qed.

Lemma startNote_effect adsr keyEl s e :
  ∃ s', Effect adsr s e s'
        ∧ agree s' (final (startNoteForElement adsr keyEl s)).
Proof.
  assert (Hsame : ∀ s', agree s s' →
            ∃ s'', Effect adsr s e s'' ∧ agree s'' s').
  { intros s' (Hn & Hr & Ht & Hc & Hk).
    exists (with_nodes (λ ns, ns ++ []) s). split; [by constructor|].
    repeat split; cbn [with_nodes nodes activeVoices timers active_class clock];
      try done. by rewrite app_nil_r. }
  destruct keyEl as [[id [data|]]|]; try (apply Hsame, agree_refl).
  change (Some {| el_id := id; dataset_midi := Some data |}) with (key id data).
  destruct (truthy data) eqn:Ht.
  2:{ rewrite startNote_falsy by done. apply Hsame, agree_refl. }
  destruct (activeVoices s !! id) as [v|] eqn:Hreg.
  { rewrite (startNote_registered adsr s id data v) by done.
    apply Hsame, agree_requested. }
  destruct (frequency_accepted_dec data) as [(n & Hp & Hfl)|Hno].
  2:{ rewrite startNote_not_accepted by done. cbn [final].
      eexists. split; [|apply agree_spare_requested].
      constructor. by repeat constructor. }
  destruct (decide (OscillatorType_of_string (selected_wave (waveSelect s))
                    = Some custom)) as [Hc|Hw].
  { rewrite (startNote_custom_wave adsr s id data n) by
      (done || (intros Hw; by apply Hw)).
    cbn [final]. eexists. split; [|apply agree_spare_requested].
    constructor. by repeat constructor. }
  unfold key. rewrite (startNote_fresh adsr s id data n) by done.
  exists (note_on_state adsr id n s). split; [by constructor|apply agree_refl].
Qed.

Lemma Effect_agree adsr s0 s e s' :
  agree s0 s → ctx_state s = ctx_state s0 → currentTime s = currentTime s0 →
  waveSelect s = waveSelect s0 →
  Effect adsr s e s' → ∃ s'', Effect adsr s0 e s'' ∧ agree s'' s'.
Proof.
  intros (Hn & Hr & Ht & Hc & Hk) Hctx Hnow Hws H.
  destruct H as [extra Hx | id n Hid | id v Hrel Hid | id Hid | dt Hdt
                 | i level He].
  - exists (with_nodes (λ ns, ns ++ extra) s0). split; [by constructor|].
    repeat split; cbn [with_nodes nodes activeVoices timers active_class clock];
      congruence.
  - exists (note_on_state adsr id n s0). rewrite Hr in Hid.
    split; [by constructor|].
    repeat split; cbn [note_on_state nodes activeVoices timers active_class clock];
      congruence.
  - exists (note_off_state adsr id v s0). rewrite Hr in Hid.
    split; [by constructor|].
    repeat split; cbn [note_off_state nodes activeVoices timers active_class clock];
      congruence.
  - exists (with_active_class (λ c, c ∖ {[id]}) s0). rewrite Hr in Hid.
    split; [by constructor|].
    repeat split;
      cbn [with_active_class nodes activeVoices timers active_class clock];
      congruence.
  - exists (elapsed_state dt s0). split; [by constructor|].
    unfold elapsed_state.
    repeat split;
      cbn [with_nodes with_timers with_time nodes activeVoices
           timers active_class clock];
      by rewrite ?Hn, ?Hr, ?Ht, ?Hc, ?Hk.
  - exists (with_nodes (update_gain i (set_gain_param (report_level level))) s0).
    split; [by constructor|].
    repeat split; cbn [with_nodes nodes activeVoices timers active_class clock];
      congruence.
Qed.

Lemma stopNote_effect adsr el s e :
  releases (el_id el) e = true →
  ∃ s', Effect adsr s e s'
        ∧ agree s' (final (stopNoteForElement adsr (Some el) s)).
Proof.
  intros Hrel. destruct (activeVoices s !! el_id el) as [v|] eqn:Hreg.
  - rewrite (stopNote_registered adsr s el v Hreg).
    exists (note_off_state adsr (el_id el) v s).
    split; [by constructor|apply agree_refl].
  - rewrite stopNote_unregistered by done.
    exists (with_active_class (λ c, c ∖ {[el_id el]}) s).
    split; [by constructor|apply agree_refl].
Qed.

Lemma Effect_none adsr s e s' :
  agree s s' → ∃ s'', Effect adsr s e s'' ∧ agree s'' s'.
Proof.
  intros (Hn & Hr & Ht & Hc & Hk).
  exists (with_nodes (λ ns, ns ++ []) s). split; [by constructor|].
  repeat split; cbn [with_nodes nodes activeVoices timers active_class clock];
    try done. by rewrite app_nil_r.
Qed.

(** Every event has one of the six effects. *)
Lemma dispatch_effect adsr e p :
  possible e →
  ∃ s', Effect adsr (audio p) e s' ∧ agree s' (audio (dispatch adsr e p)).
Proof.
  intros Hposs. destruct e as [[el|]|el|el|el pr b|v|dt|i level|];
    cbn [dispatch].
  - destruct (startNote_effect adsr (Some el) (requested (audio p))
                (PointerDown (Some el))) as (s1 & He & Ha).
    destruct (Effect_agree adsr (audio p) _ _ _ (agree_requested (audio p))
                ltac:(unfold requested; by destruct (decide _))
                ltac:(unfold requested; by destruct (decide _))
                ltac:(unfold requested; by destruct (decide _)) He)
      as (s2 & He2 & Ha2).
    exists s2. split; [done|].
    eapply agree_trans; [exact Ha2|]. eapply agree_trans; [exact Ha|].
    eapply agree_trans; [|apply agree_window_listener].
    unfold listener, on_pointerdown. cbn [audio]. simp_state.
    rewrite resume_if_suspended_effect. apply agree_refl.
  - apply Effect_none, agree_window_listener.
  - unfold listener, on_pointerup. cbn [audio]. apply stopNote_effect.
    cbn [releases]. by apply bool_decide_eq_true_2.
  - unfold listener, on_pointercancel. cbn [audio]. apply stopNote_effect.
    cbn [releases]. by apply bool_decide_eq_true_2.
  - unfold listener, on_pointerleave. cbn [audio].
    destruct (Qeq_bool pr 0 || (b =? 0)%Z) eqn:Hc.
    + apply stopNote_effect. cbn [releases]. rewrite Hc.
      by rewrite bool_decide_eq_true_2.
    + apply Effect_none, agree_refl.
  - apply Effect_none. unfold listener. cbn [audio]. simp_state.
    cbn [final]. by repeat split.
  - unfold listener. cbn [audio]. rewrite elapse_effect. cbn [final].
    exists (elapsed_state dt (audio p)). split; [by constructor|apply agree_refl].
  - unfold listener. cbn [audio]. eexists. split; [by apply effect_rendered|].
    unfold rendered, on_gain_param. simp_state. cbn [final]. apply agree_refl.
  - apply Effect_none. unfold listener, resumed. cbn [audio]. simp_state.
    cbn [final]. destruct (resume_requested (audio p)); by repeat split.
Qed.

Lemma consistent_effect adsr s e s' :
  Effect adsr s e s' → consistent adsr s → consistent adsr s'.
Proof.
  intros [extra Hx | id n Hid | id v Hrel Hid | id Hid | dt Hdt | i level He].
  - by apply consistent_spare.
  - by apply consistent_note_on.
  - by apply consistent_note_off.
  - by apply consistent_class.
  - by apply consistent_elapsed.
  - by apply consistent_rendered.
Qed.

Lemma consistent_loaded adsr p : loaded p → consistent adsr (audio p).
Proof.
  intros (Hn & Hr & Hc & Ht & _).
  unfold consistent, well_formed, awaited. rewrite Hn, Hr, Hc, Ht.
  repeat split; try by constructor.
  all: try (intros *; by rewrite ?lookup_empty).
Qed.

Lemma consistent_reachable adsr p : reachable adsr p → consistent adsr (audio p).
Proof.
  induction 1 as [p Hl | e p Hr IH Hposs]; [by apply consistent_loaded|].
  destruct (dispatch_effect adsr e p Hposs) as (s' & He & Ha).
  eapply consistent_agree; [exact Ha|]. by eapply consistent_effect.
Qed.

Lemma lookup_report_other s i level j :
  (∀ g, nodes s !! j = Some (Gain g) → i ≠ j) →
  nodes (with_nodes (update_gain i (set_gain_param (report_level level))) s) !! j
  = nodes s !! j.
Proof.
  intros Hj. cbn [with_nodes nodes]. unfold update_gain.
  destruct (decide (i = j)) as [->|Hne]; [|by rewrite list_lookup_alter_ne].
  rewrite lookup_alter_at. destruct (nodes s !! j) as [[o|g]|] eqn:E; try done.
  by destruct (Hj g).
Qed.

(** An effect that is neither the release of key [k] nor a level report
    for its gain leaves the voice of [k] as it is. *)
Lemma Effect_spares_held adsr s e s' k v :
  consistent adsr s → Effect adsr s e s' →
  activeVoices s !! k = Some v →
  releases k e = false → reports (gain v) e = false →
  activeVoices s' !! k = Some v
  ∧ nodes s' !! osc v = nodes s !! osc v
  ∧ nodes s' !! gain v = nodes s !! gain v.
Proof.
  intros (Hwf & Hs & Ha & Hh & Hacc & Hcl & Hsoon) He Hk Hrel Hrep.
  pose proof (owns_bounded s k v (osc v) Hwf Hk (or_introl eq_refl)) as Hbo.
  pose proof (owns_bounded s k v (gain v) Hwf Hk (or_intror eq_refl)) as Hbg.
  destruct He as [extra Hx | id n Hid | id v' Hrel' Hid | id Hid | dt Hdt
                  | i level He].
  - cbn [with_nodes nodes activeVoices]. by rewrite !lookup_app_l.
  - cbn [note_on_state nodes activeVoices].
    rewrite lookup_insert_ne by (intros <-; congruence).
    by rewrite !lookup_app_l.
  - assert (Hne : id ≠ k) by (intros <-; congruence).
    assert (Hapart : ∀ i, owns v i → ¬ owns v' i).
    { intros i Hi Hi'. apply Hne. by apply (Ha id k v' v i). }
    split; [cbn [note_off_state activeVoices]; by rewrite lookup_delete_ne|].
    split; apply lookup_note_off_other; intros E.
    + apply (Hapart (osc v)); [by left|by left].
    + apply (Hapart (osc v)); [by left|by right].
    + apply (Hapart (gain v)); [by right|by left].
    + apply (Hapart (gain v)); [by right|by right].
  - done.
  - assert (Hkeep : ∀ i, owns v i →
                    nodes (elapsed_state dt s) !! i = nodes s !! i).
    { intros i Hi. rewrite lookup_nodes_elapsed.
      rewrite existsb_filter_false; [apply silence_if_false|].
      specialize (Hh k v i Hk Hi). unfold awaited in Hh.
      by destruct (existsb (mentions i) (timers s)). }
    split; [done|]. split; apply Hkeep; [by left|by right].
  - subst e. cbn [reports] in Hrep. apply bool_decide_eq_false in Hrep.
    destruct (Hs k v Hk) as [(n & Hn & _) _].
    split; [done|]. split; apply lookup_report_other.
    + intros g Hg. congruence.
    + intros g Hg. done.
Qed.

(** X10.  On every page state the listeners can lead to, a key in the
    registry has a voice that is heard: its oscillator is started, has
    no stop scheduled and feeds its gain, the gain feeds [masterGain], no
    pending timer will disconnect either node, and the key carries the
    class "active".  No other key's voice uses either node. *)
Theorem registered_voice_sounds adsr p k v :
  reachable adsr p → activeVoices (audio p) !! k = Some v →
  sounding (audio p) v
  ∧ osc v ≠ gain v
  ∧ ¬ awaited (audio p) (osc v) ∧ ¬ awaited (audio p) (gain v)
  ∧ k ∈ active_class (audio p)
  ∧ (∀ k' v' i, activeVoices (audio p) !! k' = Some v' →
       owns v i → owns v' i → k' = k).
Proof.
  intros Hr Hk.
  destruct (consistent_reachable adsr p Hr)
    as (Hwf & Hs & Ha & Hh & Hacc & Hcl & Hsoon).
  split; [by eauto|]. split; [by eapply sounding_two_nodes; eauto|].
  split; [apply (Hh k v); [done|by left]|].
  split; [apply (Hh k v); [done|by right]|].
  split; [by apply Hcl|]. intros k' v' i Hk' Hi Hi'. by apply (Ha k' k v' v i).
Qed.

(** X11.  A key carries the class "active" exactly while it is in the
    registry, on every page state the listeners can lead to: also after a
    press that threw, a release of a key that had no voice, or a press
    of a key that was held already. *)
Theorem highlight_mirrors_registry adsr p k :
  reachable adsr p →
  k ∈ active_class (audio p) ↔ is_Some (activeVoices (audio p) !! k).
Proof.
  intros Hr.
  destruct (consistent_reachable adsr p Hr)
    as (Hwf & Hs & Ha & Hh & Hacc & Hcl & Hsoon).
  apply Hcl.
Qed.

(** X12.  Polyphony: while a key is held, no event other than its own
    release (and the renderer's report of its gain level) changes its
    registry entry, its oscillator or its gain: not the press or release
    of another key, not a second press of the key itself, not a press
    that throws, not the cleanup timers of released voices. *)
Theorem held_voice_undisturbed adsr p e k v :
  reachable adsr p → possible e →
  activeVoices (audio p) !! k = Some v →
  releases k e = false → reports (gain v) e = false →
  let p' := dispatch adsr e p in
  activeVoices (audio p') !! k = Some v
  ∧ nodes (audio p') !! osc v = nodes (audio p) !! osc v
  ∧ nodes (audio p') !! gain v = nodes (audio p) !! gain v
  ∧ sounding (audio p') v.
Proof.
  intros Hr Hposs Hk Hrel Hrep p'.
  pose proof (consistent_reachable adsr p Hr) as Hc.
  destruct (dispatch_effect adsr e p Hposs) as (s' & He & Hag).
  destruct (Effect_spares_held adsr _ e s' k v Hc He Hk Hrel Hrep)
    as (H1 & H2 & H3).
  destruct Hag as (Hn & Hreg & _). subst p'. rewrite Hn, Hreg.
  split; [done|]. split; [done|]. split; [done|].
  apply (sounding_same_nodes (audio p)); [by rewrite Hn..|].
  by destruct Hc as (_ & Hs & _); eauto.
Qed.

(** X13.  No node is left connected and forgotten: on every page state
    the listeners can lead to, a node with an outgoing connection
    belongs to the voice of a key in the registry, or a pending timer
    will disconnect it; and every pending timer fires within the release
    delay. *)
Theorem connected_nodes_accounted adsr p i n :
  reachable adsr p → nodes (audio p) !! i = Some n → outputs n ≠ [] →
  ((∃ k v, activeVoices (audio p) !! k = Some v ∧ owns v i)
   ∨ awaited (audio p) i)
  ∧ Forall (λ t, (fire_at t <= clock (audio p) + release_delay adsr)%Q)
      (timers (audio p)).
Proof.
  intros Hr Hi Hout.
  destruct (consistent_reachable adsr p Hr)
    as (Hwf & Hs & Ha & Hh & Hacc & Hcl & Hsoon).
  split; [by eauto|done].
Qed.

Lemma filter_all_due now (ts : list Timer) :
  Forall (λ t, (fire_at t <= now)%Q) ts →
  List.filter (due now) ts = ts
  ∧ List.filter (λ t, negb (due now t)) ts = [].
Proof.
  induction 1 as [|t ts Ht _ [IH1 IH2]]; [done|]. cbn [List.filter].
  assert (Hd : due now t = true) by (by apply Qle_bool_true).
  rewrite Hd. cbn [negb]. split; [by rewrite IH1|exact IH2].
Qed.

(** X14.  Silence after the release: when the release delay (350 ms with
    the page's envelope) has passed with no further event, no timer is
    pending and the only nodes still connected are those of keys in the
    registry; with no key held, every node the page ever created is
    disconnected. *)
Theorem released_voices_disconnected adsr p dt i n :
  reachable adsr p → (release_delay adsr <= dt)%Q →
  let p' := dispatch adsr (TimePasses dt) p in
  nodes (audio p') !! i = Some n →
  timers (audio p') = []
  ∧ (outputs n ≠ [] →
       ∃ k v, activeVoices (audio p') !! k = Some v ∧ owns v i
              ∧ sounding (audio p') v)
  ∧ (activeVoices (audio p) = ∅ → outputs n = []).
Proof.
  intros Hr Hdt p' Hi.
  destruct (consistent_reachable adsr p Hr)
    as (Hwf & Hs & Ha & Hh & Hacc & Hcl & Hsoon).
  assert (Hall : Forall (λ t, (fire_at t <= clock (audio p) + dt)%Q)
                   (timers (audio p))).
  { eapply Forall_impl; [exact Hsoon|]. intros t Ht. cbn beta in *. lra. }
  destruct (filter_all_due _ _ Hall) as [Hdue Hnot].
  subst p'. cbn [dispatch listener audio] in *. rewrite elapse_effect in *.
  cbn [final] in *. rewrite lookup_nodes_elapsed, Hdue in Hi.
  destruct (nodes (audio p) !! i) as [m|] eqn:Hm; [|done]. injection Hi as <-.
  assert (Hlive : outputs (silence_if (existsb (mentions i) (timers (audio p))) m)
                  ≠ [] →
                  ∃ k v, activeVoices (audio p) !! k = Some v ∧ owns v i).
  { intros Hout. pose proof (outputs_silence_if _ _ Hout) as Hb.
    rewrite Hb in Hout. cbn [silence_if] in Hout.
    destruct (Hacc i m Hm Hout) as [Hreg | Haw]; [done|].
    unfold awaited in Haw. congruence. }
  split; [|split].
  - cbn [elapsed_state with_nodes with_timers with_time timers clock].
    exact Hnot.
  - intros Hout. destruct (Hlive Hout) as (k & v & Hk & Hown).
    exists k, v. split; [done|]. split; [done|].
    assert (Hkeep : ∀ j, owns v j →
              nodes (elapsed_state dt (audio p)) !! j = nodes (audio p) !! j).
    { intros j Hj. rewrite lookup_nodes_elapsed.
      rewrite existsb_filter_false; [apply silence_if_false|].
      specialize (Hh k v j Hk Hj). unfold awaited in Hh.
      by destruct (existsb (mentions j) (timers (audio p))). }
    apply (sounding_same_nodes (audio p)); [..|by eauto].
    + apply Hkeep. by left.
    + apply Hkeep. by right.
  - intros Hempty.
    destruct (decide (outputs (silence_if
                (existsb (mentions i) (timers (audio p))) m) = []))
      as [|Hout]; [done|].
    destruct (Hlive Hout) as (k & v & Hk & _).
    rewrite Hempty, lookup_empty in Hk. done.
Qed.

(** X18.  The [catch] around [osc.stop] in [stopNoteForElement] is never
    entered on a page state the listeners can lead to: the oscillator of
    a key in the registry is started and has no stop scheduled, so
    [stop] returns, and the release leaves the oscillator with its stop
    at now + release + 0.02 s and its connection in place. *)
Theorem stop_finds_voice_sounding adsr p el v :
  reachable adsr p → activeVoices (audio p) !! el_id el = Some v →
  let now := currentTime (audio p) in
  let t := (now + release adsr + (2 # 100))%Q in
  returns (stop (osc v) t (audio p)) = true
  ∧ ∃ o, nodes (final (stopNoteForElement adsr (Some el) (audio p))) !! osc v
         = Some (Osc o)
         ∧ is_Some (started o) ∧ stopped o = Some t
         ∧ osc_out o = [ToNode (gain v)].
Proof.
  intros Hr Hk now t.
  destruct (consistent_reachable adsr p Hr)
    as (Hwf & Hs & Ha & Hh & Hacc & Hcl & Hsoon).
  pose proof (Hs _ v Hk) as Hsound.
  pose proof (sounding_two_nodes _ v Hsound) as Hne.
  destruct Hsound as [(n & Hn & [t0 Hst] & Hsp & Hout) _].
  split.
  - unfold stop. by rewrite Hn, Hst.
  - rewrite (stopNote_registered adsr _ el v Hk). cbn [final].
    unfold note_off_state, update_osc, update_gain. cbn [nodes].
    rewrite lookup_alter_at, list_lookup_alter_ne, Hn by done.
    cbn [fmap option_fmap option_map on_osc].
    unfold stop_if_sounding, reschedule_stop.
    rewrite Hst, Hsp. eexists. split; [reflexivity|].
    cbn [set_stopped started stopped osc_out]. by rewrite Hst.
Qed.

Lemma loaded_fresh_page : loaded fresh_page.
Proof. by repeat split. Qed.

Lemma reachable_one_key_held : reachable ADSR one_key_held.
Proof.
  apply reachable_event; [|exact I].
  apply reachable_loaded, loaded_fresh_page.
Qed.

Lemma audio_one_key_held :
  audio one_key_held = requested (on_state ADSR 7 "72" (requested initial)).
Proof.
  unfold one_key_held, key. cbn [dispatch]. unfold window_listener, listener.
  cbn [onceResume_installed fresh_page audio]. unfold on_pointerdown, onceResume.
  simp_state. rewrite !resume_if_suspended_effect.
  destruct accepted_72 as (n & Hn & Hfl).
  rewrite (startNote_fresh ADSR (requested initial) 7 "72" n eq_refl Hn Hfl
             eq_refl wave_assignable_initial).
  cbn [final]. unfold on_state. by rewrite Hn.
Qed.

Lemma registry_one_key_held :
  activeVoices (audio one_key_held) !! 7 = Some {| osc := 0; gain := 1 |}.
Proof. rewrite audio_one_key_held. vm_compute. reflexivity. Qed.

Lemma registered_voice_sounds_witness :
  reachable ADSR one_key_held
  ∧ activeVoices (audio one_key_held) !! 7 = Some {| osc := 0; gain := 1 |}
  ∧ sounding (audio one_key_held) {| osc := 0; gain := 1 |}
  ∧ 7 ∈ active_class (audio one_key_held).
Proof.
  pose proof reachable_one_key_held as Hr.
  assert (Hk : activeVoices (audio one_key_held) !! 7
               = Some {| osc := 0; gain := 1 |}) by exact registry_one_key_held.
  destruct (registered_voice_sounds ADSR one_key_held 7 _ Hr Hk)
    as (H1 & _ & _ & _ & H5 & _).
  split; [exact Hr|]. split; [exact Hk|]. split; [exact H1|exact H5].
Defined.

Lemma highlight_mirrors_registry_witness :
  reachable ADSR one_key_held
  ∧ (7 ∈ active_class (audio one_key_held)
     ↔ is_Some (activeVoices (audio one_key_held) !! 7)).
Proof.
  pose proof reachable_one_key_held as Hr.
  split; [exact Hr|]. exact (highlight_mirrors_registry ADSR one_key_held 7 Hr).
Defined.

Lemma held_voice_undisturbed_witness :
  reachable ADSR one_key_held ∧ possible (PointerDown (key 8 "76"))
  ∧ activeVoices (audio one_key_held) !! 7 = Some {| osc := 0; gain := 1 |}
  ∧ releases 7 (PointerDown (key 8 "76")) = false
  ∧ reports 1 (PointerDown (key 8 "76")) = false
  ∧ activeVoices (audio two_keys_held) !! 7 = Some {| osc := 0; gain := 1 |}
  ∧ nodes (audio two_keys_held) !! 0 = nodes (audio one_key_held) !! 0.
Proof.
  pose proof reachable_one_key_held as Hr.
  assert (Hp : possible (PointerDown (key 8 "76"))) by exact I.
  assert (Hk : activeVoices (audio one_key_held) !! 7
               = Some {| osc := 0; gain := 1 |}) by exact registry_one_key_held.
  assert (H1 : releases 7 (PointerDown (key 8 "76")) = false) by reflexivity.
  assert (H2 : reports 1 (PointerDown (key 8 "76")) = false) by reflexivity.
  destruct (held_voice_undisturbed ADSR one_key_held (PointerDown (key 8 "76"))
              7 {| osc := 0; gain := 1 |} Hr Hp Hk H1 H2) as (Ha & Hb & _).
  split; [exact Hr|]. split; [exact Hp|]. split; [exact Hk|].
  split; [exact H1|]. split; [exact H2|]. split; [exact Ha|exact Hb].
Defined.

Lemma connected_nodes_accounted_witness :
  reachable ADSR one_key_held
  ∧ ∃ n, nodes (audio one_key_held) !! 0 = Some n ∧ outputs n ≠ []
         ∧ ((∃ k v, activeVoices (audio one_key_held) !! k = Some v ∧ owns v 0)
            ∨ awaited (audio one_key_held) 0).
Proof.
  pose proof reachable_one_key_held as Hr.
  assert (Ho : outputs <$> nodes (audio one_key_held) !! 0 = Some [ToNode 1])
    by (rewrite audio_one_key_held; vm_compute; reflexivity).
  destruct (nodes (audio one_key_held) !! 0) as [n|] eqn:E;
    [|discriminate Ho].
  assert (Hout : outputs n ≠ []) by (injection Ho as ->; discriminate).
  split; [exact Hr|]. exists n. split; [reflexivity|]. split; [exact Hout|].
  exact (proj1 (connected_nodes_accounted ADSR one_key_held 0 n Hr E Hout)).
Defined.

Lemma released_voices_disconnected_witness :
  reachable ADSR key_released ∧ (release_delay ADSR <= 350)%Q
  ∧ timers (audio key_released) ≠ []
  ∧ timers (audio (dispatch ADSR (TimePasses 350) key_released)) = []
  ∧ ∃ n, nodes (audio (dispatch ADSR (TimePasses 350) key_released)) !! 0
         = Some n ∧ outputs n = [].
Proof.
  assert (Hr : reachable ADSR key_released).
  { apply reachable_event; [apply reachable_one_key_held|exact I]. }
  assert (Hd : (release_delay ADSR <= 350)%Q) by (vm_compute; discriminate).
  assert (Ha : audio key_released
               = note_off_state ADSR 7 {| osc := 0; gain := 1 |}
                   (audio one_key_held)).
  { unfold key_released. cbn [dispatch listener audio]. unfold on_pointerup.
    by rewrite (stopNote_registered ADSR (audio one_key_held)
                  {| el_id := 7; dataset_midi := Some "72" |}
                  {| osc := 0; gain := 1 |} registry_one_key_held). }
  assert (Ht : timers (audio key_released) ≠ [])
    by (rewrite Ha; cbn [note_off_state timers]; by destruct (timers _)).
  assert (He : activeVoices (audio key_released) = ∅)
    by (rewrite Ha, audio_one_key_held; vm_compute; reflexivity).
  assert (Hl : is_Some
            (nodes (audio (dispatch ADSR (TimePasses 350) key_released)) !! 0)).
  { apply lookup_lt_is_Some. cbn [dispatch listener audio].
    rewrite elapse_effect. cbn [final].
    rewrite length_nodes_elapsed, Ha, audio_one_key_held. vm_compute. lia. }
  destruct Hl as [n Hn].
  destruct (released_voices_disconnected ADSR key_released 350 0 n Hr Hd Hn)
    as (Hc & _ & Hb).
  split; [exact Hr|]. split; [exact Hd|]. split; [exact Ht|].
  split; [exact Hc|]. exists n. split; [exact Hn|exact (Hb He)].
Defined.

Lemma stop_finds_voice_sounding_witness :
  reachable ADSR one_key_held
  ∧ activeVoices (audio one_key_held) !! 7 = Some {| osc := 0; gain := 1 |}
  ∧ returns (stop 0 (currentTime (audio one_key_held) + release ADSR + (2 # 100))
               (audio one_key_held)) = true.
Proof.
  pose proof reachable_one_key_held as Hr.
  assert (Hk : activeVoices (audio one_key_held) !! 7
               = Some {| osc := 0; gain := 1 |}) by exact registry_one_key_held.
  split; [exact Hr|]. split; [exact Hk|].
  exact (proj1 (stop_finds_voice_sounding ADSR one_key_held
                  {| el_id := 7; dataset_midi := Some "72" |} _ Hr Hk)).
Defined.

(** ** Waking the audio context *)

Lemma requested_suspended s :
  ctx_state s = suspended →
  resume_requested (requested s) = true ∧ ctx_state (requested s) = suspended.
Proof.
  intros H. unfold requested. by rewrite decide_True.
Qed.

Lemma startNote_keeps_request adsr keyEl s :
  resume_requested s = true →
  resume_requested (final (startNoteForElement adsr keyEl s)) = true
  ∧ ctx_state (final (startNoteForElement adsr keyEl s)) = ctx_state s.
Proof.
  intros Hreq.
  assert (Hrq : resume_requested (requested s) = true
                ∧ ctx_state (requested s) = ctx_state s).
  { unfold requested. by destruct (decide (ctx_state s = suspended)). }
  destruct keyEl as [[id [data|]]|]; try done.
  change (Some {| el_id := id; dataset_midi := Some data |}) with (key id data).
  destruct (truthy data) eqn:Ht.
  2:{ by rewrite startNote_falsy. }
  destruct (activeVoices s !! id) as [v|] eqn:Hreg.
  { by rewrite (startNote_registered adsr s id data v). }
  destruct (frequency_accepted_dec data) as [(n & Hp & Hfl)|Hno].
  2:{ by rewrite startNote_not_accepted. }
  destruct (decide (OscillatorType_of_string (selected_wave (waveSelect s))
                    = Some custom)) as [Hc|Hw].
  { by rewrite (startNote_custom_wave adsr s id data n) by
      (done || (intros Hw; by apply Hw)). }
  unfold key. rewrite (startNote_fresh adsr s id data n) by done.
  cbn [final note_on_state resume_requested ctx_state].
  by destruct (decide (ctx_state s = suspended)).
Qed.

(** X15.  A pointer-down on a key of a page whose context is suspended
    asks the context to resume, whatever [startNoteForElement] does
    next (also when it throws, or returns early), and so does the first
    pointer-down anywhere else; when the request settles the context
    runs.  The window's listener is gone after the first pointer-down:
    a later one that is not on a key changes nothing. *)
Theorem pointer_down_requests_resume adsr p target :
  ctx_state (audio p) = suspended →
  let p1 := dispatch adsr (PointerDown target) p in
  (is_Some target ∨ onceResume_installed p = true →
     resume_requested (audio p1) = true
     ∧ ctx_state (audio (dispatch adsr ResumeSettles p1)) = running)
  ∧ onceResume_installed p1 = false
  ∧ (target = None → onceResume_installed p = false → p1 = p).
Proof.
  intros Hs p1.
  assert (Hrun : resume_requested (audio p1) = true →
                 ctx_state (audio (dispatch adsr ResumeSettles p1)) = running).
  { intros H. cbn [dispatch listener audio]. unfold resumed. simp_state.
    by rewrite H. }
  assert (Hkey : ∀ el,
    resume_requested (audio (listener (on_pointerdown adsr el) p)) = true
    ∧ ctx_state (audio (listener (on_pointerdown adsr el) p)) = suspended).
  { intros el. unfold listener, on_pointerdown. cbn [audio]. simp_state.
    rewrite resume_if_suspended_effect.
    destruct (requested_suspended _ Hs) as [Hq Hc].
    destruct (startNote_keeps_request adsr (Some el) _ Hq) as [H1 H2].
    split; [done|]. by rewrite H2. }
  split; [|split].
  - intros Hcase.
    assert (Hreq : resume_requested (audio p1) = true); [|by auto].
    subst p1. destruct target as [el|]; cbn [dispatch].
    + destruct (Hkey el) as [H1 H2]. unfold window_listener.
      destruct (onceResume_installed _); [|done].
      cbn [audio]. unfold onceResume. rewrite resume_if_suspended_effect.
      cbn [final]. by apply requested_suspended.
    + destruct Hcase as [[? [=]] | Hinst].
      unfold window_listener. rewrite Hinst. cbn [audio]. unfold onceResume.
      rewrite resume_if_suspended_effect. cbn [final].
      by apply requested_suspended.
  - subst p1. destruct target as [el|]; cbn [dispatch];
      unfold window_listener, listener; cbn [onceResume_installed];
      by destruct (onceResume_installed p) eqn:E.
  - intros -> Hno. subst p1. cbn [dispatch]. unfold window_listener.
    by rewrite Hno.
Qed.

Lemma pointer_down_requests_resume_witness :
  ctx_state (audio fresh_page) = suspended
  ∧ resume_requested
      (audio (dispatch ADSR
                (PointerDown (Some {| el_id := 7; dataset_midi := Some "abc" |}))
                fresh_page)) = true.
Proof.
  assert (H : ctx_state (audio fresh_page) = suspended) by reflexivity.
  split; [exact H|].
  apply (pointer_down_requests_resume ADSR fresh_page _ H).
  left. eexists. reflexivity.
Defined.

(** ** The navigation menu *)

Lemma in_sync_handle e n : in_sync n → in_sync (nav_handle e n).
Proof.
  intros [Ha Ho]. destruct e as [| | | |key]; cbn [nav_handle].
  - unfold in_sync, toggle_click. cbn [aria_expanded menu_active toggle_open].
    rewrite Ho. split; [|done].
    destruct (menu_active n) eqn:Hm.
    + rewrite bool_decide_eq_true_2 by (by apply Ha). by cbn.
    + rewrite bool_decide_eq_false_2; [by cbn|].
      intros H%Ha. done.
  - by split.
  - by split.
  - by split.
  - unfold document_keydown.
    destruct (String.eqb key "Escape" && menu_active n); by split.
Qed.

(** X16.  The navigation menu: when the toggle's [aria-expanded], the
    menu's class "active" and the toggle's class "open" say the same to
    begin with, they say the same after any sequence of clicks and key
    presses.  From there a click on the toggle flips the menu; a click on
    a link or outside, or Escape, leaves it closed; and Escape moves the
    focus to the toggle only when it closed an open menu. *)
Theorem nav_menu_stays_in_sync (es : list NavEvent) (n : Nav) :
  in_sync n →
  let n' := nav_run es n in
  in_sync n'
  ∧ menu_active (nav_handle ClickToggle n') = negb (menu_active n')
  ∧ nav_handle ClickToggle (nav_handle ClickToggle n')
    = {| aria_expanded := Some (if menu_active n' then "true" else "false");
         menu_active := menu_active n'; toggle_open := toggle_open n';
         focus_calls := focus_calls n' |}
  ∧ menu_active (nav_handle ClickLink n') = false
  ∧ menu_active (nav_handle ClickOutside n') = false
  ∧ menu_active (nav_handle (KeyDown "Escape") n') = false
  ∧ focus_calls (nav_handle (KeyDown "Escape") n')
    = (if menu_active n' then S (focus_calls n') else focus_calls n').
Proof.
  intros Hs n'.
  assert (Hn : in_sync n').
  { subst n'. revert n Hs. induction es as [|e es IH]; intros n Hs; [done|].
    cbn [nav_run foldl]. apply IH. by apply in_sync_handle. }
  split; [done|]. destruct Hn as [Ha Ho].
  split; [done|]. split.
  - cbn [nav_handle]. unfold toggle_click.
    cbn [aria_expanded menu_active toggle_open focus_calls].
    rewrite !negb_involutive.
    destruct (menu_active n') eqn:Hm.
    + rewrite (bool_decide_eq_true_2 (aria_expanded n' = _)) by (by apply Ha).
      by cbn.
    + rewrite (bool_decide_eq_false_2 (aria_expanded n' = _));
        [by cbn|]. intros H%Ha. done.
  - repeat split; try done.
    all: cbn [nav_handle]; unfold document_keydown; rewrite String.eqb_refl.
    all: by destruct (menu_active n') eqn:Hm.
Qed.

Lemma nav_menu_stays_in_sync_witness :
  in_sync nav_closed
  ∧ in_sync (nav_run [ClickToggle; ClickMenu; KeyDown "Escape"] nav_closed)
  ∧ focus_calls (nav_run [ClickToggle; ClickMenu; KeyDown "Escape"] nav_closed)
    = 1.
Proof.
  assert (H : in_sync nav_closed) by (by split).
  split; [exact H|]. split; [|reflexivity].
  exact (proj1 (nav_menu_stays_in_sync
                  [ClickToggle; ClickMenu; KeyDown "Escape"] nav_closed H)).
Defined.

(** ** The current page's link *)

Lemma last_split_slash_file file :
  no_slash file = true → split_slash file = [file].
Proof.
  induction file as [|c r IH]; [done|]. cbn [no_slash split_slash].
  intros [Hc Hr]%andb_true_iff. apply negb_true_iff in Hc.
  by rewrite Hc, IH.
Qed.

Lemma split_slash_file_last dir file :
  no_slash file = true →
  ∃ h pre, split_slash (dir +:+ "/" +:+ file) = (h :: pre) ++ [file].
Proof.
  intros Hf. induction dir as [|c r (h & pre & IH)].
  - change ("" +:+ "/" +:+ file) with (String "/" file).
    change (split_slash (String "/" file)) with ("" :: split_slash file).
    rewrite last_split_slash_file by done. by exists "", [].
  - change (String c r +:+ "/" +:+ file) with (String c (r +:+ "/" +:+ file)).
    cbn [split_slash]. rewrite IH. destruct (Ascii.eqb c "/").
    + by exists "", (h :: pre).
    + by exists (String c h), pre.
Qed.

Lemma last_split_slash dir file :
  no_slash file = true →
  last (split_slash (dir +:+ "/" +:+ file)) = Some file.
Proof.
  intros Hf. destruct (split_slash_file_last dir file Hf) as (h & pre & ->).
  apply last_snoc.
Qed.

(** X17.  [updateActiveNavLink]: when the path ends in a file name, the
    links marked "active" are exactly those whose [href] is that name;
    when it ends in "/" (a directory), exactly those whose [href] is
    "index.html".  The marks the links had before play no part, so a
    second call changes nothing. *)
Theorem updateActiveNavLink_marks_current_page dir file links :
  no_slash file = true →
  let page := if truthy file then file else "index.html" in
  let links' := updateActiveNavLink (dir +:+ "/" +:+ file) links in
  length links' = length links
  ∧ (∀ i l, links !! i = Some l →
       links' !! i
       = Some {| href := href l;
                 link_active := bool_decide (href l = Some page) |})
  ∧ updateActiveNavLink (dir +:+ "/" +:+ file) links' = links'.
Proof.
  intros Hf page links'.
  assert (Hp : currentPage (dir +:+ "/" +:+ file) = page).
  { unfold currentPage. by rewrite last_split_slash. }
  subst links'. unfold updateActiveNavLink. rewrite Hp.
  split; [by rewrite length_fmap|]. split.
  - intros i l Hi. by rewrite list_lookup_fmap, Hi.
  - rewrite <- list_fmap_compose. by apply list_fmap_ext.
Qed.

Lemma updateActiveNavLink_marks_current_page_witness :
  no_slash "" = true
  ∧ updateActiveNavLink "/Harmonica/"
      [{| href := Some "index.html"; link_active := false |};
       {| href := Some "piano.html"; link_active := true |};
       {| href := None; link_active := true |}]
    !! 0
    = Some {| href := Some "index.html"; link_active := true |}.
Proof.
  assert (H : no_slash "" = true) by reflexivity.
  split; [exact H|].
  exact (proj1 (proj2 (updateActiveNavLink_marks_current_page "/Harmonica" ""
           [{| href := Some "index.html"; link_active := false |};
            {| href := Some "piano.html"; link_active := true |};
            {| href := None; link_active := true |}] H)) 0 _ eq_refl).
Defined.

(** ** From the rendered key to the sound *)

(** X9.  A rendered key sounds the note its label names.  For every key
    [renderKeys] leaves for an octave from -1 to 122 (the last whose 24
    keys all lie below 1500), with key number m: the label is the key's name
    followed by the octave number floor(m / 12) - 1; [getNoteFrequency]
    at that name and octave is [midiToFreq m]; and a pointer-down on the
    key, when the key has no voice and the selected waveform can be
    assigned, registers a voice whose oscillator is set to [midiToFreq m]
    at the current audio time. *)
Theorem rendered_key_sounds_its_label adsr p old v w (b : Z) k id :
  parseInt v = Some b → (-1 <= b <= 122)%Z →
  k ∈ children (renderKeys old (Some v) w).1 →
  activeVoices (audio p) !! id = None → wave_assignable (audio p) →
  let s := audio p in
  let p' := dispatch adsr (PointerDown (element_of id k)) p in
  ∃ (m : Z) o,
    key_midi k = Some m
    ∧ label_text k = data_name k +:+ Number_toString (m / 12 - 1)
    ∧ getNoteFrequency (data_name k) (Some (IZR (m / 12 - 1)))
      = Some (midiToFreq (IZR m))
    ∧ activeVoices (audio p') !! id
      = Some {| osc := length (nodes s); gain := S (length (nodes s)) |}
    ∧ nodes (audio p') !! length (nodes s) = Some (Osc o)
    ∧ events (frequency o) = [SetValueAtTime (midiToFreq (IZR m)) (currentTime s)]
    ∧ sounding (audio p')
        {| osc := length (nodes s); gain := S (length (nodes s)) |}.
Proof.
  intros Hp Hb Hk Hfree Hwave s p'.
  destruct (rendered_key_pitch old v w b k Hp (proj1 Hb) Hk)
    as (m & Hm & Hrange & Hl & Hf).
  assert (Hfl : float_accepts (midiToFreq (IZR m)))
    by (apply float_accepts_midiToFreq; lia).
  assert (Hag : agree (note_on_state adsr id m s) (audio p')).
  { subst p'. unfold element_of. cbn [dispatch].
    eapply agree_trans; [apply agree_note_on_requested|].
    eapply agree_trans; [|apply agree_window_listener].
    unfold listener, on_pointerdown. cbn [audio]. simp_state.
    rewrite resume_if_suspended_effect. fold s.
    rewrite (startNote_fresh adsr (requested s) id (data_midi k) m).
    - apply agree_refl.
    - by apply (parseInt_truthy _ m).
    - exact Hm.
    - exact Hfl.
    - unfold requested.
      by destruct (decide (ctx_state s = suspended)).
    - unfold requested.
      by destruct (decide (ctx_state s = suspended)). }
  destruct Hag as (Hn & Hr & _).
  eexists m, _. split; [exact Hm|]. split; [exact Hl|]. split; [exact Hf|].
  rewrite Hn, Hr. cbn [note_on_state nodes activeVoices].
  split; [by rewrite lookup_insert_eq|].
  split; [by rewrite lookup_pair_fst|]. split; [reflexivity|].
  split; unfold live; cbn [osc gain].
  - eexists. rewrite Hn. cbn [note_on_state nodes].
    rewrite lookup_pair_fst. split; [reflexivity|].
    cbn [voice_oscillator started stopped osc_out]. by eauto.
  - eexists. rewrite Hn. cbn [note_on_state nodes].
    rewrite lookup_pair_snd. split; [reflexivity|done].
Qed.

Lemma rendered_key_sounds_its_label_witness :
  parseInt "4" = Some 4%Z ∧ (-1 <= 4 <= 122)%Z
  ∧ activeVoices (audio fresh_page) !! 7 = None
  ∧ wave_assignable (audio fresh_page)
  ∧ ∃ k m, children (renderKeys empty_keyboard (Some "4") 0).1 !! 0 = Some k
      ∧ key_midi k = Some m
      ∧ activeVoices
          (audio (dispatch ADSR (PointerDown (element_of 7 k)) fresh_page)) !! 7
        = Some {| osc := 0; gain := 1 |}.
Proof.
  assert (H1 : parseInt "4" = Some 4%Z) by reflexivity.
  assert (H2 : (-1 <= 4 <= 122)%Z) by lia.
  assert (H3 : activeVoices (audio fresh_page) !! 7 = None) by reflexivity.
  assert (H4 : wave_assignable (audio fresh_page))
    by (vm_compute; discriminate).
  split; [exact H1|]. split; [exact H2|]. split; [exact H3|].
  split; [exact H4|].
  destruct (children (renderKeys empty_keyboard (Some "4") 0).1 !! 0)
    as [k|] eqn:E; [|vm_compute in E; discriminate E].
  destruct (rendered_key_sounds_its_label ADSR fresh_page empty_keyboard
              "4" 0 4 k 7 H1 H2) as (m & o & Hm & _ & _ & Hr & _);
    [apply list_elem_of_lookup; by exists 0|exact H3|exact H4|].
  exists k, m. split; [reflexivity|]. split; [exact Hm|exact Hr].
Defined.
